(** * CalcHub: the numeric core of the calculators, embedded in Rocq

    The development follows the Python sources under [calculators/]:

    - [Dec]         the arithmetic of [decimal.Decimal] under the default
                    context (28 significant digits, ROUND_HALF_EVEN, traps on
                    InvalidOperation and DivisionByZero) that
                    [loan_calculator.py] computes with;
    - [Loan]        [loan_calculator.py];
    - [Attendance]  [attendance_calculator.py];
    - [BMI]         [bmi_calculator.py];
    - [GPA]         [gpa_calculator.py];
    - [Compound]    [compound_interest_calculator.py];
    - [MathCalc]    [math_calculator.py].

    Python exceptions are values of [exn] carried by the [result] monad.
    [Decimal] values are modelled digit for digit.  Python [float]s are
    modelled twice.  In the modules above they are exact rationals [Q]
    ([Float]: the binary64 rounding of every single operation is not
    modelled; a float division by zero raises [ZeroDivisionError] as in
    Python); what is stated over them does not depend on the value a float
    operation returns.  In [F64] and the modules built on it ([BMI64],
    ...) every operation rounds its exact result to binary64; the
    properties of the values the calculators return are stated there. *)

From Stdlib Require Import ZArith QArith Qround Qabs Qpower List String Ascii Bool Lia
  Psatz.
Import ListNotations.

#[local] Open Scope Z_scope.

(** ** Exceptions and the result monad *)

Inductive exn : Type :=
| LoanCalculationError (msg : string)
| AttendanceCalculationError (msg : string)
| BMICalculationError (msg : string)
| GPACalculationError (msg : string)
| CompoundInterestCalculationError (msg : string)
| MathCalculationError (msg : string)
| ZeroDivisionError
| OverflowError
| ValueError (msg : string)
| SyntaxError
| OtherException (msg : string)
| DecimalDivisionByZero
| DecimalInvalidOperation.

Inductive result (A : Type) : Type :=
| Ok (a : A)
| Raise (e : exn).

Arguments Ok {A} a.
Arguments Raise {A} e.

Definition bind {A B : Type} (r : result A) (k : A -> result B) : result B :=
  match r with
  | Ok a => k a
  | Raise e => Raise e
  end.

Notation "x <- r ;; k" := (bind r (fun x => k))
  (at level 61, r at next level, right associativity).

Definition succeeds {A : Type} (r : result A) : Prop := exists a, r = Ok a.

(** ** Strings: [str.lower], [str.upper], [str.strip] on ASCII text *)

Definition lower_ascii (c : ascii) : ascii :=
  let n := nat_of_ascii c in
  if (65 <=? n)%nat && (n <=? 90)%nat then ascii_of_nat (n + 32) else c.

Definition upper_ascii (c : ascii) : ascii :=
  let n := nat_of_ascii c in
  if (97 <=? n)%nat && (n <=? 122)%nat then ascii_of_nat (n - 32) else c.

Fixpoint map_string (f : ascii -> ascii) (s : string) : string :=
  match s with
  | EmptyString => EmptyString
  | String c r => String (f c) (map_string f r)
  end.

Definition lower (s : string) : string := map_string lower_ascii s.
Definition upper (s : string) : string := map_string upper_ascii s.

(** The characters [str.strip()] removes: space, \t, \n, \v, \f, \r and the
    separators 0x1c-0x1f. *)
Definition is_space (c : ascii) : bool :=
  let n := nat_of_ascii c in
  (n =? 32)%nat || ((9 <=? n)%nat && (n <=? 13)%nat)
  || ((28 <=? n)%nat && (n <=? 31)%nat).

Fixpoint lstrip (s : string) : string :=
  match s with
  | EmptyString => EmptyString
  | String c r => if is_space c then lstrip r else s
  end.

(** What is left of [s] once trailing blanks are dropped. *)
Fixpoint rstrip (s : string) : string :=
  match s with
  | EmptyString => EmptyString
  | String c r =>
      match rstrip r with
      | EmptyString => if is_space c then EmptyString else String c EmptyString
      | r' => String c r'
      end
  end.

Definition strip (s : string) : string := rstrip (lstrip s).

(** ** [decimal.Decimal] under the default context *)

Module Dec.

(** A finite decimal [coef * 10^expo]; the sign lives in [coef].  NaN and
    the infinities never arise: the operations that would produce them are
    trapped and raise. *)
Record t : Type := mk { coef : Z; expo : Z }.

Definition prec : Z := 28.

Definition of_Z (n : Z) : t := mk n 0.

(** [len(str(n))] for a natural number [n]. *)
Fixpoint ndigits_fuel (fuel : nat) (n : Z) : Z :=
  match fuel with
  | O => 1
  | S f => if n <? 10 then 1 else 1 + ndigits_fuel f (n / 10)
  end.

Definition ndigits (n : Z) : Z := ndigits_fuel (Z.to_nat (Z.log2 n)) n.

(** [adjusted()]: the exponent of the leading digit. *)
Definition adjusted (d : t) : Z := expo d + ndigits (Z.abs (coef d)) - 1.

(** Rounding [n / d] ([d > 0]) to an integer. *)
Inductive rounding : Type := ROUND_HALF_EVEN | ROUND_HALF_UP.

Definition round_half_even (n d : Z) : Z :=
  let q := n / d in
  let r := n mod d in
  if 2 * r <? d then q
  else if d <? 2 * r then q + 1
  else if Z.even q then q else q + 1.

(** Ties go away from zero. *)
Definition round_half_up (n d : Z) : Z :=
  let q := Z.abs n / d in
  let r := Z.abs n mod d in
  Z.sgn n * (if d <=? 2 * r then q + 1 else q).

Definition round_div (m : rounding) (n d : Z) : Z :=
  match m with
  | ROUND_HALF_EVEN => round_half_even n d
  | ROUND_HALF_UP => round_half_up n d
  end.

(** [_fix]: round to the precision of the context.  The exponent limits
    Emin and Emax (10^999999 in magnitude) are out of reach of the
    calculators and are not represented. *)
Definition round_to (p : Z) (d : t) : t :=
  let n := ndigits (Z.abs (coef d)) in
  if n <=? p then d
  else
    let k := n - p in
    let q := round_half_even (coef d) (10 ^ k) in
    if ndigits (Z.abs q) >? p then mk (q / 10) (expo d + k + 1)
    else mk q (expo d + k).

Definition fix_ (d : t) : t := round_to prec d.

(** [_rescale]: the same value at exponent [e], rounded when digits are
    dropped. *)
Definition rescale (d : t) (e : Z) (m : rounding) : t :=
  if e <=? expo d then mk (coef d * 10 ^ (expo d - e)) e
  else mk (round_div m (coef d) (10 ^ (e - expo d))) e.

(** [quantize(Decimal(10) ** e, rounding=m)]. *)
Definition quantize (d : t) (e : Z) (m : rounding) : result t :=
  if coef d =? 0 then Ok (mk 0 e)
  else if adjusted d - e + 1 >? prec then Raise DecimalInvalidOperation
  else
    let ans := rescale d e m in
    if ndigits (Z.abs (coef ans)) >? prec then Raise DecimalInvalidOperation
    else Ok ans.

(** [__add__], [__sub__], [__mul__]: the exact result, then [_fix]. *)
Definition align (d : t) (e : Z) : Z := coef d * 10 ^ (expo d - e).

Definition add (a b : t) : t :=
  let e := Z.min (expo a) (expo b) in
  fix_ (mk (align a e + align b e) e).

Definition neg (a : t) : t := mk (- coef a) (expo a).

Definition sub (a b : t) : t := add a (neg b).

Definition mul (a b : t) : t := fix_ (mk (coef a * coef b) (expo a + expo b)).

(** [__truediv__]: [prec + 1] digits of the quotient and a sticky digit,
    then [_fix]. *)
Definition div (a b : t) : result t :=
  if coef b =? 0 then
    if coef a =? 0 then Raise DecimalInvalidOperation
    else Raise DecimalDivisionByZero
  else if coef a =? 0 then Ok (mk 0 (expo a - expo b))
  else
    let shift := ndigits (Z.abs (coef b)) - ndigits (Z.abs (coef a)) + prec + 1 in
    let e := expo a - expo b - shift in
    let num := if 0 <=? shift then Z.abs (coef a) * 10 ^ shift else Z.abs (coef a) in
    let den := if 0 <=? shift then Z.abs (coef b) else Z.abs (coef b) * 10 ^ (- shift) in
    let q := num / den in
    let r := num mod den in
    let q' := if (negb (r =? 0)) && (q mod 5 =? 0) then q + 1 else q in
    Ok (fix_ (mk (Z.sgn (coef a) * Z.sgn (coef b) * q') e)).

(** [__pow__] with a natural exponent, as CPython's decimal computes it:
    left-to-right binary exponentiation in a working context of
    [prec + len(str(n)) + 2] digits, and [_fix] at the end. *)
Definition mul_to (p : Z) (a b : t) : t :=
  round_to p (mk (coef a * coef b) (expo a + expo b)).

Fixpoint pow_pos (p : Z) (a : t) (n : positive) : t :=
  match n with
  | xH => a
  | xO m => let r := pow_pos p a m in mul_to p r r
  | xI m => let r := pow_pos p a m in mul_to p (mul_to p r r) a
  end.

Definition pow (a : t) (n : Z) : t :=
  match n with
  | Zpos m => fix_ (pow_pos (prec + ndigits n + 2) a m)
  | _ => of_Z 1
  end.

(** [int(d)]: truncation towards zero. *)
Definition to_int (d : t) : Z :=
  if 0 <=? expo d then coef d * 10 ^ expo d
  else Z.quot (coef d) (10 ^ (- expo d)).

(** Comparison is by value. *)
Definition compare (a b : t) : comparison :=
  let e := Z.min (expo a) (expo b) in
  Z.compare (align a e) (align b e).

Definition eqb (a b : t) : bool :=
  match compare a b with Eq => true | _ => false end.
Definition ltb (a b : t) : bool :=
  match compare a b with Lt => true | _ => false end.
Definition leb (a b : t) : bool :=
  match compare a b with Gt => false | _ => true end.

Definition max (a b : t) : t := if ltb a b then b else a.

Definition zero : t := mk 0 0.

(** [float(d)] and [Decimal(str(x))]: the exact value as a rational. *)
Definition to_Q (d : t) : Q :=
  if 0 <=? expo d then inject_Z (coef d * 10 ^ expo d)
  else Qmake (coef d) (Z.to_pos (10 ^ (- expo d))).

End Dec.

(** ** Python floats, as exact rationals *)

Module Float.

Definition zero : Q := 0%Q.

Definition add (a b : Q) : Q := Qred (a + b).
Definition sub (a b : Q) : Q := Qred (a - b).
Definition mul (a b : Q) : Q := Qred (a * b).

(** [a / b]: a zero divisor raises. *)
Definition div (a b : Q) : result Q :=
  if Qeq_bool b 0 then Raise ZeroDivisionError else Ok (Qred (a / b)).

(** [a ** n] for an [int] exponent [n >= 0]. *)
Definition pow (a : Q) (n : Z) : Q := Qred (Qpower a n).

Definition eqb (a b : Q) : bool := Qeq_bool a b.
Definition leb (a b : Q) : bool := Qle_bool a b.
Definition ltb (a b : Q) : bool := negb (Qle_bool b a).

Definition of_Z (n : Z) : Q := inject_Z n.

(** [int(x)]: truncation towards zero. *)
Definition to_int (x : Q) : Z := Z.quot (Qnum x) (Zpos (Qden x)).

(** [round(x, n)]: to [n] decimals, ties to the even neighbour. *)
Definition round (x : Q) (n : Z) : Q :=
  if 0 <=? n then
    Qred (Qmake (Dec.round_half_even (Qnum x * 10 ^ n) (Zpos (Qden x)))
                (Z.to_pos (10 ^ n)))
  else
    inject_Z (Dec.round_half_even (Qnum x) (Zpos (Qden x) * 10 ^ (- n))
              * 10 ^ (- n)).

End Float.

(** ** loan_calculator.py *)

Module Loan.

(** One entry of [amortization_schedule].  The dictionary stores
    [float(d)] of a decimal [d]; the entry keeps [d] itself. *)
Record row : Type := mk_row {
  r_month : Z;
  r_emi : Dec.t;
  r_principal : Dec.t;
  r_interest : Dec.t;
  r_balance : Dec.t;
  r_prepayment : Dec.t
}.

Record year_row : Type := mk_year_row {
  y_year : Z;
  y_principal_paid : Q;
  y_interest_paid : Q;
  y_total_paid : Q;
  y_ending_balance : Q
}.

Record break_even : Type := mk_break_even {
  break_even_month : Z;
  break_even_year : Q
}.

Record affordability : Type := mk_affordability {
  recommended_monthly_income : Q;
  recommended_annual_income : Q
}.

Record breakdown : Type := mk_breakdown {
  b_principal : Dec.t;
  b_interest : Dec.t;
  b_principal_percentage : Q;
  b_interest_percentage : Q
}.

Record loan_detail : Type := mk_detail {
  loan_type : string;
  emi : Dec.t;
  monthly_payment : Dec.t;
  total_interest : Dec.t;
  total_payment : Dec.t;
  principal : Dec.t;
  interest_rate : Dec.t;
  duration_years : Dec.t;
  duration_months : Z;
  actual_months_to_payoff : Z;
  interest_to_principal_ratio : Dec.t;
  amortization_schedule : list row;
  yearly_summary : list year_row;
  break_even_analysis : option break_even;
  affordability_metrics : option affordability;
  first_month_breakdown : option breakdown;
  last_month_breakdown : option breakdown
}.

(** [x.quantize(Decimal('0.01'), rounding=ROUND_HALF_UP)] *)
Definition q2 (x : Dec.t) : result Dec.t := Dec.quantize x (-2) Dec.ROUND_HALF_UP.

(** [calculate_yearly_summary] *)
Record year_acc : Type := mk_year_acc {
  a_year : Z;
  a_principal : Q;
  a_interest : Q;
  a_total_paid : Q
}.

Fixpoint yearly_summary_loop (len : Z) (i : Z) (schedule : list row)
    (current_year : year_acc) (yearly : list year_row) : list year_row :=
  match schedule with
  | [] => yearly
  | month_data :: rest =>
      let cy := mk_year_acc (a_year current_year)
                  (Float.add (a_principal current_year) (Dec.to_Q (r_principal month_data)))
                  (Float.add (a_interest current_year) (Dec.to_Q (r_interest month_data)))
                  (Float.add (a_total_paid current_year) (Dec.to_Q (r_emi month_data))) in
      if (i mod 12 =? 0) || (i =? len) then
        yearly_summary_loop len (i + 1) rest
          (mk_year_acc (a_year cy + 1) 0%Q 0%Q 0%Q)
          (yearly ++ [mk_year_row (a_year cy)
                        (Float.round (a_principal cy) 2)
                        (Float.round (a_interest cy) 2)
                        (Float.round (a_total_paid cy) 2)
                        (Dec.to_Q (r_balance month_data))])
      else yearly_summary_loop len (i + 1) rest cy yearly
  end.

Definition calculate_yearly_summary (schedule : list row) : list year_row :=
  yearly_summary_loop (Z.of_nat (List.length schedule)) 1 schedule
    (mk_year_acc 1 0%Q 0%Q 0%Q) [].

(** [calculate_break_even] *)
Fixpoint break_even_loop (n : nat) (month : Z) (monthly_rate emi balance
    cumulative_principal cumulative_interest : Q) : option Z :=
  match n with
  | O => None
  | S n' =>
      let interest := Float.mul balance monthly_rate in
      let principal_payment := Float.sub emi interest in
      let balance := Float.sub balance principal_payment in
      let cumulative_principal := Float.add cumulative_principal principal_payment in
      let cumulative_interest := Float.add cumulative_interest interest in
      if Float.ltb cumulative_interest cumulative_principal then Some month
      else break_even_loop n' (month + 1) monthly_rate emi balance
             cumulative_principal cumulative_interest
  end.

Definition calculate_break_even (principal annual_rate : Q) (months : Z)
    : result break_even :=
  monthly_rate <- Float.div annual_rate (Float.of_Z (12 * 100)) ;;
  emi <- (if Float.eqb monthly_rate 0 then Float.div principal (Float.of_Z months)
          else
            let g := Float.pow (Float.add 1 monthly_rate) months in
            Float.div (Float.mul (Float.mul principal monthly_rate) g)
                      (Float.sub g 1)) ;;
  let break_even_month :=
    break_even_loop (Z.to_nat months) 1 monthly_rate emi principal 0%Q 0%Q in
  let m := match break_even_month with
           | Some m => if m =? 0 then months else m
           | None => months
           end in
  y <- Float.div (Float.of_Z m) 12 ;;
  Ok (mk_break_even m (Float.round y 1)).

(** [calculate_affordability_metrics] *)
Definition calculate_affordability_metrics (emi principal : Q)
    : result affordability :=
  recommended_monthly_income <- Float.div emi (4 # 10) ;;
  let recommended_annual_income := Float.mul recommended_monthly_income 12 in
  Ok (mk_affordability (Float.round recommended_monthly_income 2)
                       (Float.round recommended_annual_income 2)).

(** The prepayment that applies in [month], if any:
    [prepayment and prepayment_month and month == prepayment_month]. *)
Definition prepayment_in (prepayment : option Dec.t) (prepayment_month : option Z)
    (month : Z) : option Dec.t :=
  match prepayment, prepayment_month with
  | Some p, Some m =>
      if negb (Dec.eqb p Dec.zero) && negb (m =? 0) && (month =? m)
      then Some p else None
  | _, _ => None
  end.

(** The variables of the schedule loop. *)
Record loop_state : Type := mk_state {
  schedule : list row;
  balance : Dec.t;
  total_interest_paid : Dec.t;
  total_principal_paid : Dec.t
}.

Section ReducingBalance.

Variables (emi_ monthly_rate : Dec.t).
Variables (prepayment : option Dec.t) (prepayment_month : option Z).

(** One pass through the body of [for month in range(1, months + 1)]. *)
Definition loop_body (month : Z) (st : loop_state) : result loop_state :=
  let interest_payment := Dec.mul (balance st) monthly_rate in
  let principal_payment := Dec.sub emi_ interest_payment in
  match prepayment_in prepayment prepayment_month month with
  | Some prepayment_amount =>
      let principal_payment := Dec.add principal_payment prepayment_amount in
      let balance' := Dec.sub (balance st) principal_payment in
      p <- q2 principal_payment ;;
      i <- q2 interest_payment ;;
      b <- q2 (Dec.max balance' Dec.zero) ;;
      Ok (mk_state
            (schedule st ++
               [mk_row month (Dec.add emi_ prepayment_amount) p i b prepayment_amount])
            balance'
            (Dec.add (total_interest_paid st) interest_payment)
            (Dec.add (total_principal_paid st) principal_payment))
  | None =>
      let balance' := Dec.sub (balance st) principal_payment in
      p <- q2 principal_payment ;;
      i <- q2 interest_payment ;;
      b <- q2 (Dec.max balance' Dec.zero) ;;
      Ok (mk_state
            (schedule st ++ [mk_row month emi_ p i b Dec.zero])
            balance'
            (Dec.add (total_interest_paid st) interest_payment)
            (Dec.add (total_principal_paid st) principal_payment))
  end.

(** [n] more months to go; the loop breaks once the balance is paid. *)
Fixpoint loop (n : nat) (month : Z) (st : loop_state) : result loop_state :=
  match n with
  | O => Ok st
  | S n' =>
      st' <- loop_body month st ;;
      if Dec.leb (balance st') Dec.zero then Ok st'
      else loop n' (month + 1) st'
  end.

End ReducingBalance.

Definition index_error : exn := OtherException "IndexError".

(** [first_month_breakdown] and [last_month_breakdown] *)
Definition month_breakdown (entry : option row) (emi : Dec.t) : result breakdown :=
  match entry with
  | None => Raise index_error
  | Some r =>
      pp <- Float.div (Dec.to_Q (r_principal r)) (Dec.to_Q emi) ;;
      ip <- Float.div (Dec.to_Q (r_interest r)) (Dec.to_Q emi) ;;
      Ok (mk_breakdown (r_principal r) (r_interest r)
            (Float.round (Float.mul pp 100) 2)
            (Float.round (Float.mul ip 100) 2))
  end.

(** [(total / principal * 100).quantize(Decimal('0.01'))] *)
Definition ratio_percent (total principal : Dec.t) : result Dec.t :=
  q <- Dec.div total principal ;;
  Dec.quantize (Dec.mul q (Dec.of_Z 100)) (-2) Dec.ROUND_HALF_EVEN.

(** The EMI of the reducing-balance method, before rounding. *)
Definition raw_emi (principal monthly_rate : Dec.t) (months : Z) : result Dec.t :=
  if Dec.eqb monthly_rate Dec.zero then Dec.div principal (Dec.of_Z months)
  else
    Dec.div
      (Dec.mul (Dec.mul principal monthly_rate)
               (Dec.pow (Dec.add (Dec.of_Z 1) monthly_rate) months))
      (Dec.sub (Dec.pow (Dec.add (Dec.of_Z 1) monthly_rate) months) (Dec.of_Z 1)).

Definition calculate_reducing_balance_loan (principal annual_rate years : Dec.t)
    (prepayment : option Dec.t) (prepayment_month : option Z) : result loan_detail :=
  monthly_rate <- Dec.div annual_rate (Dec.mul (Dec.of_Z 12) (Dec.of_Z 100)) ;;
  let months := Dec.to_int (Dec.mul years (Dec.of_Z 12)) in
  emi <- raw_emi principal monthly_rate months ;;
  emi <- q2 emi ;;
  st <- loop emi monthly_rate prepayment prepayment_month (Z.to_nat months) 1
          (mk_state [] principal Dec.zero Dec.zero) ;;
  let schedule := schedule st in
  let total_payment := Dec.mul emi (Dec.of_Z (Z.of_nat (List.length schedule))) in
  let yearly_summary := calculate_yearly_summary schedule in
  break_even <- calculate_break_even (Dec.to_Q principal) (Dec.to_Q annual_rate) months ;;
  affordability <- calculate_affordability_metrics (Dec.to_Q emi) (Dec.to_Q principal) ;;
  total_interest <- q2 (total_interest_paid st) ;;
  total_payment <- q2 total_payment ;;
  ratio <- ratio_percent (total_interest_paid st) principal ;;
  first <- month_breakdown (hd_error schedule) emi ;;
  last <- month_breakdown (hd_error (rev schedule)) emi ;;
  Ok (mk_detail "Reducing Balance" emi emi total_interest total_payment
        principal annual_rate years months (Z.of_nat (List.length schedule))
        ratio schedule yearly_summary (Some break_even) (Some affordability)
        (Some first) (Some last)).

(** The schedule of [calculate_flat_rate_loan]: months [month .. months]. *)
Fixpoint flat_schedule (n : nat) (month : Z)
    (principal principal_per_month interest_per_month emi : Dec.t)
    : result (list row) :=
  match n with
  | O => Ok []
  | S n' =>
      let balance := Dec.sub principal (Dec.mul principal_per_month (Dec.of_Z month)) in
      p <- q2 principal_per_month ;;
      i <- q2 interest_per_month ;;
      b <- q2 (Dec.max balance Dec.zero) ;;
      rest <- flat_schedule n' (month + 1) principal principal_per_month
                interest_per_month emi ;;
      Ok (mk_row month emi p i b Dec.zero :: rest)
  end.

Definition calculate_flat_rate_loan (principal annual_rate years : Dec.t)
    : result loan_detail :=
  let months := Dec.to_int (Dec.mul years (Dec.of_Z 12)) in
  pct <- Dec.div annual_rate (Dec.of_Z 100) ;;
  let total_interest := Dec.mul (Dec.mul principal pct) years in
  let total_payment := Dec.add principal total_interest in
  emi <- Dec.div total_payment (Dec.of_Z months) ;;
  emi <- q2 emi ;;
  total_interest <- q2 total_interest ;;
  total_payment <- q2 total_payment ;;
  principal_per_month <- Dec.div principal (Dec.of_Z months) ;;
  interest_per_month <- Dec.div total_interest (Dec.of_Z months) ;;
  schedule <- flat_schedule (Z.to_nat months) 1 principal principal_per_month
                interest_per_month emi ;;
  let yearly_summary := calculate_yearly_summary schedule in
  ratio <- ratio_percent total_interest principal ;;
  Ok (mk_detail "Flat Rate" emi emi total_interest total_payment
        principal annual_rate years months months
        ratio schedule yearly_summary None None None None).

(** What [calculate_loan] returns: the four fields of the simple format, or
    the whole dictionary. *)
Inductive loan_result : Type :=
| Simple (emi total_interest total_payment principal : Dec.t)
| Detailed (d : loan_detail).

(** [amount], [rate] and [duration] are the decimals [Decimal(str(x))] of the
    float arguments; the comparisons of the validation give the same
    answers on them. *)
Definition calculate_loan (amount rate duration : Dec.t) (loan_type : string)
    (prepayment : option Dec.t) (prepayment_month : option Z) (detailed : bool)
    : result loan_result :=
  if Dec.leb amount Dec.zero then
    Raise (LoanCalculationError "Loan amount must be greater than zero.")
  else if Dec.ltb rate Dec.zero then
    Raise (LoanCalculationError "Interest rate cannot be negative.")
  else if Dec.leb duration Dec.zero then
    Raise (LoanCalculationError "Loan duration must be greater than zero.")
  else if Dec.ltb (Dec.of_Z 100000000) amount then
    Raise (LoanCalculationError "Loan amount exceeds maximum limit.")
  else if Dec.ltb (Dec.of_Z 50) rate then
    Raise (LoanCalculationError "Interest rate seems unusually high. Please verify.")
  else if Dec.ltb (Dec.of_Z 40) duration then
    Raise (LoanCalculationError "Loan duration exceeds maximum limit of 40 years.")
  else
    (* principal, annual_rate, years = Decimal(str(amount)), ... *)
    res <- (if String.eqb (lower loan_type) "flat"
            then calculate_flat_rate_loan amount rate duration
            else calculate_reducing_balance_loan amount rate duration
                   prepayment prepayment_month) ;;
    if negb detailed then
      Ok (Simple (emi res) (total_interest res) (total_payment res)
                 (principal res))
    else Ok (Detailed res).

(** The ledger of a result, when it carries one. *)
Definition ledger (r : loan_result) : list row :=
  match r with
  | Simple _ _ _ _ => []
  | Detailed d => amortization_schedule d
  end.

End Loan.

(** ** attendance_calculator.py *)

Module Attendance.

Record status : Type := mk_status {
  category : string;
  description : string;
  color : string
}.

(** [get_attendance_status] *)
Definition get_attendance_status (percentage target : Q) : status :=
  if Float.leb (Float.add target 10) percentage then
    mk_status "Excellent" "Well above target, great attendance!" "#2ecc71"
  else if Float.leb target percentage then
    mk_status "Good" "Meeting attendance requirements" "#27ae60"
  else if Float.leb (Float.sub target 5) percentage then
    mk_status "Warning" "Close to minimum requirement" "#f39c12"
  else if Float.leb (Float.sub target 10) percentage then
    mk_status "Critical" "Below requirement, immediate action needed" "#e67e22"
  else
    mk_status "Danger" "Significantly below requirement" "#e74c3c".

(** The simple format. *)
Record simple : Type := mk_simple {
  percentage : Q;
  attended_ : Z;
  total_ : Z;
  target_ : Q;
  classes_needed : Z;
  can_miss : Z;
  status_ : string
}.

(** [current_status] and [target_analysis] of the detailed format; the
    prediction tables, scenarios and advice texts built from the same
    numbers are left out. *)
Record detailed : Type := mk_detailed {
  d_percentage : Q;
  d_attended : Z;
  d_missed : Z;
  d_total : Z;
  d_attendance_rate : Q;
  d_status : status;
  d_target_percentage : Q;
  d_difference_from_target : Q;
  d_classes_needed_to_reach_target : Z;
  d_classes_can_miss_safely : Z;
  d_is_on_track : bool
}.

Inductive attendance_result : Type :=
| Simple (s : simple)
| Detailed (d : detailed).

Definition calculate_attendance (attended total : Z) (target : Q)
    (total_classes_in_semester : option Z) (detailed : bool)
    : result attendance_result :=
  if attended <? 0 then
    Raise (AttendanceCalculationError "Attended classes cannot be negative.")
  else if total <=? 0 then
    Raise (AttendanceCalculationError "Total classes must be greater than zero.")
  else if total <? attended then
    Raise (AttendanceCalculationError "Attended classes cannot exceed total classes.")
  else if Float.ltb target 0 || Float.ltb 100 target then
    Raise (AttendanceCalculationError "Target percentage must be between 0 and 100.")
  else if match total_classes_in_semester with
          | Some n => negb (n =? 0) && (n <? total)
          | None => false
          end then
    Raise (AttendanceCalculationError
             "Total semester classes cannot be less than current total.")
  else
    ratio <- Float.div (Float.of_Z attended) (Float.of_Z total) ;;
    let current_percentage := Float.mul ratio 100 in
    classes_needed <-
      (if Float.ltb current_percentage target then
         x <- Float.div
                (Float.sub (Float.mul target (Float.of_Z total))
                           (Float.of_Z (100 * attended)))
                (Float.sub 100 target) ;;
         Ok (Z.max 0 (Float.to_int x + 1))
       else Ok 0) ;;
    can_miss <-
      (if Float.ltb target current_percentage then
         x <- Float.div
                (Float.sub (Float.of_Z (100 * attended))
                           (Float.mul target (Float.of_Z total)))
                target ;;
         Ok (Float.to_int x)
       else Ok 0) ;;
    let status := get_attendance_status current_percentage target in
    if negb detailed then
      Ok (Simple (mk_simple (Float.round current_percentage 2) attended total
                    target classes_needed (Z.max 0 can_miss) (category status)))
    else
      let missed := total - attended in
      attendance_rate <- (if 0 <? total
                          then Float.div (Float.of_Z attended) (Float.of_Z total)
                          else Ok 0%Q) ;;
      Ok (Detailed (mk_detailed (Float.round current_percentage 2) attended missed
                      total (Float.round attendance_rate 4) status target
                      (Float.round (Float.sub current_percentage target) 2)
                      classes_needed (Z.max 0 can_miss)
                      (Float.leb target current_percentage))).

(** [ceil(x)] *)
Definition ceil (x : Q) : Z := Qceiling x.

End Attendance.

(** ** bmi_calculator.py *)

Module BMI.

Record category_info : Type := mk_info {
  category : string;
  description : string;
  health_risk : string;
  color : string
}.

(** [age and age < 20] *)
Definition is_minor (age : option Z) : bool :=
  match age with
  | Some a => negb (a =? 0) && (a <? 20)
  | None => false
  end.

(** [get_bmi_category] *)
Definition get_bmi_category (bmi : Q) (age : option Z) : category_info :=
  if is_minor age then
    mk_info "See pediatric BMI chart"
            "BMI interpretation differs for individuals under 20"
            "Consult pediatrician" "#95a5a6"
  else if Float.ltb bmi 16 then
    mk_info "Severe Underweight" "Significantly below healthy weight"
            "High risk - malnutrition, weakened immunity" "#3498db"
  else if Float.leb 16 bmi && Float.ltb bmi 17 then
    mk_info "Moderate Underweight" "Below healthy weight"
            "Moderate risk - nutritional deficiency" "#5dade2"
  else if Float.leb 17 bmi && Float.ltb bmi 18.5 then
    mk_info "Mild Underweight" "Slightly below healthy weight"
            "Low to moderate risk" "#85c1e9"
  else if Float.leb 18.5 bmi && Float.ltb bmi 25 then
    mk_info "Normal Weight" "Healthy weight range"
            "Low risk - optimal health range" "#2ecc71"
  else if Float.leb 25 bmi && Float.ltb bmi 30 then
    mk_info "Overweight" "Above healthy weight"
            "Moderate risk - increased disease risk" "#f39c12"
  else if Float.leb 30 bmi && Float.ltb bmi 35 then
    mk_info "Obese Class I" "Moderately obese"
            "High risk - cardiovascular, diabetes" "#e67e22"
  else if Float.leb 35 bmi && Float.ltb bmi 40 then
    mk_info "Obese Class II" "Severely obese"
            "Very high risk - serious health complications" "#d35400"
  else
    mk_info "Obese Class III" "Morbidly obese"
            "Extremely high risk - life-threatening conditions" "#e74c3c".

(** The simple format, and the classification fields of the detailed one
    (the weight goals, body metrics, calorie estimates and advice texts of
    the detailed format are computed from [height_cm], [weight_kg] and [bmi]
    by total arithmetic and are left out). *)
Inductive bmi_result : Type :=
| Simple (bmi : Q) (category color : string)
| Detailed (bmi bmi_prime : Q)
           (category category_description health_risk color : string).

Definition in_list (s : string) (l : list string) : bool :=
  existsb (String.eqb s) l.

Definition calculate_bmi (height weight : Q) (age : option Z)
    (gender : option string) (unit_system : string)
    (waist_circumference hip_circumference : option Q) (detailed : bool)
    : result bmi_result :=
  if Float.leb height 0 then
    Raise (BMICalculationError "Height must be greater than zero.")
  else if Float.leb weight 0 then
    Raise (BMICalculationError "Weight must be greater than zero.")
  else if negb (in_list (lower unit_system) ["metric"%string; "imperial"%string]) then
    Raise (BMICalculationError "Unit system must be 'metric' or 'imperial'.")
  else if match age with
          | Some a => (a <=? 0) || (120 <? a)
          | None => false
          end then
    Raise (BMICalculationError "Age must be between 1 and 120 years.")
  else if match gender with
          | Some g => negb (in_list (lower g) ["male"%string; "female"%string])
          | None => false
          end then
    Raise (BMICalculationError "Gender must be 'male' or 'female'.")
  else
    let original_unit := lower unit_system in
    let height_cm := if String.eqb original_unit "imperial"
                     then Float.mul height 2.54 else height in
    let weight_kg := if String.eqb original_unit "imperial"
                     then Float.mul weight 0.453592 else weight in
    if Float.ltb height_cm 50 || Float.ltb 300 height_cm then
      Raise (BMICalculationError "Height must be between 50-300 cm (20-118 inches).")
    else if Float.ltb weight_kg 20 || Float.ltb 500 weight_kg then
      Raise (BMICalculationError "Weight must be between 20-500 kg (44-1100 lbs).")
    else
      height_m <- Float.div height_cm 100 ;;
      bmi <- Float.div weight_kg (Float.pow height_m 2) ;;
      let bmi := Float.round bmi 2 in
      let category_info := get_bmi_category bmi age in
      bmi_prime <- Float.div bmi 25 ;;
      let bmi_prime := Float.round bmi_prime 2 in
      if negb detailed then
        Ok (Simple bmi (category category_info) (color category_info))
      else
        Ok (Detailed bmi bmi_prime (category category_info)
              (description category_info) (health_risk category_info)
              (color category_info)).

End BMI.

(** ** gpa_calculator.py *)

Module GPA.

(** The value under ['credits']: something [float()] converts, or a text it
    rejects with a [ValueError]. *)
Inductive credits_value : Type :=
| CNum (x : Q)
| CBad (text : string).

(** A course dictionary; [None] is a missing key. *)
Record course : Type := mk_course {
  name : option string;
  grade : option string;
  credits : option credits_value
}.

Record course_detail : Type := mk_course_detail {
  cd_course_name : string;
  cd_grade : string;
  cd_credits : Q;
  cd_grade_points : Q;
  cd_quality_points : Q
}.

(** [get_grade_points] *)
Definition get_grade_points (scale : string) : list (string * Q) :=
  if String.eqb scale "5.0" then
    [("A+", 5.0); ("A", 5.0); ("A-", 4.7);
     ("B+", 4.3); ("B", 4.0); ("B-", 3.7);
     ("C+", 3.3); ("C", 3.0); ("C-", 2.7);
     ("D+", 2.3); ("D", 2.0); ("D-", 1.7);
     ("F", 0.0)]%string%Q
  else (* Default 4.0 scale *)
    [("A+", 4.0); ("A", 4.0); ("A-", 3.7);
     ("B+", 3.3); ("B", 3.0); ("B-", 2.7);
     ("C+", 2.3); ("C", 2.0); ("C-", 1.7);
     ("D+", 1.3); ("D", 1.0); ("D-", 0.7);
     ("F", 0.0)]%string%Q.

Fixpoint lookup (k : string) (m : list (string * Q)) : option Q :=
  match m with
  | [] => None
  | (k', v) :: rest => if String.eqb k k' then Some v else lookup k rest
  end.

(** [get_letter_grade] *)
Definition get_letter_grade (gpa : Q) (scale : string) : string :=
  if String.eqb scale "5.0" then
    if Float.leb 4.7 gpa then "A"
    else if Float.leb 4.3 gpa then "A-"
    else if Float.leb 4.0 gpa then "B+"
    else if Float.leb 3.7 gpa then "B"
    else if Float.leb 3.3 gpa then "B-"
    else if Float.leb 3.0 gpa then "C+"
    else if Float.leb 2.7 gpa then "C"
    else if Float.leb 2.0 gpa then "D"
    else "F"
  else
    if Float.leb 3.7 gpa then "A"
    else if Float.leb 3.3 gpa then "A-"
    else if Float.leb 3.0 gpa then "B+"
    else if Float.leb 2.7 gpa then "B"
    else if Float.leb 2.3 gpa then "B-"
    else if Float.leb 2.0 gpa then "C+"
    else if Float.leb 1.7 gpa then "C"
    else if Float.leb 1.0 gpa then "D"
    else "F".

(** The accumulators of [for course in courses]. *)
Record acc : Type := mk_acc {
  total_points : Q;
  total_credits : Q;
  course_details : list course_detail
}.

Fixpoint courses_loop (grade_points : list (string * Q)) (courses : list course)
    (a : acc) : result acc :=
  match courses with
  | [] => Ok a
  | course :: rest =>
      match grade course, credits course with
      | Some g, Some c =>
          let grade := strip (upper g) in
          credits <- match c with
                     | CNum x => Ok x
                     | CBad text =>
                         Raise (GPACalculationError
                                  ("Invalid credits value: " ++ text))
                     end ;;
          if Float.leb credits 0 then
            Raise (GPACalculationError "Credits must be greater than zero.")
          else
            match lookup grade grade_points with
            | None =>
                Raise (GPACalculationError
                         ("Invalid grade: " ++ grade
                            ++ ". Use grades like A+, A, A-, B+, B, etc."))
            | Some gp =>
                let points := Float.mul gp credits in
                courses_loop grade_points rest
                  (mk_acc (Float.add (total_points a) points)
                          (Float.add (total_credits a) credits)
                          (course_details a ++
                             [mk_course_detail
                                (match name course with
                                 | Some n => n
                                 | None => "Unnamed Course"
                                 end)
                                grade credits gp (Float.round points 2)]))
            end
      | _, _ =>
          Raise (GPACalculationError
                   "Each course must have 'grade' and 'credits' fields.")
      end
  end.

Record cumulative : Type := mk_cumulative {
  c_gpa : Q;
  c_letter_grade : string;
  c_total_credits : Q
}.

(** The simple format, and of the detailed one the semester and cumulative
    figures with the course table (the distribution, prediction and what-if
    tables and the advice texts are left out). *)
Inductive gpa_result : Type :=
| Simple (gpa total_credits : Q) (grade : string)
| Detailed (gpa : Q) (letter_grade : string) (credits_earned quality_points : Q)
           (scale : string) (details : list course_detail)
           (cumulative_gpa : option cumulative).

Section Scale.

(** [float(s)] of a string: [None] when it raises [ValueError]. *)
Variable float_of_string : string -> option Q.

Definition calculate_gpa (courses : list course) (scale : string)
    (previous_gpa previous_credits : option Q) (detailed : bool)
    : result gpa_result :=
  match courses with
  | [] => Raise (GPACalculationError "Course list cannot be empty.")
  | _ =>
      let grade_points := get_grade_points scale in
      a <- courses_loop grade_points courses (mk_acc 0%Q 0%Q []) ;;
      semester_gpa <- (if Float.ltb 0 (total_credits a)
                       then Float.div (total_points a) (total_credits a)
                       else Ok 0%Q) ;;
      cumulative_gpa <-
        match previous_gpa, previous_credits with
        | Some pg, Some pc =>
            if Float.ltb pc 0 then
              Raise (GPACalculationError "Previous credits cannot be negative.")
            else
              top <- match float_of_string scale with
                     | Some x => Ok x
                     | None => Raise (ValueError "could not convert string to float")
                     end ;;
              if Float.ltb pg 0 || Float.ltb top pg then
                Raise (GPACalculationError
                         ("Previous GPA must be between 0 and " ++ scale ++ "."))
              else
                let previous_points := Float.mul pg pc in
                let cumulative_points := Float.add previous_points (total_points a) in
                let cumulative_credits := Float.add pc (total_credits a) in
                g <- (if Float.ltb 0 cumulative_credits
                      then Float.div cumulative_points cumulative_credits
                      else Ok 0%Q) ;;
                Ok (Some (g, cumulative_credits))
        | _, _ => Ok None
        end ;;
      if negb detailed then
        Ok (Simple (Float.round semester_gpa 2) (total_credits a)
                   (get_letter_grade semester_gpa scale))
      else
        Ok (Detailed (Float.round semester_gpa 2)
              (get_letter_grade semester_gpa scale) (total_credits a)
              (Float.round (total_points a) 2) scale (course_details a)
              (match cumulative_gpa with
               | Some (g, cc) =>
                   Some (mk_cumulative (Float.round g 2)
                           (get_letter_grade g scale) cc)
               | None => None
               end))
  end.

End Scale.

End GPA.

(** ** compound_interest_calculator.py *)

Module Compound.

Record year_entry : Type := mk_year_entry {
  year : Z;
  starting_balance : Q;
  contributions : Q;
  interest_earned : Q;
  ending_balance : Q;
  total_contributed : Q;
  total_interest : Q
}.

Record simple : Type := mk_simple {
  s_principal : Q;
  s_rate : Q;
  s_time : Z;
  s_frequency : Z;
  s_compound_interest : Q;
  s_total_amount : Q;
  s_breakdown : list year_entry
}.

(** [investment_summary] and [breakdown] of the detailed format; the other
    tables of that format are left out. *)
Record detailed : Type := mk_detailed {
  d_initial_principal : Q;
  d_total_contributions : Q;
  d_total_invested : Q;
  d_compound_interest_earned : Q;
  d_final_amount : Q;
  d_total_return_percentage : Q;
  d_breakdown : list year_entry
}.

Inductive compound_result : Type :=
| Simple (s : simple)
| Detailed (d : detailed).

Section RealPower.

(** [x ** y] for a float exponent [y] that is not a whole number. *)
Variable fpow : Q -> Q -> Q.

(** The twelve months of one year of [generate_breakdown]. *)
Fixpoint months_loop (n : nat) (timing : string) (monthly_contribution growth : Q)
    (current_balance total_contributed : Q) : Q * Q :=
  match n with
  | O => (current_balance, total_contributed)
  | S n' =>
      let '(current_balance, total_contributed) :=
        if String.eqb (lower timing) "start"
        then (Float.add current_balance monthly_contribution,
              Float.add total_contributed monthly_contribution)
        else (current_balance, total_contributed) in
      let current_balance := Float.mul current_balance growth in
      let '(current_balance, total_contributed) :=
        if String.eqb (lower timing) "end"
        then (Float.add current_balance monthly_contribution,
              Float.add total_contributed monthly_contribution)
        else (current_balance, total_contributed) in
      months_loop n' timing monthly_contribution growth current_balance
        total_contributed
  end.

Fixpoint years_loop (n : nat) (year : Z) (rate_per_period : Q) (frequency : Z)
    (monthly_contribution : Q) (contribution_timing : string)
    (current_balance total_contributed : Q) : result (list year_entry) :=
  match n with
  | O => Ok []
  | S n' =>
      let year_start_balance := current_balance in
      let year_contributions := Float.mul monthly_contribution 12 in
      st <- (if Float.ltb 0 monthly_contribution then
               periods_in_month <- Float.div (Float.of_Z frequency) 12 ;;
               Ok (months_loop 12 contribution_timing monthly_contribution
                     (fpow (Float.add 1 rate_per_period) periods_in_month)
                     current_balance total_contributed)
             else
               Ok (Float.mul current_balance
                     (Float.pow (Float.add 1 rate_per_period) frequency),
                   total_contributed)) ;;
      let '(current_balance, total_contributed) := st in
      let year_interest :=
        Float.sub (Float.sub current_balance year_start_balance) year_contributions in
      rest <- years_loop n' (year + 1) rate_per_period frequency
                monthly_contribution contribution_timing
                current_balance total_contributed ;;
      Ok (mk_year_entry year (Float.round year_start_balance 2)
            (Float.round year_contributions 2) (Float.round year_interest 2)
            (Float.round current_balance 2) (Float.round total_contributed 2)
            (Float.round (Float.sub current_balance total_contributed) 2)
            :: rest)
  end.

(** [generate_breakdown] *)
Definition generate_breakdown (principal rate : Q) (time frequency : Z)
    (monthly_contribution : Q) (contribution_timing : string)
    : result (list year_entry) :=
  r <- Float.div rate 100 ;;
  rn <- Float.div r (Float.of_Z frequency) ;;
  years_loop (Z.to_nat time) 1 rn frequency monthly_contribution
    contribution_timing principal principal.

Definition calculate_compound_interest (principal rate : Q) (time frequency : Z)
    (monthly_contribution : Q) (contribution_timing : string)
    (inflation_rate : Q) (detailed : bool) : result compound_result :=
  if Float.ltb principal 0 then
    Raise (CompoundInterestCalculationError "Principal amount cannot be negative.")
  else if Float.ltb rate 0 then
    Raise (CompoundInterestCalculationError "Interest rate cannot be negative.")
  else if time <=? 0 then
    Raise (CompoundInterestCalculationError "Time period must be greater than zero.")
  else if negb (existsb (Z.eqb frequency) [1; 2; 4; 12; 52; 365]) then
    Raise (CompoundInterestCalculationError "Frequency must be 1, 2, 4, 12, 52, or 365.")
  else if Float.ltb monthly_contribution 0 then
    Raise (CompoundInterestCalculationError "Monthly contribution cannot be negative.")
  else if Float.ltb inflation_rate 0 || Float.ltb 100 inflation_rate then
    Raise (CompoundInterestCalculationError "Inflation rate must be between 0 and 100.")
  else
    r <- Float.div rate 100 ;;
    let n := frequency in
    let t := time in
    rn <- Float.div r (Float.of_Z n) ;;
    let fv_principal := Float.mul principal (Float.pow (Float.add 1 rn) (n * t)) in
    contrib <-
      (if Float.ltb 0 monthly_contribution then
         let periods_per_year := n in
         contribution_per_period <-
           Float.div (Float.mul monthly_contribution 12) (Float.of_Z periods_per_year) ;;
         let total_periods := n * t in
         annuity <- Float.div
                      (Float.sub (Float.pow (Float.add 1 rn) total_periods) 1) rn ;;
         let fv_contributions :=
           if String.eqb (lower contribution_timing) "start"
           then Float.mul (Float.mul contribution_per_period annuity) (Float.add 1 rn)
           else Float.mul contribution_per_period annuity in
         Ok (fv_contributions,
             Float.mul (Float.mul monthly_contribution 12) (Float.of_Z t))
       else Ok (0%Q, 0%Q)) ;;
    let '(fv_contributions, total_contributions) := contrib in
    let total_amount := Float.add fv_principal fv_contributions in
    let compound_interest :=
      Float.sub (Float.sub total_amount principal) total_contributions in
    breakdown <- generate_breakdown principal rate time frequency
                   monthly_contribution contribution_timing ;;
    if negb detailed then
      Ok (Simple (mk_simple principal rate time frequency
                    (Float.round compound_interest 2)
                    (Float.round total_amount 2)
                    (firstn (Z.to_nat time) breakdown)))
    else
      let total_invested := Float.add principal total_contributions in
      pct <- (if Float.ltb 0 total_invested then
                q <- Float.div compound_interest total_invested ;;
                Ok (Float.round (Float.mul q 100) 2)
              else Ok 0%Q) ;;
      Ok (Detailed (mk_detailed (Float.round principal 2)
                      (Float.round total_contributions 2)
                      (Float.round total_invested 2)
                      (Float.round compound_interest 2)
                      (Float.round total_amount 2) pct breakdown)).

End RealPower.

End Compound.

(** ** math_calculator.py *)

Module MathCalc.

Inductive pyfloat : Type :=
| Finite (x : Q)
| NaN
| PosInf
| NegInf.

(** What [eval] can hand back: an [int], a [float], a [complex], or an
    object of another type (shown by its [repr]). *)
Inductive pyvalue : Type :=
| VInt (n : Z)
| VFloat (x : pyfloat)
| VComplex (re im : pyfloat)
| VOther (repr : string).

(** [math.isnan] and [math.isinf] on a float. *)
Definition isnan (x : pyfloat) : bool :=
  match x with NaN => true | _ => false end.
Definition isinf (x : pyfloat) : bool :=
  match x with PosInf | NegInf => true | _ => false end.

(** A float component that is NaN or an infinity. *)
Definition not_finite (x : pyfloat) : bool := isnan x || isinf x.

(** The number is NaN or infinite: a float that is, or a complex number with
    such a part. *)
Definition nan_or_infinite (v : pyvalue) : bool :=
  match v with
  | VFloat x => not_finite x
  | VComplex re im => not_finite re || not_finite im
  | _ => false
  end.

Record response : Type := mk_response {
  result_ : option pyvalue;
  expression_ : string;
  success : bool;
  error : option string;
  processed_expression : option string
}.

(** [create_error_response]; the fixed list of suggestions of the detailed
    format is not kept. *)
Definition create_error_response (expression error_message : string)
    (detailed : bool) : response :=
  mk_response None expression false (Some error_message) None.

(** [str(e)] *)
Definition str_exn (e : exn) : string :=
  match e with
  | LoanCalculationError m | AttendanceCalculationError m
  | BMICalculationError m | GPACalculationError m
  | CompoundInterestCalculationError m | MathCalculationError m
  | ValueError m | OtherException m => m
  | ZeroDivisionError => "division by zero"
  | OverflowError => "math range error"
  | SyntaxError => "invalid syntax"
  | DecimalDivisionByZero => "[<class 'decimal.DivisionByZero'>]"
  | DecimalInvalidOperation => "[<class 'decimal.InvalidOperation'>]"
  end.

Section Evaluator.

(** The library functions the module calls: [str.replace], [re.sub] and
    [eval] in the restricted environment of [create_safe_environment]. *)
Variable str_replace : string -> string -> string -> string.
Variable re_sub : string -> string -> string -> string.
Variable py_eval : string -> result pyvalue.

(** What the detailed format adds to a successful answer ([analysis],
    [scientific_notation], [alternative_forms]); computing it may raise. *)
Variable analysis : Type.
Variable analyze : string -> pyvalue -> Z -> result analysis.

(** [preprocess_expression] *)
Definition preprocess_expression (expression angle_mode : string) : string :=
  let expression := str_replace "^" "**" expression in
  let expression := re_sub "(\d)\(" "\1*(" expression in
  let expression := re_sub "\)(\d)" ")*\1" expression in
  let expression := re_sub "\)\(" ")*(" expression in
  let expression :=
    if String.eqb (lower angle_mode) "degrees" then
      let expression := re_sub "sin\(([^)]+)\)" "math.sin(math.radians(\1))" expression in
      let expression := re_sub "cos\(([^)]+)\)" "math.cos(math.radians(\1))" expression in
      let expression := re_sub "tan\(([^)]+)\)" "math.tan(math.radians(\1))" expression in
      let expression := re_sub "asin\(([^)]+)\)" "math.degrees(math.asin(\1))" expression in
      let expression := re_sub "acos\(([^)]+)\)" "math.degrees(math.acos(\1))" expression in
      re_sub "atan\(([^)]+)\)" "math.degrees(math.atan(\1))" expression
    else
      let expression := re_sub "sin\(([^)]+)\)" "math.sin(\1)" expression in
      let expression := re_sub "cos\(([^)]+)\)" "math.cos(\1)" expression in
      let expression := re_sub "tan\(([^)]+)\)" "math.tan(\1)" expression in
      let expression := re_sub "asin\(([^)]+)\)" "math.asin(\1)" expression in
      let expression := re_sub "acos\(([^)]+)\)" "math.acos(\1)" expression in
      re_sub "atan\(([^)]+)\)" "math.atan(\1)" expression in
  let expression := re_sub "sqrt\(([^)]+)\)" "math.sqrt(\1)" expression in
  let expression := re_sub "cbrt\(([^)]+)\)" "(\1)**(1/3)" expression in
  let expression := re_sub "log\(([^)]+)\)" "math.log10(\1)" expression in
  let expression := re_sub "ln\(([^)]+)\)" "math.log(\1)" expression in
  let expression := re_sub "exp\(([^)]+)\)" "math.exp(\1)" expression in
  let expression := re_sub "abs\(([^)]+)\)" "abs(\1)" expression in
  let expression := re_sub "ceil\(([^)]+)\)" "math.ceil(\1)" expression in
  let expression := re_sub "floor\(([^)]+)\)" "math.floor(\1)" expression in
  let expression := re_sub "round\(([^)]+)\)" "round(\1)" expression in
  let expression := re_sub "\bpi\b" "math.pi" expression in
  let expression := re_sub "\be\b" "math.e" expression in
  re_sub "(\d+)!" "math.factorial(\1)" expression.

Inductive answer : Type :=
| Answered (r : response)
| AnsweredDetailed (r : response) (a : analysis).

(** The body of the [try] block. *)
Definition try_block (expression original_expression angle_mode : string)
    (precision : Z) (detailed : bool) : result answer :=
  let processed_expression := preprocess_expression expression angle_mode in
  res <- py_eval processed_expression ;;
  res <- match res with
         | VFloat x =>
             if isnan x then
               Raise (MathCalculationError "Result is not a number (NaN).")
             else if isinf x then
               Raise (MathCalculationError "Result is infinity.")
             else
               match x with
               | Finite q => Ok (VFloat (Finite (Float.round q precision)))
               | _ => Ok res
               end
         | _ => Ok res
         end ;;
  if negb detailed then
    Ok (Answered (mk_response (Some res) processed_expression true None None))
  else
    a <- analyze original_expression res precision ;;
    Ok (AnsweredDetailed
          (mk_response (Some res) original_expression true None
             (Some processed_expression)) a).

Definition evaluate_expression (expression angle_mode : string) (precision : Z)
    (detailed : bool) : result answer :=
  if String.eqb expression EmptyString || String.eqb (strip expression) EmptyString then
    Raise (MathCalculationError "Expression cannot be empty.")
  else
    let original_expression := strip expression in
    match try_block expression original_expression angle_mode precision detailed with
    | Ok a => Ok a
    | Raise ZeroDivisionError =>
        Ok (Answered (create_error_response original_expression
                        "Division by zero is undefined." detailed))
    | Raise DecimalDivisionByZero =>
        Ok (Answered (create_error_response original_expression
                        "Division by zero is undefined." detailed))
    | Raise OverflowError =>
        Ok (Answered (create_error_response original_expression
                        "Result is too large to compute." detailed))
    | Raise (ValueError m) =>
        Ok (Answered (create_error_response original_expression
                        ("Invalid value: " ++ m) detailed))
    | Raise SyntaxError =>
        Ok (Answered (create_error_response original_expression
                        "Invalid mathematical syntax." detailed))
    | Raise e =>
        Ok (Answered (create_error_response original_expression
                        ("Calculation error: " ++ str_exn e) detailed))
    end.

(** The response of an answer. *)
Definition response_of (a : answer) : response :=
  match a with
  | Answered r => r
  | AnsweredDetailed r _ => r
  end.

End Evaluator.

End MathCalc.

(** ** Python floats, as binary64 values *)

Module F64.

(** A float is a finite value, an infinity or a NaN.  The finite values are
    the multiples [k * 2^-1074] with at most 53 significant bits, below
    [2^1024] in magnitude; the sign of a zero is not kept (Python's
    comparisons do not tell the two zeros apart). *)
Inductive t : Type :=
| Fin (q : Q)
| PInf
| NInf
| NaN.

(** [2^1074]: the number of units [2^-1074] in 1. *)
Definition units : Z := 2 ^ 1074.

(** [2^1024], in units. *)
Definition top : Z := 2 ^ 2098.

(** The binary64 value nearest to [n / d] (for [n], [d] > 0), in units: the
    quotient is rounded to 53 significant bits (to a whole number of units
    below [2^53] units), ties to even. *)
Definition nearest (n d : Z) : Z :=
  let N := n * units in
  let e := Z.log2 (N / d) in
  let p := Z.max (e - 52) 0 in
  Dec.round_half_even N (d * 2 ^ p) * 2 ^ p.

(** A number of units as a float: [2^1024] and above overflow. *)
Definition of_units (k : Z) : t :=
  if top <=? k then PInf else Fin (Qred (k # Z.to_pos units)).

Definition opp (x : t) : t :=
  match x with
  | Fin q => Fin (- q)
  | PInf => NInf
  | NInf => PInf
  | NaN => NaN
  end.

(** Round to nearest, ties to even: the float an exact result becomes. *)
Definition round64 (q : Q) : t :=
  match Qnum q with
  | Z0 => Fin 0
  | Zpos n => of_units (nearest (Zpos n) (Zpos (Qden q)))
  | Zneg n => opp (of_units (nearest (Zpos n) (Zpos (Qden q))))
  end.

(** A float literal of the source, written as the decimal it spells. *)
Definition lit (q : Q) : t := round64 q.

Definition add (a b : t) : t :=
  match a, b with
  | NaN, _ | _, NaN => NaN
  | PInf, NInf | NInf, PInf => NaN
  | PInf, _ | _, PInf => PInf
  | NInf, _ | _, NInf => NInf
  | Fin x, Fin y => round64 (x + y)
  end.

Definition sub (a b : t) : t := add a (opp b).

(** The infinity of the sign of [x], NaN for a zero. *)
Definition inf_of_sign (x : Q) (pos : bool) : t :=
  if Qeq_bool x 0 then NaN
  else if Qle_bool 0 x then (if pos then PInf else NInf)
  else (if pos then NInf else PInf).

Definition mul (a b : t) : t :=
  match a, b with
  | NaN, _ | _, NaN => NaN
  | Fin x, Fin y => round64 (x * y)
  | Fin x, PInf | PInf, Fin x => inf_of_sign x true
  | Fin x, NInf | NInf, Fin x => inf_of_sign x false
  | PInf, PInf | NInf, NInf => PInf
  | PInf, NInf | NInf, PInf => NInf
  end.

Definition is_zero (x : t) : bool :=
  match x with
  | Fin q => Qeq_bool q 0
  | _ => false
  end.

(** [a / b]: a zero divisor raises, whatever [a] is. *)
Definition div (a b : t) : result t :=
  if is_zero b then Raise ZeroDivisionError
  else Ok match a, b with
          | NaN, _ | _, NaN => NaN
          | Fin x, Fin y => round64 (x / y)
          | Fin _, _ => Fin 0
          | PInf, Fin y => inf_of_sign y true
          | NInf, Fin y => inf_of_sign y false
          | _, _ => NaN
          end.

(** [a < b], [a <= b], [a == b]: false as soon as one side is a NaN. *)
Definition ltb (a b : t) : bool :=
  match a, b with
  | NaN, _ | _, NaN => false
  | Fin x, Fin y => negb (Qle_bool y x)
  | NInf, NInf | PInf, _ | _, NInf => false
  | NInf, _ | _, PInf => true
  end.

Definition leb (a b : t) : bool :=
  match a, b with
  | NaN, _ | _, NaN => false
  | Fin x, Fin y => Qle_bool x y
  | NInf, _ | _, PInf => true
  | PInf, _ | _, NInf => false
  end.

Definition eqb (a b : t) : bool :=
  match a, b with
  | Fin x, Fin y => Qeq_bool x y
  | PInf, PInf | NInf, NInf => true
  | _, _ => false
  end.

(** [float(n)] for an [int] (also the conversion of an [int] operand):
    too large an [int] raises. *)
Definition of_Z (n : Z) : result t :=
  match round64 (inject_Z n) with
  | Fin q => Ok (Fin q)
  | _ => Raise OverflowError
  end.

(** [a / b] for two [int]s: the exact quotient, rounded once. *)
Definition int_div (a b : Z) : result t :=
  if b =? 0 then Raise ZeroDivisionError
  else match round64 (inject_Z a / inject_Z b) with
       | Fin q => Ok (Fin q)
       | _ => Raise OverflowError
       end.

(** [round(x, n)] for [n >= 0] decimals: the exact value is rounded to [n]
    decimals, ties to even, and the float nearest to that decimal is
    returned; infinities and NaN are returned as they are. *)
Definition py_round (x : t) (n : nat) : t :=
  match x with
  | Fin q =>
      let s := 10 ^ Z.of_nat n in
      round64 (Dec.round_half_even (Qnum q * s) (Zpos (Qden q)) # Z.to_pos s)
  | _ => x
  end.

(** [int(x)]: truncation towards zero. *)
Definition to_int (x : t) : result Z :=
  match x with
  | Fin q => Ok (Z.quot (Qnum q) (Zpos (Qden q)))
  | NaN => Raise (ValueError "cannot convert float NaN to integer")
  | _ => Raise OverflowError
  end.

(** [float(d)] for a [Decimal]. *)
Definition of_Dec (d : Dec.t) : t := round64 (Dec.to_Q d).

(** The truth value of a float: false for a zero only. *)
Definition truthy (x : t) : bool := negb (is_zero x).

End F64.

(** ** bmi_calculator.py, on binary64 floats *)

Module BMI64.

(** [get_bmi_category] *)
Definition get_bmi_category (bmi : F64.t) (age : option Z) : BMI.category_info :=
  if BMI.is_minor age then
    BMI.mk_info "See pediatric BMI chart"
                "BMI interpretation differs for individuals under 20"
                "Consult pediatrician" "#95a5a6"
  else if F64.ltb bmi (F64.Fin 16) then
    BMI.mk_info "Severe Underweight" "Significantly below healthy weight"
                "High risk - malnutrition, weakened immunity" "#3498db"
  else if F64.leb (F64.Fin 16) bmi && F64.ltb bmi (F64.Fin 17) then
    BMI.mk_info "Moderate Underweight" "Below healthy weight"
                "Moderate risk - nutritional deficiency" "#5dade2"
  else if F64.leb (F64.Fin 17) bmi && F64.ltb bmi (F64.lit 18.5) then
    BMI.mk_info "Mild Underweight" "Slightly below healthy weight"
                "Low to moderate risk" "#85c1e9"
  else if F64.leb (F64.lit 18.5) bmi && F64.ltb bmi (F64.Fin 25) then
    BMI.mk_info "Normal Weight" "Healthy weight range"
                "Low risk - optimal health range" "#2ecc71"
  else if F64.leb (F64.Fin 25) bmi && F64.ltb bmi (F64.Fin 30) then
    BMI.mk_info "Overweight" "Above healthy weight"
                "Moderate risk - increased disease risk" "#f39c12"
  else if F64.leb (F64.Fin 30) bmi && F64.ltb bmi (F64.Fin 35) then
    BMI.mk_info "Obese Class I" "Moderately obese"
                "High risk - cardiovascular, diabetes" "#e67e22"
  else if F64.leb (F64.Fin 35) bmi && F64.ltb bmi (F64.Fin 40) then
    BMI.mk_info "Obese Class II" "Severely obese"
                "Very high risk - serious health complications" "#d35400"
  else
    BMI.mk_info "Obese Class III" "Morbidly obese"
                "Extremely high risk - life-threatening conditions" "#e74c3c".

(** The simple format, and the classification fields of the detailed one.
    The weight goals, body metrics, calorie estimates and advice texts are
    computed before either format is returned; they are left out, being
    arithmetic on [height_cm], [weight_kg] and [bmi] that raises nothing
    once the validation has passed and [height_m ** 2] has a value. *)
Inductive bmi_result : Type :=
| Simple (bmi : F64.t) (category color : string)
| Detailed (bmi bmi_prime : F64.t)
           (category category_description health_risk color : string).

(** [calculate_bmi].  [fpow] is the power [x ** n] of the C library, which
    the language leaves to the platform. *)
Definition calculate_bmi (fpow : F64.t -> Z -> result F64.t)
    (height weight : F64.t) (age : option Z)
    (gender : option string) (unit_system : string)
    (waist_circumference hip_circumference : option F64.t) (detailed : bool)
    : result bmi_result :=
  if F64.leb height (F64.Fin 0) then
    Raise (BMICalculationError "Height must be greater than zero.")
  else if F64.leb weight (F64.Fin 0) then
    Raise (BMICalculationError "Weight must be greater than zero.")
  else if negb (BMI.in_list (lower unit_system) ["metric"%string; "imperial"%string]) then
    Raise (BMICalculationError "Unit system must be 'metric' or 'imperial'.")
  else if match age with
          | Some a => (a <=? 0) || (120 <? a)
          | None => false
          end then
    Raise (BMICalculationError "Age must be between 1 and 120 years.")
  else if match gender with
          | Some g => negb (BMI.in_list (lower g) ["male"%string; "female"%string])
          | None => false
          end then
    Raise (BMICalculationError "Gender must be 'male' or 'female'.")
  else
    let original_unit := lower unit_system in
    let height_cm := if String.eqb original_unit "imperial"
                     then F64.mul height (F64.lit 2.54) else height in
    let weight_kg := if String.eqb original_unit "imperial"
                     then F64.mul weight (F64.lit 0.453592) else weight in
    if F64.ltb height_cm (F64.Fin 50) || F64.ltb (F64.Fin 300) height_cm then
      Raise (BMICalculationError "Height must be between 50-300 cm (20-118 inches).")
    else if F64.ltb weight_kg (F64.Fin 20) || F64.ltb (F64.Fin 500) weight_kg then
      Raise (BMICalculationError "Weight must be between 20-500 kg (44-1100 lbs).")
    else
      height_m <- F64.div height_cm (F64.Fin 100) ;;
      square <- fpow height_m 2 ;;
      bmi <- F64.div weight_kg square ;;
      let bmi := F64.py_round bmi 2 in
      let category_info := get_bmi_category bmi age in
      bmi_prime <- F64.div bmi (F64.Fin 25) ;;
      let bmi_prime := F64.py_round bmi_prime 2 in
      if negb detailed then
        Ok (Simple bmi (BMI.category category_info) (BMI.color category_info))
      else
        Ok (Detailed bmi bmi_prime (BMI.category category_info)
              (BMI.description category_info) (BMI.health_risk category_info)
              (BMI.color category_info)).

End BMI64.

(** * Notions used in the statements *)

(** ** Results *)



(** The ['total_interest'] and ['emi'] entries of a loan result. *)
Definition total_interest_of (r : Loan.loan_result) : Dec.t :=
  match r with
  | Loan.Simple _ ti _ _ => ti
  | Loan.Detailed d => Loan.total_interest d
  end.

Definition emi_of (r : Loan.loan_result) : Dec.t :=
  match r with
  | Loan.Simple e _ _ _ => e
  | Loan.Detailed d => Loan.emi d
  end.

(** An expression that passes the emptiness test of [evaluate_expression]. *)
Definition not_blank (expression : string) : Prop :=
  expression <> EmptyString /\ strip expression <> EmptyString.

(** [eval] on the expression "1e999j", the complex number [infj]; no
    pattern of [preprocess_expression] occurs in that expression. *)
Definition eval_1e999j (s : string) : result MathCalc.pyvalue :=
  if String.eqb s "1e999j"
  then Ok (MathCalc.VComplex (MathCalc.Finite 0) MathCalc.PosInf)
  else Raise SyntaxError.

(** ** Order and bounds on decimal values *)

Definition Dle (a b : Dec.t) : Prop := Dec.leb a b = true.
Definition Dlt (a b : Dec.t) : Prop := Dec.ltb a b = true.

(** The exact sum, before [_fix]. *)
Definition exact_add (a b : Dec.t) : Dec.t :=
  let e := Z.min (Dec.expo a) (Dec.expo b) in
  Dec.mk (Dec.align a e + Dec.align b e) e.

(** [|d| <= 10^K] *)
Definition bounded (K : Z) (d : Dec.t) : Prop :=
  Dle (Dec.mk (-1) K) d /\ Dle d (Dec.mk 1 K).

(** ** The ledger of the reducing-balance loan, month by month *)

Section LedgerNotions.

Variables (emi_ monthly_rate : Dec.t).
Variables (prepayment : option Dec.t) (prepayment_month : option Z).

(** The unrounded portions of one month, from its opening balance. *)
Definition interest_portion (bal : Dec.t) : Dec.t := Dec.mul bal monthly_rate.

Definition principal_portion (month : Z) (bal : Dec.t) : Dec.t :=
  match Loan.prepayment_in prepayment prepayment_month month with
  | Some p => Dec.add (Dec.sub emi_ (interest_portion bal)) p
  | None => Dec.sub emi_ (interest_portion bal)
  end.

Definition closing_balance (month : Z) (bal : Dec.t) : Dec.t :=
  Dec.sub bal (principal_portion month bal).

(** The running balance [k] months after a month that opens with [bal]. *)
Fixpoint running_balance (k : nat) (month : Z) (bal : Dec.t) : Dec.t :=
  match k with
  | O => bal
  | S k' => running_balance k' (month + 1) (closing_balance month bal)
  end.

(** The figures a month reports. *)
Definition reported_emi (month : Z) : Dec.t :=
  match Loan.prepayment_in prepayment prepayment_month month with
  | Some p => Dec.add emi_ p
  | None => emi_
  end.

Definition reported_prepayment (month : Z) : Dec.t :=
  match Loan.prepayment_in prepayment prepayment_month month with
  | Some p => p
  | None => Dec.zero
  end.

Definition ledger_row (month : Z) (bal : Dec.t) : result Loan.row :=
  p <- Loan.q2 (principal_portion month bal) ;;
  i <- Loan.q2 (interest_portion bal) ;;
  b <- Loan.q2 (Dec.max (closing_balance month bal) Dec.zero) ;;
  Ok (Loan.mk_row month (reported_emi month) p i b (reported_prepayment month)).

End LedgerNotions.

(** [int(years * 12)] and [annual_rate / (Decimal('12') * Decimal('100'))] *)
Definition months_of (duration : Dec.t) : Z :=
  Dec.to_int (Dec.mul duration (Dec.of_Z 12)).

Definition monthly_rate_of (rate : Dec.t) : result Dec.t :=
  Dec.div rate (Dec.mul (Dec.of_Z 12) (Dec.of_Z 100)).

(** The inputs that pass the validation of [calculate_loan]. *)
Definition valid_loan (amount rate duration : Dec.t) : Prop :=
  Dlt Dec.zero amount /\ Dle Dec.zero rate /\ Dlt Dec.zero duration
  /\ Dle amount (Dec.of_Z 100000000) /\ Dle rate (Dec.of_Z 50)
  /\ Dle duration (Dec.of_Z 40).

(** Every [loan_type] but "flat" selects the reducing-balance method. *)
Definition reducing (loan_type : string) : Prop := lower loan_type <> "flat"%string.

(** [principal / months], rounded half-up to cents. *)
Definition straight_line_emi (amount : Dec.t) (months : Z) : result Dec.t :=
  e0 <- Dec.div amount (Dec.of_Z months) ;; Loan.q2 e0.

(** The sum of the cents of a column of the ledger. *)
Definition sum_cents (f : Loan.row -> Dec.t) (rows : list Loan.row) : Z :=
  fold_right (fun r acc => Dec.coef (f r) + acc) 0 rows.

Definition all_in_cents (f : Loan.row -> Dec.t) (rows : list Loan.row) : bool :=
  forallb (fun r => Dec.expo (f r) =? -2) rows.

(** ** Failures *)


(** ** GPA *)

(** A course the loop of [calculate_gpa] accepts: both keys present, credits
    that [float()] converts to a positive number, and a grade of the table
    (after [upper()] and [strip()]). *)
Definition valid_course (scale : string) (c : GPA.course) : Prop :=
  exists g x,
    GPA.grade c = Some g /\ GPA.credits c = Some (GPA.CNum x) /\ (0 < x)%Q
    /\ GPA.lookup (strip (upper g)) (GPA.get_grade_points scale) <> None.

(** [max_gpa = 5.0 if scale == "5.0" else 4.0] *)
Definition max_gpa (scale : string) : Q :=
  if String.eqb scale "5.0" then 5 else 4.

(** The semester GPA of a result. *)
Definition gpa_value (r : GPA.gpa_result) : Q :=
  match r with
  | GPA.Simple g _ _ => g
  | GPA.Detailed g _ _ _ _ _ _ => g
  end.

(** ** Binary64 floats *)

(** The rationals that are binary64 values. *)
Definition is_float (f : Q) : Prop :=
  exists q, F64.round64 f = F64.Fin q /\ (q == f)%Q.

(** The greatest finite float, [2^1024 - 2^971]. *)
Definition max_float : Q := inject_Z (2 ^ 1024 - 2 ^ 971).

(** What is assumed of the platform's power where a property needs it: on a
    float [x], while [x ^ n] is within the range of the floats, [x ** n]
    returns one of the two floats that enclose the exact power (the power
    itself when it is a float). *)
Definition pow_faithful (fpow : F64.t -> Z -> result F64.t) : Prop :=
  forall (x : Q) (n : Z),
    is_float x -> 0 <= n -> (Qabs (x ^ n) <= max_float)%Q ->
    exists r,
      fpow (F64.Fin x) n = Ok (F64.Fin r)
      /\ (forall f, is_float f -> (f <= x ^ n)%Q -> (f <= r)%Q)
      /\ (forall f, is_float f -> (x ^ n <= f)%Q -> (r <= f)%Q).

(** A power that rounds the exact power to nearest. *)
Definition pow_nearest (x : F64.t) (n : Z) : result F64.t :=
  match x with
  | F64.Fin q =>
      match F64.round64 (q ^ n) with
      | F64.Fin r => Ok (F64.Fin r)
      | _ => Raise OverflowError
      end
  | _ => Ok x
  end.

(** The ['bmi'], ['category'] and ['color'] entries of a result. *)
Definition bmi64_value (r : BMI64.bmi_result) : F64.t :=
  match r with
  | BMI64.Simple b _ _ => b
  | BMI64.Detailed b _ _ _ _ _ => b
  end.

(** * Properties *)

(** ** Comparisons and rounding of floats *)

Lemma Float_ltb_true (a b : Q) : Float.ltb a b = true <-> (a < b)%Q.
Proof.
  unfold Float.ltb. rewrite negb_true_iff. split; intro H.
  - apply Qnot_le_lt. intro L. apply Qle_bool_iff in L. congruence.
  - destruct (Qle_bool b a) eqn:E; [|reflexivity].
    apply Qle_bool_iff in E. exfalso. exact (Qlt_not_le _ _ H E).
Qed.

Lemma Float_ltb_false (a b : Q) : Float.ltb a b = false <-> (b <= a)%Q.
Proof.
  unfold Float.ltb. rewrite negb_false_iff. apply Qle_bool_iff.
Qed.

Lemma Float_leb_true (a b : Q) : Float.leb a b = true <-> (a <= b)%Q.
Proof. apply Qle_bool_iff. Qed.

Lemma Float_leb_false (a b : Q) : Float.leb a b = false <-> (b < a)%Q.
Proof.
  unfold Float.leb. split; intro H.
  - apply Qnot_le_lt. intro L. apply Qle_bool_iff in L. congruence.
  - destruct (Qle_bool a b) eqn:E; [|reflexivity].
    apply Qle_bool_iff in E. exfalso. exact (Qlt_not_le _ _ H E).
Qed.

Lemma Float_div_ok (a b : Q) : ~ (b == 0)%Q -> Float.div a b = Ok (Qred (a / b)).
Proof.
  intro H. unfold Float.div.
  destruct (Qeq_bool b 0) eqn:E; [|reflexivity].
  apply Qeq_bool_iff in E. contradiction.
Qed.

Lemma Float_div_zero (a b : Q) : (b == 0)%Q -> Float.div a b = Raise ZeroDivisionError.
Proof.
  intro H. unfold Float.div. apply Qeq_bool_iff in H. rewrite H. reflexivity.
Qed.

(** Rounding to the nearest integer does not depend on how the fraction is
    written. *)
Lemma round_half_even_scale (k n d : Z) :
  0 < k -> 0 < d ->
  Dec.round_half_even (k * n) (k * d) = Dec.round_half_even n d.
Proof.
  intros Hk Hd. unfold Dec.round_half_even.
  rewrite Z.div_mul_cancel_l by lia.
  rewrite Z.mul_mod_distr_l by lia.
  replace (2 * (k * (n mod d)) <? k * d) with (2 * (n mod d) <? d).
  2:{ destruct (Z.ltb_spec (2 * (n mod d)) d), (Z.ltb_spec (2 * (k * (n mod d))) (k * d));
      try reflexivity; nia. }
  replace (k * d <? 2 * (k * (n mod d))) with (d <? 2 * (n mod d)).
  2:{ destruct (Z.ltb_spec d (2 * (n mod d))), (Z.ltb_spec (k * d) (2 * (k * (n mod d))));
      try reflexivity; nia. }
  reflexivity.
Qed.

Lemma round_half_even_Qeq (x y : Q) (s : Z) :
  (x == y)%Q ->
  Dec.round_half_even (Qnum x * s) (Zpos (Qden x))
  = Dec.round_half_even (Qnum y * s) (Zpos (Qden y)).
Proof.
  intro H. unfold Qeq in H.
  rewrite <- (round_half_even_scale (Zpos (Qden y)) (Qnum x * s) (Zpos (Qden x)))
    by reflexivity.
  rewrite <- (round_half_even_scale (Zpos (Qden x)) (Qnum y * s) (Zpos (Qden y)))
    by reflexivity.
  f_equal; [|apply Z.mul_comm].
  rewrite !Z.mul_assoc. rewrite (Z.mul_comm (Zpos (Qden y))), H.
  rewrite (Z.mul_comm (Zpos (Qden x))). reflexivity.
Qed.

Lemma Float_round_Qeq (x y : Q) (n : Z) :
  0 <= n -> (x == y)%Q -> Float.round x n = Float.round y n.
Proof.
  intros Hn H. unfold Float.round.
  destruct (Z.leb_spec 0 n); [|lia].
  rewrite (round_half_even_Qeq x y (10 ^ n) H). reflexivity.
Qed.

(** ** BMI *)

Ltac float_case :=
  match goal with
  | |- context [Float.ltb ?a ?b] =>
      let E := fresh "E" in
      destruct (Float.ltb a b) eqn:E;
      [apply Float_ltb_true in E | apply Float_ltb_false in E]
  | |- context [Float.leb ?a ?b] =>
      let E := fresh "E" in
      destruct (Float.leb a b) eqn:E;
      [apply Float_leb_true in E | apply Float_leb_false in E]
  end; cbn [andb orb negb]; try (exfalso; lra).




(** ** Attendance *)

(** The scenario of the specification: 60 of 80 classes at a target of 75. *)
Example attendance_60_80_75 :
  exists s,
    Attendance.calculate_attendance 60 80 75 None false = Ok (Attendance.Simple s)
    /\ Attendance.percentage s = 75%Q
    /\ Attendance.classes_needed s = 0
    /\ Attendance.status_ s = "Good"%string.
Proof. eexists. split; [vm_compute; reflexivity|]. repeat split. Qed.

(** C2. With 50 of 100 classes attended and a target of 75 the quotient
    ((75*100) - (100*50)) / (100 - 75) is exactly 100, its ceiling is 100, and
    100 further classes do reach the target (150 of 200 is rated "Good" with
    nothing more needed); [calculate_attendance] answers 101. *)
Theorem attendance_classes_needed_whole_quotient :
  Attendance.ceil ((75 * 100 - 100 * 50) / (100 - 75)) = 100
  /\ (exists s,
        Attendance.calculate_attendance 50 100 75 None false = Ok (Attendance.Simple s)
        /\ Attendance.classes_needed s = 101)
  /\ (exists s,
        Attendance.calculate_attendance 150 200 75 None false = Ok (Attendance.Simple s)
        /\ Attendance.classes_needed s = 0
        /\ Attendance.status_ s = "Good"%string).
Proof.
  split; [vm_compute; reflexivity|].
  split; eexists; (split; [vm_compute; reflexivity|]); repeat split.
Qed.

(** At a target of 100 the same branch divides by zero. *)
Example attendance_target_100_raises :
  Attendance.calculate_attendance 60 80 100 None false = Raise ZeroDivisionError.
Proof. vm_compute. reflexivity. Qed.

(** ** Compound interest *)

Lemma existsb_frequency (frequency : Z) :
  In frequency [1; 2; 4; 12; 52; 365] ->
  existsb (Z.eqb frequency) [1; 2; 4; 12; 52; 365] = true /\ 0 < frequency.
Proof.
  intro H. cbn [In] in H.
  repeat (destruct H as [H|H]; [subst frequency; split; [reflexivity | lia]|]).
  contradiction.
Qed.

(** C5. Every validated input with a zero rate and a positive monthly
    contribution makes [calculate_compound_interest] raise
    [ZeroDivisionError]: the annuity factor is divided by [r / n = 0]. *)
Theorem compound_zero_rate_contribution_raises :
  forall (fpow : Q -> Q -> Q) (principal rate : Q) (time frequency : Z)
         (monthly_contribution : Q) (contribution_timing : string)
         (inflation_rate : Q) (detailed : bool),
    (0 <= principal)%Q -> (rate == 0)%Q -> 0 < time ->
    In frequency [1; 2; 4; 12; 52; 365] ->
    (0 < monthly_contribution)%Q ->
    (0 <= inflation_rate)%Q -> (inflation_rate <= 100)%Q ->
    Compound.calculate_compound_interest fpow principal rate time frequency
      monthly_contribution contribution_timing inflation_rate detailed
    = Raise ZeroDivisionError.
Proof.
  intros fpow principal rate time frequency mc timing infl detailed
         Hp Hr Ht Hf Hmc Hi1 Hi2.
  destruct (existsb_frequency frequency Hf) as [Hex Hfpos].
  unfold Compound.calculate_compound_interest.
  rewrite (proj2 (Float_ltb_false principal 0)) by exact Hp.
  rewrite (proj2 (Float_ltb_false rate 0)) by (rewrite Hr; apply Qle_refl).
  destruct (Z.leb_spec time 0); [lia|].
  rewrite Hex. cbn [negb].
  rewrite (proj2 (Float_ltb_false mc 0)) by lra.
  rewrite (proj2 (Float_ltb_false infl 0)) by exact Hi1.
  rewrite (proj2 (Float_ltb_false 100 infl)) by exact Hi2.
  cbn [orb].
  rewrite (Float_div_ok rate 100) by (intro H0; discriminate H0).
  cbn [bind].
  assert (Hn : ~ (Float.of_Z frequency == 0)%Q).
  { unfold Float.of_Z, Qeq. cbn. lia. }
  rewrite (Float_div_ok _ _ Hn). cbn [bind].
  rewrite (proj2 (Float_ltb_true 0 mc)) by exact Hmc.
  rewrite (Float_div_ok _ _ Hn). cbn [bind].
  rewrite Float_div_zero; [reflexivity|].
  rewrite !Qred_correct. rewrite Hr. unfold Qdiv. rewrite !Qmult_0_l. reflexivity.
Qed.

Lemma compound_zero_rate_contribution_raises_witness :
  Compound.calculate_compound_interest (fun x _ => x) 1000 0 1 12 100 "end" 0 false
  = Raise ZeroDivisionError.
Proof.
  apply (compound_zero_rate_contribution_raises (fun x _ => x) 1000 0 1 12 100 "end" 0 false);
    try (vm_compute; discriminate); try reflexivity; try lia.
  cbn. tauto.
Defined.

(** ** GPA *)

Lemma get_grade_points_default (scale : string) :
  scale <> "5.0"%string -> GPA.get_grade_points scale = GPA.get_grade_points "4.0".
Proof.
  intro H. unfold GPA.get_grade_points.
  destruct (String.eqb_spec scale "5.0"); [contradiction | reflexivity].
Qed.

Lemma get_letter_grade_default (gpa : Q) (scale : string) :
  scale <> "5.0"%string -> GPA.get_letter_grade gpa scale = GPA.get_letter_grade gpa "4.0".
Proof.
  intro H. unfold GPA.get_letter_grade.
  destruct (String.eqb_spec scale "5.0"); [contradiction | reflexivity].
Qed.

(** C6, as stated, fails: the scale "3.0" is not rejected, the course is
    graded on the table of the 4.0 scale. *)
Lemma gpa_unknown_scale_is_accepted :
  GPA.calculate_gpa (fun _ => None)
    [GPA.mk_course None (Some "A"%string) (Some (GPA.CNum 3))] "3.0" None None false
  = Ok (GPA.Simple 4 3 "A").
Proof. vm_compute. reflexivity. Qed.

(** C6, amended. Only "5.0" selects the table of the 5.0 scale; every other
    scale value is treated as "4.0": in simple mode, without a previous GPA,
    the call returns (or raises) exactly what it does for scale "4.0". *)
Theorem gpa_scale_defaults_to_4 :
  forall (float_of_string : string -> option Q) (courses : list GPA.course)
         (scale : string),
    scale <> "5.0"%string ->
    GPA.calculate_gpa float_of_string courses scale None None false
    = GPA.calculate_gpa float_of_string courses "4.0" None None false.
Proof.
  intros f courses scale H. unfold GPA.calculate_gpa.
  destruct courses as [|c cs]; [reflexivity|].
  rewrite (get_grade_points_default scale H).
  destruct (GPA.courses_loop _ _ _) as [a|e]; [|reflexivity].
  cbn [bind].
  destruct (if Float.ltb 0 (GPA.total_credits a) then _ else _) as [g|e];
    [|reflexivity].
  cbn [bind negb].
  rewrite (get_letter_grade_default g scale H). reflexivity.
Qed.

Lemma gpa_scale_defaults_to_4_witness :
  GPA.calculate_gpa (fun _ => None)
    [GPA.mk_course None (Some "b+"%string) (Some (GPA.CNum 4))] "10" None None false
  = Ok (GPA.Simple 3.3 4 "A-").
Proof.
  rewrite (gpa_scale_defaults_to_4 (fun _ => None) _ "10");
    [vm_compute; reflexivity | discriminate].
Defined.

(** The scenario of the specification: an A of 3 credits and a B of 4. *)
Example gpa_A3_B4 :
  GPA.calculate_gpa (fun _ => None)
    [GPA.mk_course None (Some "A"%string) (Some (GPA.CNum 3));
     GPA.mk_course None (Some "B"%string) (Some (GPA.CNum 4))] "4.0" None None false
  = Ok (GPA.Simple 3.43 7 "A-").
Proof. vm_compute. reflexivity. Qed.

(** ** The expression evaluator *)

Section EvaluatorFacts.

Variable str_replace : string -> string -> string -> string.
Variable re_sub : string -> string -> string -> string.
Variable py_eval : string -> result MathCalc.pyvalue.
Variable analysis : Type.
Variable analyze : string -> MathCalc.pyvalue -> Z -> result analysis.

Local Abbreviation evaluate :=
  (MathCalc.evaluate_expression str_replace re_sub py_eval analysis analyze).
Local Abbreviation preprocess := (MathCalc.preprocess_expression str_replace re_sub).

Lemma not_blank_tests (expression : string) :
  not_blank expression ->
  String.eqb expression EmptyString || String.eqb (strip expression) EmptyString = false.
Proof.
  intros [H1 H2].
  destruct (String.eqb_spec expression EmptyString); [contradiction|].
  destruct (String.eqb_spec (strip expression) EmptyString); [contradiction|].
  reflexivity.
Qed.

(** A division by zero, a NaN and an infinite float each end in a failure
    response, with three different messages. *)
Lemma evaluate_float_failures (expression angle_mode : string) (precision : Z)
    (detailed : bool) :
  not_blank expression ->
  (py_eval (preprocess expression angle_mode) = Raise ZeroDivisionError ->
   evaluate expression angle_mode precision detailed
   = Ok (MathCalc.Answered analysis
           (MathCalc.mk_response None (strip expression) false
              (Some "Division by zero is undefined."%string) None)))
  /\ (py_eval (preprocess expression angle_mode) = Ok (MathCalc.VFloat MathCalc.NaN) ->
      evaluate expression angle_mode precision detailed
      = Ok (MathCalc.Answered analysis
              (MathCalc.mk_response None (strip expression) false
                 (Some "Calculation error: Result is not a number (NaN)."%string) None)))
  /\ (forall x, MathCalc.isinf x = true ->
      py_eval (preprocess expression angle_mode) = Ok (MathCalc.VFloat x) ->
      evaluate expression angle_mode precision detailed
      = Ok (MathCalc.Answered analysis
              (MathCalc.mk_response None (strip expression) false
                 (Some "Calculation error: Result is infinity."%string) None))).
Proof.
  intro Hnb.
  unfold MathCalc.evaluate_expression, MathCalc.try_block.
  rewrite (not_blank_tests _ Hnb).
  repeat split.
  - intros ->. reflexivity.
  - intros ->. reflexivity.
  - intros x Hx ->. destruct x; try discriminate Hx; reflexivity.
Qed.

(** C9. A complex result with an infinite (or NaN) part is not a [float]:
    it passes the check and comes back as the result of a successful
    response. *)
Theorem evaluate_returns_complex_infinity :
  forall (expression angle_mode : string) (precision : Z) (re im : MathCalc.pyfloat),
    not_blank expression ->
    py_eval (preprocess expression angle_mode) = Ok (MathCalc.VComplex re im) ->
    MathCalc.nan_or_infinite (MathCalc.VComplex re im) = true ->
    exists r,
      evaluate expression angle_mode precision false = Ok (MathCalc.Answered analysis r)
      /\ MathCalc.success r = true
      /\ MathCalc.result_ r = Some (MathCalc.VComplex re im).
Proof.
  intros expression angle_mode precision re im Hnb He _.
  unfold MathCalc.evaluate_expression, MathCalc.try_block.
  rewrite (not_blank_tests _ Hnb), He. cbn.
  eexists. repeat split.
Qed.

End EvaluatorFacts.

Lemma evaluate_returns_complex_infinity_witness :
  exists r,
    MathCalc.evaluate_expression (fun _ _ s => s) (fun _ _ s => s) eval_1e999j
      unit (fun _ _ _ => Ok tt) "1e999j" "degrees" 10 false
    = Ok (MathCalc.Answered unit r)
    /\ MathCalc.success r = true
    /\ MathCalc.result_ r
       = Some (MathCalc.VComplex (MathCalc.Finite 0) MathCalc.PosInf).
Proof.
  apply (evaluate_returns_complex_infinity (fun _ _ s => s) (fun _ _ s => s)
           eval_1e999j unit (fun _ _ _ => Ok tt) "1e999j" "degrees" 10
           (MathCalc.Finite 0) MathCalc.PosInf).
  - split; vm_compute; discriminate.
  - vm_compute. reflexivity.
  - reflexivity.
Defined.

(** ** Decimal arithmetic: digits, order and rounding *)

Lemma pow10_pos (k : Z) : 0 <= k -> 0 < 10 ^ k.
Proof. intro H. apply Z.pow_pos_nonneg; lia. Qed.

Lemma pow10_split (a b : Z) : 0 <= a -> 0 <= b -> 10 ^ (a + b) = 10 ^ a * 10 ^ b.
Proof. intros. apply Z.pow_add_r; assumption. Qed.

Lemma pow10_le (a b : Z) : 0 <= a <= b -> 10 ^ a <= 10 ^ b.
Proof. intro H. apply Z.pow_le_mono_r; lia. Qed.

Lemma pow10_lt (a b : Z) : 0 <= a < b -> 10 ^ a < 10 ^ b.
Proof. intro H. apply Z.pow_lt_mono_r; lia. Qed.

Lemma pow10_lt_inv (a b : Z) : 0 <= a -> 0 <= b -> 10 ^ a < 10 ^ b -> a < b.
Proof.
  intros Ha Hb H. destruct (Z.lt_ge_cases a b) as [L|L]; [exact L|].
  pose proof (pow10_le b a). lia.
Qed.

Lemma log2_div10 (n : Z) : 10 <= n -> Z.log2 (n / 10) < Z.log2 n.
Proof.
  intro H.
  assert (H1 : 1 <= n / 10) by (apply Z.div_le_lower_bound; lia).
  apply Z.log2_lt_pow2; [lia|].
  destruct (Z.log2_spec n) as [_ U]; [lia|].
  rewrite Z.pow_succ_r in U by apply Z.log2_nonneg.
  pose proof (Z.mul_div_le n 10). lia.
Qed.

Lemma ndigits_fuel_spec (f : nat) :
  forall n, 0 <= n -> (Z.to_nat (Z.log2 n) <= f)%nat ->
    1 <= Dec.ndigits_fuel f n
    /\ n < 10 ^ Dec.ndigits_fuel f n
    /\ (1 <= n -> 10 ^ (Dec.ndigits_fuel f n - 1) <= n).
Proof.
  induction f as [|f IH]; intros n Hn Hf.
  - assert (Hl : Z.log2 n = 0) by (pose proof (Z.log2_nonneg n); lia).
    assert (n < 2).
    { destruct (Z.lt_ge_cases n 2) as [L|L]; [exact L|].
      pose proof (Z.log2_le_mono 2 n L) as M. change (Z.log2 2) with 1 in M. lia. }
    cbn. lia.
  - cbn [Dec.ndigits_fuel].
    destruct (Z.ltb_spec n 10) as [L|L].
    + cbn. lia.
    + assert (H1 : 1 <= n / 10) by (apply Z.div_le_lower_bound; lia).
      pose proof (log2_div10 n L) as Hlog.
      pose proof (Z.log2_nonneg (n / 10)) as Hnn.
      destruct (IH (n / 10)) as (A & B & C); [lia | lia |].
      specialize (C H1).
      set (k := Dec.ndigits_fuel f (n / 10)) in *.
      pose proof (Z.mul_div_le n 10) as D1.
      pose proof (Z.mul_succ_div_gt n 10) as D2.
      replace (1 + k) with (k + 1) by lia.
      replace (k + 1 - 1) with ((k - 1) + 1) by lia.
      rewrite !pow10_split by lia. change (10 ^ 1) with 10.
      repeat split; lia.
Qed.

Lemma ndigits_spec (n : Z) :
  0 <= n ->
  1 <= Dec.ndigits n
  /\ n < 10 ^ Dec.ndigits n
  /\ (1 <= n -> 10 ^ (Dec.ndigits n - 1) <= n).
Proof. intro H. apply ndigits_fuel_spec; [exact H | lia]. Qed.

Lemma ndigits_le (n k : Z) : 0 <= n -> 1 <= k -> n < 10 ^ k -> Dec.ndigits n <= k.
Proof.
  intros Hn Hk H. destruct (ndigits_spec n Hn) as (A & B & C).
  destruct (Z.lt_ge_cases n 1) as [L|L].
  - assert (n = 0) by lia. subst n. cbn. lia.
  - specialize (C L).
    destruct (Z.le_gt_cases (Dec.ndigits n) k) as [G|G]; [exact G|].
    pose proof (pow10_le k (Dec.ndigits n - 1)). lia.
Qed.

Lemma ndigits_gt (n k : Z) : 0 <= n -> 1 <= k -> k < Dec.ndigits n -> 10 ^ k <= n.
Proof.
  intros Hn Hk H. destruct (ndigits_spec n Hn) as (A & B & C).
  destruct (Z.lt_ge_cases n 1) as [L|L].
  - assert (n = 0) by lia. subst n. cbn in H. lia.
  - specialize (C L). pose proof (pow10_le k (Dec.ndigits n - 1)). lia.
Qed.

(** Rounding a quotient keeps it on the same side of every integer. *)
Lemma round_half_even_le (n d N : Z) :
  0 < d -> n <= N * d -> Dec.round_half_even n d <= N.
Proof.
  intros Hd H. unfold Dec.round_half_even.
  pose proof (Z.div_mod n d ltac:(lia)) as E.
  pose proof (Z.mod_pos_bound n d Hd) as R.
  assert (Hq : n / d <= N) by nia.
  destruct (Z.ltb_spec (2 * (n mod d)) d); [exact Hq|].
  assert (n / d + 1 <= N) by nia.
  destruct (d <? 2 * (n mod d)); [lia|].
  destruct (Z.even (n / d)); lia.
Qed.

Lemma round_half_even_ge (n d N : Z) :
  0 < d -> N * d <= n -> N <= Dec.round_half_even n d.
Proof.
  intros Hd H. unfold Dec.round_half_even.
  pose proof (Z.div_mod n d ltac:(lia)) as E.
  pose proof (Z.mod_pos_bound n d Hd) as R.
  assert (Hq : N <= n / d) by nia.
  destruct (2 * (n mod d) <? d); [exact Hq|].
  destruct (d <? 2 * (n mod d)); [lia|].
  destruct (Z.even (n / d)); lia.
Qed.

Lemma round_half_up_le (n d N : Z) :
  0 < d -> n <= N * d -> Dec.round_half_up n d <= N.
Proof.
  intros Hd H. unfold Dec.round_half_up.
  pose proof (Z.div_mod (Z.abs n) d ltac:(lia)) as E.
  pose proof (Z.mod_pos_bound (Z.abs n) d Hd) as R.
  pose proof (Z.div_pos (Z.abs n) d ltac:(lia) Hd) as Q.
  destruct (Z.leb_spec d (2 * (Z.abs n mod d))); nia.
Qed.

Lemma round_half_up_ge (n d N : Z) :
  0 < d -> N * d <= n -> N <= Dec.round_half_up n d.
Proof.
  intros Hd H. unfold Dec.round_half_up.
  pose proof (Z.div_mod (Z.abs n) d ltac:(lia)) as E.
  pose proof (Z.mod_pos_bound (Z.abs n) d Hd) as R.
  pose proof (Z.div_pos (Z.abs n) d ltac:(lia) Hd) as Q.
  destruct (Z.leb_spec d (2 * (Z.abs n mod d))); nia.
Qed.

Lemma round_div_le (m : Dec.rounding) (n d N : Z) :
  0 < d -> n <= N * d -> Dec.round_div m n d <= N.
Proof.
  destruct m; [apply round_half_even_le | apply round_half_up_le].
Qed.

Lemma round_div_ge (m : Dec.rounding) (n d N : Z) :
  0 < d -> N * d <= n -> N <= Dec.round_div m n d.
Proof.
  destruct m; [apply round_half_even_ge | apply round_half_up_ge].
Qed.

Lemma align_scale (d : Dec.t) (e e' : Z) :
  e' <= e -> e <= Dec.expo d ->
  Dec.align d e' = Dec.align d e * 10 ^ (e - e').
Proof.
  intros H1 H2. unfold Dec.align.
  replace (Dec.expo d - e') with ((Dec.expo d - e) + (e - e')) by lia.
  rewrite pow10_split by lia. ring.
Qed.

Lemma compare_scale (a b : Dec.t) (e : Z) :
  e <= Dec.expo a -> e <= Dec.expo b ->
  Dec.compare a b = (Dec.align a e ?= Dec.align b e).
Proof.
  intros Ha Hb. unfold Dec.compare.
  set (m := Z.min (Dec.expo a) (Dec.expo b)).
  rewrite (align_scale a m e), (align_scale b m e) by lia.
  apply Zmult_compare_compat_r.
  apply Z.lt_gt, pow10_pos. lia.
Qed.

Lemma Dle_scale (a b : Dec.t) (e : Z) :
  e <= Dec.expo a -> e <= Dec.expo b ->
  (Dle a b <-> Dec.align a e <= Dec.align b e).
Proof.
  intros Ha Hb. unfold Dle, Dec.leb. rewrite (compare_scale a b e Ha Hb).
  destruct (Z.compare_spec (Dec.align a e) (Dec.align b e)); split; intros; lia || congruence.
Qed.

Lemma Dlt_scale (a b : Dec.t) (e : Z) :
  e <= Dec.expo a -> e <= Dec.expo b ->
  (Dlt a b <-> Dec.align a e < Dec.align b e).
Proof.
  intros Ha Hb. unfold Dlt, Dec.ltb. rewrite (compare_scale a b e Ha Hb).
  destruct (Z.compare_spec (Dec.align a e) (Dec.align b e)); split; intros; lia || congruence.
Qed.

Lemma leb_false_Dlt (a b : Dec.t) : Dec.leb a b = false <-> Dlt b a.
Proof.
  set (e := Z.min (Dec.expo a) (Dec.expo b)).
  rewrite (Dlt_scale b a e) by lia.
  unfold Dec.leb. rewrite (compare_scale a b e) by lia.
  destruct (Z.compare_spec (Dec.align a e) (Dec.align b e)); split; intros; lia || congruence.
Qed.

Lemma ltb_false_Dle (a b : Dec.t) : Dec.ltb a b = false <-> Dle b a.
Proof.
  set (e := Z.min (Dec.expo a) (Dec.expo b)).
  rewrite (Dle_scale b a e) by lia.
  unfold Dec.ltb. rewrite (compare_scale a b e) by lia.
  destruct (Z.compare_spec (Dec.align a e) (Dec.align b e)); split; intros; lia || congruence.
Qed.

Lemma Dle_refl (a : Dec.t) : Dle a a.
Proof. apply (Dle_scale a a (Dec.expo a)); lia. Qed.

Lemma Dle_trans (a b c : Dec.t) : Dle a b -> Dle b c -> Dle a c.
Proof.
  set (e := Z.min (Dec.expo a) (Z.min (Dec.expo b) (Dec.expo c))).
  rewrite (Dle_scale a b e), (Dle_scale b c e), (Dle_scale a c e) by lia. lia.
Qed.

Lemma Dlt_Dle (a b : Dec.t) : Dlt a b -> Dle a b.
Proof.
  set (e := Z.min (Dec.expo a) (Dec.expo b)).
  rewrite (Dle_scale a b e), (Dlt_scale a b e) by lia. lia.
Qed.

(** Signs are read off the coefficient. *)
Lemma align_sign (d : Dec.t) (e : Z) :
  e <= Dec.expo d ->
  (0 <= Dec.coef d <-> 0 <= Dec.align d e)
  /\ (0 < Dec.coef d <-> 0 < Dec.align d e)
  /\ (Dec.coef d <= 0 <-> Dec.align d e <= 0).
Proof.
  intro H. unfold Dec.align.
  pose proof (pow10_pos (Dec.expo d - e) ltac:(lia)) as P.
  repeat split; intro; nia.
Qed.

Lemma Dle_zero_l (d : Dec.t) : Dle Dec.zero d <-> 0 <= Dec.coef d.
Proof.
  rewrite (Dle_scale Dec.zero d (Z.min 0 (Dec.expo d))) by (cbn; lia).
  destruct (align_sign d (Z.min 0 (Dec.expo d)) ltac:(lia)) as (A & _ & _).
  unfold Dec.align at 1. cbn [Dec.coef Dec.zero]. rewrite Z.mul_0_l. tauto.
Qed.

Lemma Dlt_zero_l (d : Dec.t) : Dlt Dec.zero d <-> 0 < Dec.coef d.
Proof.
  rewrite (Dlt_scale Dec.zero d (Z.min 0 (Dec.expo d))) by (cbn; lia).
  destruct (align_sign d (Z.min 0 (Dec.expo d)) ltac:(lia)) as (_ & A & _).
  unfold Dec.align at 1. cbn [Dec.coef Dec.zero]. rewrite Z.mul_0_l. tauto.
Qed.

Lemma Dle_zero_r (d : Dec.t) : Dle d Dec.zero <-> Dec.coef d <= 0.
Proof.
  rewrite (Dle_scale d Dec.zero (Z.min 0 (Dec.expo d))) by (cbn; lia).
  destruct (align_sign d (Z.min 0 (Dec.expo d)) ltac:(lia)) as (_ & _ & A).
  unfold Dec.align at 2. cbn [Dec.coef Dec.zero]. rewrite Z.mul_0_l. tauto.
Qed.

Lemma eqb_zero (d : Dec.t) : Dec.eqb d Dec.zero = (Dec.coef d =? 0).
Proof.
  unfold Dec.eqb. rewrite (compare_scale d Dec.zero (Z.min 0 (Dec.expo d))) by (cbn; lia).
  unfold Dec.align at 2. cbn [Dec.coef Dec.zero]. rewrite Z.mul_0_l.
  destruct (align_sign d (Z.min 0 (Dec.expo d)) ltac:(lia)) as (A & B & C).
  destruct (Z.compare_spec (Dec.align d (Z.min 0 (Dec.expo d))) 0);
    destruct (Z.eqb_spec (Dec.coef d) 0); try reflexivity; lia.
Qed.

(** [round_to]: either nothing is dropped, or [k] digits are. *)
Lemma round_to_cases (p : Z) (d : Dec.t) :
  1 <= p ->
  (Dec.ndigits (Z.abs (Dec.coef d)) <= p /\ Dec.round_to p d = d)
  \/ (exists k, 1 <= k
        /\ Dec.ndigits (Z.abs (Dec.coef d)) = p + k
        /\ Dec.expo d + k <= Dec.expo (Dec.round_to p d)
        /\ Dec.align (Dec.round_to p d) (Dec.expo d)
           = Dec.round_half_even (Dec.coef d) (10 ^ k) * 10 ^ k).
Proof.
  intro Hp. unfold Dec.round_to.
  set (n := Dec.ndigits (Z.abs (Dec.coef d))).
  destruct (Z.leb_spec n p) as [L|L]; [left; split; [exact L | reflexivity]|].
  right. exists (n - p). split; [lia|]. split; [lia|].
  set (k := n - p). set (q := Dec.round_half_even (Dec.coef d) (10 ^ k)).
  assert (Hk : 0 < 10 ^ k) by (apply pow10_pos; lia).
  destruct (ndigits_spec (Z.abs (Dec.coef d)) (Z.abs_nonneg _)) as (N1 & N2 & N3).
  fold n in N1, N2, N3.
  assert (Hq1 : q <= 10 ^ p).
  { apply round_half_even_le; [exact Hk|]. rewrite <- pow10_split by lia.
    replace (p + k) with n by lia. lia. }
  assert (Hq2 : - 10 ^ p <= q).
  { apply round_half_even_ge; [exact Hk|].
    rewrite Z.mul_opp_l. rewrite <- pow10_split by lia.
    replace (p + k) with n by lia. lia. }
  destruct (Z.gtb_spec (Dec.ndigits (Z.abs q)) p) as [G|G].
  - cbn [Dec.expo Dec.coef]. split; [lia|].
    unfold Dec.align. cbn [Dec.expo Dec.coef].
    pose proof (ndigits_gt (Z.abs q) p (Z.abs_nonneg _) Hp G) as Hge.
    assert (Hp10 : 10 ^ p = 10 * 10 ^ (p - 1)).
    { replace p with (1 + (p - 1)) at 1 by lia. rewrite pow10_split by lia. reflexivity. }
    replace (Dec.expo d + k + 1 - Dec.expo d) with (k + 1) by lia.
    rewrite pow10_split by lia. change (10 ^ 1) with 10.
    assert (Hq : q = 10 ^ p \/ q = - 10 ^ p) by lia.
    destruct Hq as [Hq|Hq]; rewrite Hq, Hp10.
    + rewrite (Z.mul_comm 10), Z.div_mul by lia. ring.
    + rewrite <- Z.mul_opp_r, (Z.mul_comm 10), Z.div_mul by lia. ring.
  - cbn [Dec.expo Dec.coef]. split; [lia|].
    unfold Dec.align. cbn [Dec.expo Dec.coef].
    replace (Dec.expo d + k - Dec.expo d) with k by lia. reflexivity.
Qed.

(** Rounding to [p] digits does not cross a value of at most [p] digits. *)
Lemma round_to_le (p : Z) (d : Dec.t) (b eb : Z) :
  1 <= p -> Z.abs b < 10 ^ p ->
  Dle d (Dec.mk b eb) -> Dle (Dec.round_to p d) (Dec.mk b eb).
Proof.
  intros Hp Hb H.
  destruct (round_to_cases p d Hp) as [[_ E]|(k & Hk & Hn & He & Ha)];
    [rewrite E; exact H|].
  set (c := Dec.coef d) in *. set (e := Dec.expo d) in *.
  set (q := Dec.round_half_even c (10 ^ k)) in *.
  pose proof (pow10_pos k ltac:(lia)) as Pk.
  pose proof (pow10_pos p ltac:(lia)) as Pp.
  assert (Hc : 10 ^ (p + k - 1) <= Z.abs c).
  { apply ndigits_gt; [apply Z.abs_nonneg | lia | fold c; lia]. }
  destruct (Z.le_gt_cases (e + k) eb) as [C|C].
  - (* the bound is a multiple of the last kept digit *)
    apply (Dle_scale _ _ e); [lia | cbn; lia|].
    apply (Dle_scale _ _ e) in H; [| lia | cbn; lia].
    rewrite Ha. unfold Dec.align in H |- *. cbn [Dec.coef Dec.expo] in H |- *.
    fold c e in H. rewrite Z.sub_diag, Z.pow_0_r, Z.mul_1_r in H.
    replace (eb - e) with ((eb - e - k) + k) in H |- * by lia.
    rewrite pow10_split in H |- * by lia. rewrite Z.mul_assoc in H |- *.
    apply Z.mul_le_mono_nonneg_r; [lia|].
    apply round_half_even_le; [exact Pk | exact H].
  - set (m := Z.min e eb).
    apply (Dle_scale _ _ m); [lia | cbn; lia|].
    apply (Dle_scale _ _ m) in H; [| lia | cbn; lia].
    rewrite (align_scale (Dec.round_to p d) e m) by lia. rewrite Ha.
    unfold Dec.align in H |- *. cbn [Dec.coef Dec.expo] in H |- *. fold c e in H.
    set (x := e - m) in *. set (y := eb - m) in *.
    assert (Hx : 0 <= x) by lia. assert (Hy : 0 <= y) by lia.
    assert (Hxy : y <= x + k - 1) by lia.
    pose proof (pow10_pos x Hx) as Px. pose proof (pow10_pos y Hy) as Py.
    assert (Hby : Z.abs b * 10 ^ y < 10 ^ (p + y)).
    { rewrite pow10_split by lia. apply Z.mul_lt_mono_pos_r; lia. }
    assert (Hle : 10 ^ (p + y) <= 10 ^ (p + k - 1 + x)) by (apply pow10_le; lia).
    assert (Hcx : 10 ^ (p + k - 1 + x) <= Z.abs c * 10 ^ x).
    { rewrite (pow10_split (p + k - 1) x) by lia. apply Z.mul_le_mono_nonneg_r; lia. }
    destruct (Z.lt_ge_cases 0 c) as [Cp|Cn].
    + (* a positive value of more than p digits is above the bound *)
      exfalso. nia.
    + assert (Hq : q <= - 10 ^ (p - 1)).
      { apply round_half_even_le; [exact Pk|].
        rewrite Z.mul_opp_l, <- pow10_split by lia.
        replace (p - 1 + k) with (p + k - 1) by lia. lia. }
      assert (Hqk : q * 10 ^ k * 10 ^ x <= - 10 ^ (p + k - 1 + x)).
      { replace (p + k - 1 + x) with ((p - 1) + k + x) by lia.
        rewrite !pow10_split by lia.
        pose proof (pow10_pos (p - 1) ltac:(lia)). nia. }
      nia.
Qed.

Lemma round_to_ge (p : Z) (d : Dec.t) (b eb : Z) :
  1 <= p -> Z.abs b < 10 ^ p ->
  Dle (Dec.mk b eb) d -> Dle (Dec.mk b eb) (Dec.round_to p d).
Proof.
  intros Hp Hb H.
  destruct (round_to_cases p d Hp) as [[_ E]|(k & Hk & Hn & He & Ha)];
    [rewrite E; exact H|].
  set (c := Dec.coef d) in *. set (e := Dec.expo d) in *.
  set (q := Dec.round_half_even c (10 ^ k)) in *.
  pose proof (pow10_pos k ltac:(lia)) as Pk.
  pose proof (pow10_pos p ltac:(lia)) as Pp.
  assert (Hc : 10 ^ (p + k - 1) <= Z.abs c).
  { apply ndigits_gt; [apply Z.abs_nonneg | lia | fold c; lia]. }
  destruct (Z.le_gt_cases (e + k) eb) as [C|C].
  - apply (Dle_scale _ _ e); [cbn; lia | lia|].
    apply (Dle_scale _ _ e) in H; [| cbn; lia | lia].
    rewrite Ha. unfold Dec.align in H |- *. cbn [Dec.coef Dec.expo] in H |- *.
    fold c e in H. rewrite Z.sub_diag, Z.pow_0_r, Z.mul_1_r in H.
    replace (eb - e) with ((eb - e - k) + k) in H |- * by lia.
    rewrite pow10_split in H |- * by lia. rewrite Z.mul_assoc in H |- *.
    apply Z.mul_le_mono_nonneg_r; [lia|].
    apply round_half_even_ge; [exact Pk | exact H].
  - set (m := Z.min e eb).
    apply (Dle_scale _ _ m); [cbn; lia | lia|].
    apply (Dle_scale _ _ m) in H; [| cbn; lia | lia].
    rewrite (align_scale (Dec.round_to p d) e m) by lia. rewrite Ha.
    unfold Dec.align in H |- *. cbn [Dec.coef Dec.expo] in H |- *. fold c e in H.
    set (x := e - m) in *. set (y := eb - m) in *.
    assert (Hx : 0 <= x) by lia. assert (Hy : 0 <= y) by lia.
    assert (Hxy : y <= x + k - 1) by lia.
    pose proof (pow10_pos x Hx) as Px. pose proof (pow10_pos y Hy) as Py.
    assert (Hby : Z.abs b * 10 ^ y < 10 ^ (p + y)).
    { rewrite pow10_split by lia. apply Z.mul_lt_mono_pos_r; lia. }
    assert (Hle : 10 ^ (p + y) <= 10 ^ (p + k - 1 + x)) by (apply pow10_le; lia).
    assert (Hcx : 10 ^ (p + k - 1 + x) <= Z.abs c * 10 ^ x).
    { rewrite (pow10_split (p + k - 1) x) by lia. apply Z.mul_le_mono_nonneg_r; lia. }
    destruct (Z.lt_ge_cases c 0) as [Cn|Cp].
    + exfalso. nia.
    + assert (Hq : 10 ^ (p - 1) <= q).
      { apply round_half_even_ge; [exact Pk|].
        rewrite <- pow10_split by lia.
        replace (p - 1 + k) with (p + k - 1) by lia. lia. }
      assert (Hqk : 10 ^ (p + k - 1 + x) <= q * 10 ^ k * 10 ^ x).
      { replace (p + k - 1 + x) with ((p - 1) + k + x) by lia.
        rewrite !pow10_split by lia.
        pose proof (pow10_pos (p - 1) ltac:(lia)). nia. }
      nia.
Qed.

Lemma prec_pos : 1 <= Dec.prec.
Proof. unfold Dec.prec. lia. Qed.

(** [_fix] keeps the sign. *)
Lemma fix_zero (d : Dec.t) : Dec.coef d = 0 -> Dec.fix_ d = d.
Proof. intro H. unfold Dec.fix_, Dec.round_to. rewrite H. reflexivity. Qed.

Lemma fix_nonneg (d : Dec.t) : 0 <= Dec.coef d -> 0 <= Dec.coef (Dec.fix_ d).
Proof.
  intro H. apply Dle_zero_l. apply (round_to_ge Dec.prec d 0 0); [exact prec_pos | reflexivity|].
  apply Dle_zero_l. exact H.
Qed.

Lemma fix_nonpos (d : Dec.t) : Dec.coef d <= 0 -> Dec.coef (Dec.fix_ d) <= 0.
Proof.
  intro H. apply Dle_zero_r. apply (round_to_le Dec.prec d 0 0); [exact prec_pos | reflexivity|].
  apply Dle_zero_r. exact H.
Qed.

Lemma fix_pos (d : Dec.t) : 0 < Dec.coef d -> 0 < Dec.coef (Dec.fix_ d).
Proof.
  intro H. unfold Dec.fix_.
  destruct (round_to_cases Dec.prec d prec_pos) as [[_ E]|(k & Hk & Hn & He & Ha)];
    [rewrite E; exact H|].
  apply (align_sign _ (Dec.expo d)); [lia|]. rewrite Ha.
  pose proof (pow10_pos k ltac:(lia)) as Pk.
  assert (Hc : 10 ^ (Dec.prec + k - 1) <= Z.abs (Dec.coef d)).
  { apply ndigits_gt; [apply Z.abs_nonneg | unfold Dec.prec; lia | lia]. }
  assert (Hq : 10 ^ (Dec.prec - 1) <= Dec.round_half_even (Dec.coef d) (10 ^ k)).
  { apply round_half_even_ge; [exact Pk|]. rewrite <- pow10_split by (unfold Dec.prec; lia).
    replace (Dec.prec - 1 + k) with (Dec.prec + k - 1) by lia. lia. }
  pose proof (pow10_pos (Dec.prec - 1) ltac:(unfold Dec.prec; lia)). nia.
Qed.

Lemma add_exact (a b : Dec.t) : Dec.add a b = Dec.fix_ (exact_add a b).
Proof. reflexivity. Qed.

Lemma exact_add_align (a b : Dec.t) (m : Z) :
  m <= Dec.expo a -> m <= Dec.expo b ->
  Dec.align (exact_add a b) m = Dec.align a m + Dec.align b m.
Proof.
  intros Ha Hb. unfold exact_add.
  set (e := Z.min (Dec.expo a) (Dec.expo b)).
  rewrite (align_scale a e m), (align_scale b e m) by lia.
  unfold Dec.align at 1. cbn [Dec.coef Dec.expo]. ring.
Qed.

Lemma neg_align (b : Dec.t) (m : Z) : Dec.align (Dec.neg b) m = - Dec.align b m.
Proof. unfold Dec.align, Dec.neg. cbn [Dec.coef Dec.expo]. ring. Qed.

(** A bound of at most 28 digits on the exact sum bounds the sum. *)
Lemma add_le (a b : Dec.t) (c e : Z) :
  Z.abs c < 10 ^ Dec.prec ->
  (forall m, m <= Dec.expo a -> m <= Dec.expo b -> m <= e ->
     Dec.align a m + Dec.align b m <= c * 10 ^ (e - m)) ->
  Dle (Dec.add a b) (Dec.mk c e).
Proof.
  intros Hc H. rewrite add_exact. apply round_to_le; [exact prec_pos | exact Hc|].
  set (m := Z.min (Z.min (Dec.expo a) (Dec.expo b)) e).
  apply (Dle_scale _ _ m); [unfold exact_add; cbn; lia | cbn; lia|].
  rewrite exact_add_align by lia. apply H; lia.
Qed.

Lemma add_ge (a b : Dec.t) (c e : Z) :
  Z.abs c < 10 ^ Dec.prec ->
  (forall m, m <= Dec.expo a -> m <= Dec.expo b -> m <= e ->
     c * 10 ^ (e - m) <= Dec.align a m + Dec.align b m) ->
  Dle (Dec.mk c e) (Dec.add a b).
Proof.
  intros Hc H. rewrite add_exact. apply round_to_ge; [exact prec_pos | exact Hc|].
  set (m := Z.min (Z.min (Dec.expo a) (Dec.expo b)) e).
  apply (Dle_scale _ _ m); [cbn; lia | unfold exact_add; cbn; lia|].
  rewrite exact_add_align by lia. apply H; lia.
Qed.

Lemma add_nonneg (a b : Dec.t) :
  0 <= Dec.coef a -> 0 <= Dec.coef b -> 0 <= Dec.coef (Dec.add a b).
Proof.
  intros Ha Hb. rewrite add_exact. apply fix_nonneg. unfold exact_add. cbn [Dec.coef].
  set (e := Z.min (Dec.expo a) (Dec.expo b)).
  destruct (align_sign a e ltac:(lia)) as (A & _).
  destruct (align_sign b e ltac:(lia)) as (B & _). lia.
Qed.

Lemma add_zero (a b : Dec.t) :
  Dec.coef a = 0 -> Dec.coef b = 0 -> Dec.coef (Dec.add a b) = 0.
Proof.
  intros Ha Hb. rewrite add_exact. rewrite fix_zero; unfold exact_add, Dec.align; cbn [Dec.coef];
    rewrite Ha, Hb; reflexivity.
Qed.

Lemma mul_nonneg (a b : Dec.t) :
  0 <= Dec.coef a -> 0 <= Dec.coef b -> 0 <= Dec.coef (Dec.mul a b).
Proof. intros Ha Hb. unfold Dec.mul. apply fix_nonneg. cbn. nia. Qed.

Lemma mul_zero_r (a b : Dec.t) : Dec.coef b = 0 -> Dec.coef (Dec.mul a b) = 0.
Proof.
  intro Hb. unfold Dec.mul. rewrite fix_zero; cbn [Dec.coef]; rewrite Hb; ring.
Qed.

(** Rounding moves a quotient by less than one. *)
Lemma round_div_near (m : Dec.rounding) (n d : Z) :
  0 < d ->
  (Dec.round_div m n d - 1) * d <= n <= (Dec.round_div m n d + 1) * d.
Proof.
  intro Hd. destruct m; cbn [Dec.round_div].
  - unfold Dec.round_half_even.
    pose proof (Z.div_mod n d ltac:(lia)) as E.
    pose proof (Z.mod_pos_bound n d Hd) as R.
    destruct (2 * (n mod d) <? d); [nia|].
    destruct (d <? 2 * (n mod d)); [nia|].
    destruct (Z.even (n / d)); nia.
  - unfold Dec.round_half_up.
    pose proof (Z.div_mod (Z.abs n) d ltac:(lia)) as E.
    pose proof (Z.mod_pos_bound (Z.abs n) d Hd) as R.
    pose proof (Z.div_pos (Z.abs n) d ltac:(lia) Hd) as Q.
    destruct (Z.leb_spec d (2 * (Z.abs n mod d))); nia.
Qed.

Lemma round_div_zero (m : Dec.rounding) (d : Z) : 0 < d -> Dec.round_div m 0 d = 0.
Proof.
  intro Hd. destruct m; cbn [Dec.round_div].
  - unfold Dec.round_half_even. rewrite Z.div_0_l, Z.mod_0_l by lia.
    destruct (Z.ltb_spec (2 * 0) d); [reflexivity | lia].
  - reflexivity.
Qed.

(** [quantize] to cents. *)
Lemma quantize_zero (d : Dec.t) (e : Z) (m : Dec.rounding) :
  Dec.coef d = 0 -> Dec.quantize d e m = Ok (Dec.mk 0 e).
Proof. intro H. unfold Dec.quantize. rewrite H. reflexivity. Qed.

Lemma quantize_expo (d r : Dec.t) (e : Z) (m : Dec.rounding) :
  Dec.quantize d e m = Ok r -> Dec.expo r = e.
Proof.
  unfold Dec.quantize. destruct (Dec.coef d =? 0); [intro H; injection H as <-; reflexivity|].
  destruct (_ >? _); [discriminate|].
  destruct (_ >? _); [discriminate|].
  intro H; injection H as <-. unfold Dec.rescale. destruct (e <=? Dec.expo d); reflexivity.
Qed.

Lemma quantize_coef (d r : Dec.t) (e : Z) (m : Dec.rounding) :
  Dec.quantize d e m = Ok r ->
  Dec.coef r = if e <=? Dec.expo d then Dec.coef d * 10 ^ (Dec.expo d - e)
               else Dec.round_div m (Dec.coef d) (10 ^ (e - Dec.expo d)).
Proof.
  unfold Dec.quantize. destruct (Z.eqb_spec (Dec.coef d) 0) as [Z0|NZ].
  - intro H; injection H as <-. cbn [Dec.coef]. rewrite Z0.
    destruct (Z.leb_spec e (Dec.expo d)); [ring|].
    symmetry. apply round_div_zero. apply pow10_pos. lia.
  - destruct (_ >? _); [discriminate|].
    destruct (_ >? _); [discriminate|].
    intro H; injection H as <-. unfold Dec.rescale. destruct (e <=? Dec.expo d); reflexivity.
Qed.

Lemma quantize_le (d r : Dec.t) (e N : Z) (m : Dec.rounding) :
  Dec.quantize d e m = Ok r -> Dle d (Dec.mk N e) -> Dec.coef r <= N.
Proof.
  intros Hq H. rewrite (quantize_coef _ _ _ _ Hq).
  destruct (Z.leb_spec e (Dec.expo d)) as [L|L].
  - apply (Dle_scale _ _ e) in H; [| lia | cbn; lia].
    unfold Dec.align in H. cbn [Dec.coef Dec.expo] in H.
    rewrite Z.sub_diag, Z.pow_0_r, Z.mul_1_r in H. exact H.
  - apply (Dle_scale _ _ (Dec.expo d)) in H; [| lia | cbn; lia].
    unfold Dec.align in H. cbn [Dec.coef Dec.expo] in H.
    rewrite Z.sub_diag, Z.pow_0_r, Z.mul_1_r in H.
    apply round_div_le; [apply pow10_pos; lia | exact H].
Qed.

Lemma quantize_ge (d r : Dec.t) (e N : Z) (m : Dec.rounding) :
  Dec.quantize d e m = Ok r -> Dle (Dec.mk N e) d -> N <= Dec.coef r.
Proof.
  intros Hq H. rewrite (quantize_coef _ _ _ _ Hq).
  destruct (Z.leb_spec e (Dec.expo d)) as [L|L].
  - apply (Dle_scale _ _ e) in H; [| cbn; lia | lia].
    unfold Dec.align in H. cbn [Dec.coef Dec.expo] in H.
    rewrite Z.sub_diag, Z.pow_0_r, Z.mul_1_r in H. exact H.
  - apply (Dle_scale _ _ (Dec.expo d)) in H; [| cbn; lia | lia].
    unfold Dec.align in H. cbn [Dec.coef Dec.expo] in H.
    rewrite Z.sub_diag, Z.pow_0_r, Z.mul_1_r in H.
    apply round_div_ge; [apply pow10_pos; lia | exact H].
Qed.

(** The quantized value is within one unit of the last place. *)
Lemma quantize_near (d r : Dec.t) (e : Z) (m : Dec.rounding) :
  Dec.quantize d e m = Ok r ->
  Dle (Dec.mk (Dec.coef r - 1) e) d /\ Dle d (Dec.mk (Dec.coef r + 1) e).
Proof.
  intros Hq. pose proof (quantize_coef _ _ _ _ Hq) as Hc.
  destruct (Z.leb_spec e (Dec.expo d)) as [L|L].
  - split; apply (Dle_scale _ _ e); try (cbn; lia);
      unfold Dec.align; cbn [Dec.coef Dec.expo];
      rewrite Z.sub_diag, Z.pow_0_r, Z.mul_1_r; lia.
  - pose proof (round_div_near m (Dec.coef d) (10 ^ (e - Dec.expo d))
                  (pow10_pos (e - Dec.expo d) ltac:(lia))) as N.
    rewrite <- Hc in N.
    split; apply (Dle_scale _ _ (Dec.expo d)); try (cbn; lia);
      unfold Dec.align; cbn [Dec.coef Dec.expo];
      rewrite Z.sub_diag, Z.pow_0_r, Z.mul_1_r; lia.
Qed.

Lemma pow10_le_inv (a b : Z) : 0 <= a -> 0 <= b -> 10 ^ a <= 10 ^ b -> a <= b.
Proof.
  intros Ha Hb H. destruct (Z.le_gt_cases a b) as [L|L]; [exact L|].
  pose proof (pow10_lt b a). lia.
Qed.

Lemma bounded_scale (K : Z) (d : Dec.t) (m : Z) :
  m <= Dec.expo d -> m <= K ->
  (bounded K d <-> - 10 ^ (K - m) <= Dec.align d m <= 10 ^ (K - m)).
Proof.
  intros H1 H2. unfold bounded.
  rewrite (Dle_scale (Dec.mk (-1) K) d m), (Dle_scale d (Dec.mk 1 K) m) by (cbn; lia).
  change (Dec.align (Dec.mk (-1) K) m) with (-1 * 10 ^ (K - m)).
  change (Dec.align (Dec.mk 1 K) m) with (1 * 10 ^ (K - m)). lia.
Qed.

Lemma bounded_mono (K K' : Z) (d : Dec.t) : K <= K' -> bounded K d -> bounded K' d.
Proof.
  intros HK H. set (m := Z.min (Dec.expo d) K).
  apply (bounded_scale K d m) in H; [| lia | lia].
  apply (bounded_scale K' d m); [lia | lia|].
  pose proof (pow10_le (K - m) (K' - m) ltac:(lia)). lia.
Qed.

Lemma bounded_fix (K : Z) (d : Dec.t) : bounded K d -> bounded K (Dec.fix_ d).
Proof.
  intros [H1 H2]. split.
  - apply round_to_ge; [exact prec_pos | reflexivity | exact H1].
  - apply round_to_le; [exact prec_pos | reflexivity | exact H2].
Qed.

Lemma bounded_zero (K : Z) (d : Dec.t) : Dec.coef d = 0 -> bounded K d.
Proof.
  intro H. set (m := Z.min (Dec.expo d) K).
  apply (bounded_scale K d m); [lia | lia|].
  unfold Dec.align. rewrite H. pose proof (pow10_pos (K - m) ltac:(lia)). lia.
Qed.

(** The leading digit of a bounded value. *)
Lemma adjusted_le (K : Z) (d : Dec.t) :
  Dec.coef d <> 0 -> bounded K d -> Dec.adjusted d <= K.
Proof.
  intros Hnz H. set (m := Z.min (Dec.expo d) K).
  apply (bounded_scale K d m) in H; [| lia | lia].
  unfold Dec.align in H. unfold Dec.adjusted.
  set (n := Dec.ndigits (Z.abs (Dec.coef d))).
  destruct (ndigits_spec (Z.abs (Dec.coef d)) (Z.abs_nonneg _)) as (N1 & N2 & N3).
  fold n in N1, N2, N3. specialize (N3 ltac:(lia)).
  pose proof (pow10_pos (Dec.expo d - m) ltac:(lia)) as P.
  assert (Hx : 10 ^ (n - 1 + (Dec.expo d - m)) <= 10 ^ (K - m)).
  { rewrite pow10_split by lia. nia. }
  apply pow10_le_inv in Hx; lia.
Qed.

Lemma quantize_ok (d : Dec.t) (m : Dec.rounding) :
  bounded 25 d -> exists r, Dec.quantize d (-2) m = Ok r.
Proof.
  intro H. unfold Dec.quantize.
  destruct (Z.eqb_spec (Dec.coef d) 0) as [Z0|NZ]; [eexists; reflexivity|].
  pose proof (adjusted_le 25 d NZ H) as Ha.
  destruct (Z.gtb_spec (Dec.adjusted d - -2 + 1) Dec.prec) as [G|G];
    [unfold Dec.prec in G; lia|].
  assert (Hc : Z.abs (Dec.coef (Dec.rescale d (-2) m)) < 10 ^ 28).
  { unfold Dec.rescale. destruct (Z.leb_spec (-2) (Dec.expo d)) as [L|L]; cbn [Dec.coef].
    - apply (bounded_scale 25 d (-2)) in H; [| lia | lia].
      unfold Dec.align in H. change (25 - -2) with 27 in H.
      assert (10 ^ 27 < 10 ^ 28) by reflexivity. lia.
    - apply (bounded_scale 25 d (Dec.expo d)) in H; [| lia | lia].
      unfold Dec.align in H. rewrite Z.sub_diag, Z.pow_0_r, Z.mul_1_r in H.
      replace (25 - Dec.expo d) with (27 + (-2 - Dec.expo d)) in H by lia.
      rewrite pow10_split in H by lia.
      pose proof (pow10_pos (-2 - Dec.expo d) ltac:(lia)) as P.
      pose proof (round_div_le m (Dec.coef d) (10 ^ (-2 - Dec.expo d)) (10 ^ 27) P ltac:(lia)).
      pose proof (round_div_ge m (Dec.coef d) (10 ^ (-2 - Dec.expo d)) (- 10 ^ 27) P ltac:(lia)).
      assert (10 ^ 27 < 10 ^ 28) by reflexivity. lia. }
  pose proof (ndigits_le _ 28 (Z.abs_nonneg _) ltac:(lia) Hc) as Hn.
  destruct (Z.gtb_spec (Dec.ndigits (Z.abs (Dec.coef (Dec.rescale d (-2) m)))) Dec.prec) as [G'|G'];
    [unfold Dec.prec in G'; lia|].
  eexists; reflexivity.
Qed.

(** [div] *)
Lemma div_zero_num (a b : Dec.t) :
  Dec.coef b <> 0 -> Dec.coef a = 0 ->
  Dec.div a b = Ok (Dec.mk 0 (Dec.expo a - Dec.expo b)).
Proof.
  intros Hb Ha. unfold Dec.div.
  destruct (Z.eqb_spec (Dec.coef b) 0); [contradiction|].
  rewrite Ha. reflexivity.
Qed.

Lemma div_form (a b : Dec.t) :
  Dec.coef b <> 0 -> Dec.coef a <> 0 ->
  exists q,
    Dec.div a b
    = Ok (Dec.fix_ (Dec.mk (Z.sgn (Dec.coef a) * Z.sgn (Dec.coef b) * q)
                           (Dec.adjusted a - Dec.adjusted b - 29)))
    /\ 0 <= q <= 10 ^ 30.
Proof.
  intros Hb Ha. unfold Dec.div.
  destruct (Z.eqb_spec (Dec.coef b) 0); [contradiction|].
  destruct (Z.eqb_spec (Dec.coef a) 0); [contradiction|].
  set (na := Dec.ndigits (Z.abs (Dec.coef a))).
  set (nb := Dec.ndigits (Z.abs (Dec.coef b))).
  set (shift := nb - na + Dec.prec + 1).
  set (num := if 0 <=? shift then Z.abs (Dec.coef a) * 10 ^ shift else Z.abs (Dec.coef a)).
  set (den := if 0 <=? shift then Z.abs (Dec.coef b) else Z.abs (Dec.coef b) * 10 ^ (- shift)).
  set (q' := if negb (num mod den =? 0) && (num / den mod 5 =? 0)
             then num / den + 1 else num / den).
  exists q'. split.
  { do 3 f_equal. unfold Dec.adjusted. fold na nb. unfold shift, Dec.prec. lia. }
  destruct (ndigits_spec (Z.abs (Dec.coef a)) (Z.abs_nonneg _)) as (A1 & A2 & A3).
  destruct (ndigits_spec (Z.abs (Dec.coef b)) (Z.abs_nonneg _)) as (B1 & B2 & B3).
  fold na in A1, A2, A3. fold nb in B1, B2, B3.
  specialize (A3 ltac:(lia)). specialize (B3 ltac:(lia)).
  assert (Hden : 0 < den /\ 0 <= num /\ num < 10 ^ 30 * den).
  { unfold num, den. destruct (Z.leb_spec 0 shift) as [S|S].
    - pose proof (pow10_pos shift S) as P. split; [lia|]. split; [lia|].
      assert (Z.abs (Dec.coef a) * 10 ^ shift < 10 ^ (na + shift)).
      { rewrite pow10_split by lia. nia. }
      replace (na + shift) with (30 + (nb - 1)) in H by (unfold shift, Dec.prec; lia).
      rewrite pow10_split in H by lia.
      assert (0 < 10 ^ 30) by reflexivity. nia.
    - pose proof (pow10_pos (- shift) ltac:(lia)) as P. split; [nia|]. split; [lia|].
      assert (H : 10 ^ (nb - 1 + - shift) <= Z.abs (Dec.coef b) * 10 ^ (- shift)).
      { rewrite pow10_split by lia. nia. }
      replace na with (30 + (nb - 1 + - shift)) in A2 by (unfold shift, Dec.prec; lia).
      rewrite pow10_split in A2 by (unfold shift, Dec.prec in *; lia).
      assert (0 < 10 ^ 30) by reflexivity. nia. }
  destruct Hden as (D1 & D2 & D3).
  pose proof (Z.div_pos num den D2 D1) as Q0.
  assert (Q1 : num / den < 10 ^ 30) by (apply Z.div_lt_upper_bound; lia).
  unfold q'. destruct (negb _ && _); lia.
Qed.

Lemma div_nonneg (a b r : Dec.t) :
  0 <= Dec.coef a -> 0 < Dec.coef b -> Dec.div a b = Ok r -> 0 <= Dec.coef r.
Proof.
  intros Ha Hb H.
  destruct (Z.eq_dec (Dec.coef a) 0) as [Z0|NZ].
  - rewrite div_zero_num in H by lia. injection H as <-. cbn. lia.
  - destruct (div_form a b ltac:(lia) NZ) as (q & E & Hq).
    rewrite E in H. injection H as <-. apply fix_nonneg. cbn [Dec.coef].
    rewrite (Z.sgn_pos (Dec.coef a)), (Z.sgn_pos (Dec.coef b)) by lia. lia.
Qed.

Lemma div_bounded (a b : Dec.t) :
  Dec.coef b <> 0 ->
  exists r, Dec.div a b = Ok r
            /\ (Dec.coef a <> 0 -> bounded (Dec.adjusted a - Dec.adjusted b + 1) r)
            /\ (Dec.coef a = 0 -> Dec.coef r = 0).
Proof.
  intros Hb. destruct (Z.eq_dec (Dec.coef a) 0) as [Z0|NZ].
  - rewrite div_zero_num by assumption. eexists. split; [reflexivity|].
    split; [contradiction | reflexivity].
  - destruct (div_form a b Hb NZ) as (q & E & Hq).
    rewrite E. eexists. split; [reflexivity|]. split; [|contradiction].
    intros _. apply bounded_fix.
    set (e := Dec.adjusted a - Dec.adjusted b - 29).
    apply (bounded_scale _ _ e); [cbn; lia | lia|].
    unfold Dec.align. cbn [Dec.coef Dec.expo].
    rewrite Z.sub_diag, Z.pow_0_r, Z.mul_1_r.
    replace (Dec.adjusted a - Dec.adjusted b + 1 - e) with 30 by (unfold e; lia).
    pose proof (Z.sgn_spec (Dec.coef a)). pose proof (Z.sgn_spec (Dec.coef b)). nia.
Qed.

Lemma adjusted_of_Z (n : Z) : 0 <= Dec.adjusted (Dec.of_Z n).
Proof.
  unfold Dec.adjusted, Dec.of_Z. cbn [Dec.coef Dec.expo].
  destruct (ndigits_spec (Z.abs n) (Z.abs_nonneg _)) as (A & _). lia.
Qed.

(** [int(d)] *)
Lemma to_int_le (d : Dec.t) (N : Z) : 0 <= N -> Dle d (Dec.mk N 0) -> Dec.to_int d <= N.
Proof.
  intros HN H. unfold Dec.to_int.
  destruct (Z.leb_spec 0 (Dec.expo d)) as [L|L].
  - apply (Dle_scale _ _ 0) in H; [| lia | cbn; lia].
    unfold Dec.align in H. cbn [Dec.coef Dec.expo] in H.
    rewrite !Z.sub_0_r, Z.pow_0_r, Z.mul_1_r in H. exact H.
  - apply (Dle_scale _ _ (Dec.expo d)) in H; [| lia | cbn; lia].
    unfold Dec.align in H. cbn [Dec.coef Dec.expo] in H.
    rewrite Z.sub_diag, Z.pow_0_r, Z.mul_1_r, Z.sub_0_l in H.
    pose proof (pow10_pos (- Dec.expo d) ltac:(lia)) as P.
    destruct (Z.le_gt_cases 0 (Dec.coef d)) as [C|C].
    + rewrite Z.quot_div_nonneg by lia. apply Z.div_le_upper_bound; lia.
    + pose proof (Z.quot_opp_l (- Dec.coef d) (10 ^ (- Dec.expo d)) ltac:(lia)) as Q.
      rewrite Z.opp_involutive in Q.
      pose proof (Z.quot_pos (- Dec.coef d) (10 ^ (- Dec.expo d)) ltac:(lia) P). lia.
Qed.

(** ** The schedule loop *)

Section LedgerFacts.

Variables (emi_ monthly_rate : Dec.t).
Variables (prepayment : option Dec.t) (prepayment_month : option Z).

Local Abbreviation row_of := (ledger_row emi_ monthly_rate prepayment prepayment_month).
Local Abbreviation closing := (closing_balance emi_ monthly_rate prepayment prepayment_month).
Local Abbreviation running := (running_balance emi_ monthly_rate prepayment prepayment_month).
Local Abbreviation portion := (principal_portion emi_ monthly_rate prepayment prepayment_month).
Local Abbreviation interest := (interest_portion monthly_rate).

Lemma loop_body_ledger (month : Z) (st : Loan.loop_state) :
  Loan.loop_body emi_ monthly_rate prepayment prepayment_month month st
  = (r <- row_of month (Loan.balance st) ;;
     Ok (Loan.mk_state (Loan.schedule st ++ [r])
           (closing month (Loan.balance st))
           (Dec.add (Loan.total_interest_paid st) (interest (Loan.balance st)))
           (Dec.add (Loan.total_principal_paid st) (portion month (Loan.balance st))))).
Proof.
  unfold Loan.loop_body, ledger_row, closing_balance, principal_portion,
    reported_emi, reported_prepayment, interest_portion.
  destruct (Loan.prepayment_in prepayment prepayment_month month);
    repeat (match goal with
            | |- context [bind ?x _] => destruct x; cbn [bind]
            end; try reflexivity).
Qed.

Lemma running_balance_last (k : nat) (month : Z) (bal : Dec.t) :
  running (S k) month bal = closing (month + Z.of_nat k) (running k month bal).
Proof.
  revert month bal. induction k as [|k IH]; intros month bal.
  - cbn. rewrite Z.add_0_r. reflexivity.
  - change (running (S (S k)) month bal)
      with (running (S k) (month + 1) (closing month bal)).
    rewrite IH. cbn [running_balance].
    replace (month + 1 + Z.of_nat k) with (month + Z.of_nat (S k)) by lia.
    reflexivity.
Qed.

(** What the loop leaves behind: one row per month it ran, each computed
    from the running balance; the balance stays positive until the last
    row, and the loop ends with the term or with the first balance that is
    not positive. *)
Lemma loop_ledger (n : nat) :
  forall (month : Z) (st st' : Loan.loop_state),
    Loan.loop emi_ monthly_rate prepayment prepayment_month n month st = Ok st' ->
    exists rows,
      Loan.schedule st' = Loan.schedule st ++ rows
      /\ (List.length rows <= n)%nat
      /\ (n <> O -> rows <> [])
      /\ Loan.balance st' = running (List.length rows) month (Loan.balance st)
      /\ (forall i r, nth_error rows i = Some r ->
            row_of (month + Z.of_nat i) (running i month (Loan.balance st)) = Ok r)
      /\ (forall i, (0 < i < List.length rows)%nat ->
            Dlt Dec.zero (running i month (Loan.balance st)))
      /\ (List.length rows = n
          \/ Dle (running (List.length rows) month (Loan.balance st)) Dec.zero).
Proof.
  induction n as [|n IH]; intros month st st' H.
  - cbn in H. injection H as <-. exists [].
    split; [rewrite app_nil_r; reflexivity|].
    split; [cbn; lia|].
    split; [congruence|].
    split; [reflexivity|].
    split; [intros i r Hi; destruct i; discriminate Hi|].
    split; [cbn; intros; lia | left; reflexivity].
  - cbn [Loan.loop] in H. rewrite loop_body_ledger in H.
    destruct (row_of month (Loan.balance st)) as [r|e] eqn:Hr; [|discriminate H].
    cbn [bind] in H.
    set (st1 := Loan.mk_state _ _ _ _) in H.
    destruct (Dec.leb (Loan.balance st1) Dec.zero) eqn:Hz.
    + injection H as <-. exists [r]. cbn [List.length running_balance].
      split; [reflexivity|].
      split; [lia|].
      split; [congruence|].
      split; [reflexivity|].
      split.
      { intros i r' Hi. destruct i as [|i]; [|destruct i; discriminate Hi].
        cbn in Hi. injection Hi as <-. cbn. rewrite Z.add_0_r. exact Hr. }
      split; [intros; lia|].
      right. exact Hz.
    + destruct (IH (month + 1) st1 st' H) as (rows & E & L & _ & B & R & P & F).
      exists (r :: rows). cbn [List.length running_balance].
      change (Loan.balance st1) with (closing month (Loan.balance st)) in *.
      change (Loan.schedule st1) with (Loan.schedule st ++ [r]) in E.
      split; [rewrite E, <- app_assoc; reflexivity|].
      split; [lia|].
      split; [congruence|].
      split; [exact B|].
      split.
      { intros i r' Hi. destruct i as [|i].
        - cbn in Hi. injection Hi as <-. cbn. rewrite Z.add_0_r. exact Hr.
        - cbn in Hi. specialize (R i r' Hi). cbn [running_balance].
          replace (month + Z.of_nat (S i)) with (month + 1 + Z.of_nat i) by lia.
          exact R. }
      split.
      { intros i Hi. destruct i as [|i]; [lia|]. cbn [running_balance].
        destruct i as [|i].
        - cbn. apply leb_false_Dlt. exact Hz.
        - apply P. lia. }
      destruct F as [F|F]; [left; lia | right; exact F].
Qed.

(** The interest account never goes negative, and stays at zero when the
    rate is zero. *)
Lemma loop_interest (n : nat) :
  forall (month : Z) (st st' : Loan.loop_state),
    Loan.loop emi_ monthly_rate prepayment prepayment_month n month st = Ok st' ->
    0 <= Dec.coef monthly_rate ->
    (0 < Dec.coef (Loan.balance st) -> 0 <= Dec.coef (Loan.total_interest_paid st) ->
     0 <= Dec.coef (Loan.total_interest_paid st'))
    /\ (Dec.coef monthly_rate = 0 -> Dec.coef (Loan.total_interest_paid st) = 0 ->
        Dec.coef (Loan.total_interest_paid st') = 0).
Proof.
  induction n as [|n IH]; intros month st st' H Hr.
  - cbn in H. injection H as <-. tauto.
  - cbn [Loan.loop] in H. rewrite loop_body_ledger in H.
    destruct (row_of month (Loan.balance st)) as [r|e] eqn:Hrow; [|discriminate H].
    cbn [bind] in H.
    set (st1 := Loan.mk_state _ _ _ _) in H.
    assert (S1 : (0 < Dec.coef (Loan.balance st) ->
                  0 <= Dec.coef (Loan.total_interest_paid st) ->
                  0 <= Dec.coef (Loan.total_interest_paid st1))
                 /\ (Dec.coef monthly_rate = 0 ->
                     Dec.coef (Loan.total_interest_paid st) = 0 ->
                     Dec.coef (Loan.total_interest_paid st1) = 0)).
    { subst st1. cbn [Loan.total_interest_paid]. unfold interest_portion. split.
      - intros Hb Ht. apply add_nonneg; [exact Ht|]. apply mul_nonneg; lia.
      - intros H0 Ht. apply add_zero; [exact Ht|]. apply mul_zero_r. exact H0. }
    destruct (Dec.leb (Loan.balance st1) Dec.zero) eqn:Hz.
    + injection H as <-. exact S1.
    + apply leb_false_Dlt, Dlt_zero_l in Hz.
      destruct (IH (month + 1) st1 st' H Hr) as [I1 I2].
      destruct S1 as [S1 S2]. split; intros; [apply I1 | apply I2]; auto.
Qed.

End LedgerFacts.

(** ** The loan calculator *)

Lemma calculate_loan_valid (amount rate duration : Dec.t) (loan_type : string)
    (prepayment : option Dec.t) (prepayment_month : option Z) (detailed : bool) :
  valid_loan amount rate duration -> reducing loan_type ->
  Loan.calculate_loan amount rate duration loan_type prepayment prepayment_month detailed
  = (res <- Loan.calculate_reducing_balance_loan amount rate duration
              prepayment prepayment_month ;;
     if negb detailed
     then Ok (Loan.Simple (Loan.emi res) (Loan.total_interest res)
                (Loan.total_payment res) (Loan.principal res))
     else Ok (Loan.Detailed res)).
Proof.
  intros (V1 & V2 & V3 & V4 & V5 & V6) Hr. unfold Loan.calculate_loan.
  rewrite (proj2 (leb_false_Dlt amount Dec.zero) V1).
  rewrite (proj2 (ltb_false_Dle rate Dec.zero) V2).
  rewrite (proj2 (leb_false_Dlt duration Dec.zero) V3).
  rewrite (proj2 (ltb_false_Dle _ _) V4).
  rewrite (proj2 (ltb_false_Dle _ _) V5).
  rewrite (proj2 (ltb_false_Dle _ _) V6).
  destruct (String.eqb_spec (lower loan_type) "flat"); [contradiction | reflexivity].
Qed.

Lemma calculate_loan_validated (amount rate duration : Dec.t) (loan_type : string)
    (prepayment : option Dec.t) (prepayment_month : option Z) (detailed : bool)
    (res : Loan.loan_result) :
  Loan.calculate_loan amount rate duration loan_type prepayment prepayment_month detailed
  = Ok res ->
  valid_loan amount rate duration.
Proof.
  unfold Loan.calculate_loan, valid_loan.
  destruct (Dec.leb amount Dec.zero) eqn:E1; [discriminate|].
  destruct (Dec.ltb rate Dec.zero) eqn:E2; [discriminate|].
  destruct (Dec.leb duration Dec.zero) eqn:E3; [discriminate|].
  destruct (Dec.ltb (Dec.of_Z 100000000) amount) eqn:E4; [discriminate|].
  destruct (Dec.ltb (Dec.of_Z 50) rate) eqn:E5; [discriminate|].
  destruct (Dec.ltb (Dec.of_Z 40) duration) eqn:E6; [discriminate|].
  intros _.
  repeat split; try (apply leb_false_Dlt; assumption); apply ltb_false_Dle; assumption.
Qed.

(** What a successful run of [calculate_reducing_balance_loan] went through. *)
Lemma reducing_balance_inv (principal annual_rate years : Dec.t)
    (prepayment : option Dec.t) (prepayment_month : option Z) (d : Loan.loan_detail) :
  Loan.calculate_reducing_balance_loan principal annual_rate years
    prepayment prepayment_month = Ok d ->
  exists mr e0 st,
    monthly_rate_of annual_rate = Ok mr
    /\ Loan.raw_emi principal mr (months_of years) = Ok e0
    /\ Loan.q2 e0 = Ok (Loan.emi d)
    /\ Loan.loop (Loan.emi d) mr prepayment prepayment_month
         (Z.to_nat (months_of years)) 1
         (Loan.mk_state [] principal Dec.zero Dec.zero) = Ok st
    /\ Loan.amortization_schedule d = Loan.schedule st
    /\ Loan.q2 (Loan.total_interest_paid st) = Ok (Loan.total_interest d)
    /\ Loan.principal d = principal
    /\ Loan.duration_months d = months_of years
    /\ Loan.actual_months_to_payoff d = Z.of_nat (List.length (Loan.schedule st)).
Proof.
  intro H. unfold Loan.calculate_reducing_balance_loan in H.
  fold (months_of years) in H. fold (monthly_rate_of annual_rate) in H.
  cbv zeta in H.
  repeat match type of H with
         | bind ?x _ = Ok _ =>
             let E := fresh "E" in
             destruct x eqn:E; cbn [bind] in H; [|discriminate H]
         end.
  injection H as <-. cbn.
  eexists _, _, _. repeat split; eassumption.
Qed.

Lemma calculate_loan_detailed_inv (amount rate duration : Dec.t) (loan_type : string)
    (prepayment : option Dec.t) (prepayment_month : option Z) (detailed : bool)
    (res : Loan.loan_result) :
  reducing loan_type ->
  Loan.calculate_loan amount rate duration loan_type prepayment prepayment_month detailed
  = Ok res ->
  valid_loan amount rate duration
  /\ exists d,
      Loan.calculate_reducing_balance_loan amount rate duration
        prepayment prepayment_month = Ok d
      /\ emi_of res = Loan.emi d
      /\ total_interest_of res = Loan.total_interest d
      /\ (detailed = true -> res = Loan.Detailed d).
Proof.
  intros Hr H. pose proof (calculate_loan_validated _ _ _ _ _ _ _ _ H) as V.
  split; [exact V|].
  rewrite (calculate_loan_valid _ _ _ _ _ _ _ V Hr) in H.
  destruct (Loan.calculate_reducing_balance_loan _ _ _ _ _) as [d|]; [|discriminate].
  cbn [bind] in H. exists d. split; [reflexivity|].
  destruct detailed; cbn [negb] in H; injection H as <-; repeat split; try reflexivity.
  discriminate.
Qed.

Lemma quantize_digits (d r : Dec.t) (e : Z) (m : Dec.rounding) :
  Dec.quantize d e m = Ok r -> Z.abs (Dec.coef r) < 10 ^ 28.
Proof.
  unfold Dec.quantize.
  destruct (Dec.coef d =? 0); [intro H; injection H as <-; reflexivity|].
  destruct (_ >? _); [discriminate|].
  destruct (Z.gtb_spec (Dec.ndigits (Z.abs (Dec.coef (Dec.rescale d e m)))) Dec.prec)
    as [G|G]; [discriminate|].
  intro H; injection H as <-.
  destruct (ndigits_spec _ (Z.abs_nonneg (Dec.coef (Dec.rescale d e m)))) as (A & B & _).
  pose proof (pow10_le (Dec.ndigits (Z.abs (Dec.coef (Dec.rescale d e m)))) 28
                ltac:(unfold Dec.prec in G; lia)). lia.
Qed.

Lemma quantize_nonneg (d r : Dec.t) (e : Z) (m : Dec.rounding) :
  Dec.quantize d e m = Ok r -> 0 <= Dec.coef d -> 0 <= Dec.coef r.
Proof.
  intros Hq H. apply (quantize_ge d r e 0 m Hq).
  set (s := Z.min e (Dec.expo d)).
  apply (Dle_scale _ _ s); [cbn; lia | lia|].
  destruct (align_sign d s ltac:(lia)) as (A & _).
  unfold Dec.align at 1. cbn [Dec.coef]. lia.
Qed.

(** Principal and interest, each rounded to cents, add up to the payment
    within one cent. *)
Lemma cents_sum_near (emi ip p i : Dec.t) :
  Dec.expo emi = -2 ->
  Loan.q2 ip = Ok i -> Loan.q2 (Dec.sub emi ip) = Ok p ->
  -1 <= Dec.coef p + Dec.coef i - Dec.coef emi <= 1.
Proof.
  unfold Loan.q2. intros He Hi Hp.
  destruct (quantize_near _ _ _ _ Hi) as [N1 N2].
  pose proof (quantize_digits _ _ _ _ Hp) as Dp.
  assert (P28 : 0 < 10 ^ 28) by reflexivity.
  assert (Hemi : forall m, m <= -2 -> Dec.align emi m = Dec.coef emi * 10 ^ (-2 - m)).
  { intros m Hm. unfold Dec.align. rewrite He. reflexivity. }
  assert (Hlow : forall m, m <= Dec.expo ip -> m <= -2 ->
                  (Dec.coef i - 1) * 10 ^ (-2 - m) <= Dec.align ip m).
  { intros m H1 H2. apply (Dle_scale _ _ m) in N1; [exact N1 | cbn; lia | lia]. }
  assert (Hupp : forall m, m <= Dec.expo ip -> m <= -2 ->
                  Dec.align ip m <= (Dec.coef i + 1) * 10 ^ (-2 - m)).
  { intros m H1 H2. apply (Dle_scale _ _ m) in N2; [exact N2 | lia | cbn; lia]. }
  split.
  - (* the sum is not below the payment by more than a cent *)
    set (L := Dec.coef emi - Dec.coef i - 1).
    destruct (Z.le_gt_cases L (- 10 ^ 28)) as [C1|C1]; [lia|].
    destruct (Z.lt_ge_cases L (10 ^ 28)) as [C2|C2].
    + assert (B : Dle (Dec.mk L (-2)) (Dec.sub emi ip)).
      { apply add_ge; [unfold Dec.prec; lia|].
        intros m H1 H2 H3. cbn [Dec.expo Dec.neg] in H1, H2.
        rewrite neg_align, Hemi by lia. rewrite He in H1.
        specialize (Hupp m ltac:(lia) ltac:(lia)). unfold L. nia. }
      pose proof (quantize_ge _ _ _ _ _ Hp B). unfold L in *. lia.
    + exfalso.
      assert (B : Dle (Dec.mk 1 26) (Dec.sub emi ip)).
      { apply add_ge; [reflexivity|].
        intros m H1 H2 H3. cbn [Dec.expo Dec.neg] in H1, H2.
        rewrite neg_align, Hemi by (rewrite He in H1; lia). rewrite He in H1.
        specialize (Hupp m ltac:(lia) ltac:(lia)).
        replace (26 - m) with (28 + (-2 - m)) by lia. rewrite pow10_split by lia.
        pose proof (pow10_pos (-2 - m) ltac:(lia)). unfold L in C2. nia. }
      assert (B' : Dle (Dec.mk (10 ^ 28) (-2)) (Dec.sub emi ip)).
      { eapply Dle_trans; [|exact B]. apply (Dle_scale _ _ (-2)); [cbn; lia | cbn; lia|].
        vm_compute. discriminate. }
      pose proof (quantize_ge _ _ _ _ _ Hp B'). lia.
  - set (U := Dec.coef emi - Dec.coef i + 1).
    destruct (Z.le_gt_cases (10 ^ 28) U) as [C1|C1]; [lia|].
    destruct (Z.lt_ge_cases (- 10 ^ 28) U) as [C2|C2].
    + assert (B : Dle (Dec.sub emi ip) (Dec.mk U (-2))).
      { apply add_le; [unfold Dec.prec; lia|].
        intros m H1 H2 H3. cbn [Dec.expo Dec.neg] in H1, H2.
        rewrite neg_align, Hemi by (rewrite He in H1; lia). rewrite He in H1.
        specialize (Hlow m ltac:(lia) ltac:(lia)). unfold U. nia. }
      pose proof (quantize_le _ _ _ _ _ Hp B). unfold U in *. lia.
    + exfalso.
      assert (B : Dle (Dec.sub emi ip) (Dec.mk (-1) 26)).
      { apply add_le; [reflexivity|].
        intros m H1 H2 H3. cbn [Dec.expo Dec.neg] in H1, H2.
        rewrite neg_align, Hemi by (rewrite He in H1; lia). rewrite He in H1.
        specialize (Hlow m ltac:(lia) ltac:(lia)).
        replace (26 - m) with (28 + (-2 - m)) by lia. rewrite pow10_split by lia.
        pose proof (pow10_pos (-2 - m) ltac:(lia)). unfold U in C2. nia. }
      assert (B' : Dle (Dec.sub emi ip) (Dec.mk (- 10 ^ 28) (-2))).
      { eapply Dle_trans; [exact B|]. apply (Dle_scale _ _ (-2)); [cbn; lia | cbn; lia|].
        vm_compute. discriminate. }
      pose proof (quantize_le _ _ _ _ _ Hp B'). lia.
Qed.

(** The rows of a detailed result, month by month. *)
Lemma ledger_of_result (amount rate duration : Dec.t) (loan_type : string)
    (prepayment : option Dec.t) (prepayment_month : option Z) (d : Loan.loan_detail) :
  reducing loan_type ->
  Loan.calculate_loan amount rate duration loan_type prepayment prepayment_month true
  = Ok (Loan.Detailed d) ->
  exists mr,
    monthly_rate_of rate = Ok mr
    /\ Dec.expo (Loan.emi d) = -2
    /\ Dlt Dec.zero amount
    /\ (List.length (Loan.amortization_schedule d) <= Z.to_nat (months_of duration))%nat
    /\ (forall i row, nth_error (Loan.amortization_schedule d) i = Some row ->
          ledger_row (Loan.emi d) mr prepayment prepayment_month (1 + Z.of_nat i)
            (running_balance (Loan.emi d) mr prepayment prepayment_month i 1 amount)
          = Ok row)
    /\ (forall i, (0 < i < List.length (Loan.amortization_schedule d))%nat ->
          Dlt Dec.zero
            (running_balance (Loan.emi d) mr prepayment prepayment_month i 1 amount))
    /\ (List.length (Loan.amortization_schedule d) = Z.to_nat (months_of duration)
        \/ Dle (running_balance (Loan.emi d) mr prepayment prepayment_month
                  (List.length (Loan.amortization_schedule d)) 1 amount) Dec.zero).
Proof.
  intros Hr H.
  destruct (calculate_loan_detailed_inv _ _ _ _ _ _ _ _ Hr H) as (V & d' & Hd & _ & _ & Hdet).
  specialize (Hdet eq_refl). injection Hdet as <-.
  destruct (reducing_balance_inv _ _ _ _ _ _ Hd)
    as (mr & e0 & st & Hmr & He0 & Hemi & Hloop & Hs & _).
  destruct (loop_ledger _ _ _ _ _ _ _ _ Hloop) as (rows & E & L & _ & _ & R & P & F).
  cbn [Loan.schedule Loan.balance app] in E, R, P, F.
  rewrite Hs, E.
  exists mr. split; [exact Hmr|].
  split; [exact (quantize_expo _ _ _ _ Hemi)|].
  split; [exact (proj1 V)|].
  split; [exact L|].
  split; [exact R|].
  split; [exact P|exact F].
Qed.

Lemma ledger_row_fields (emi_ mr : Dec.t) (prepayment : option Dec.t)
    (prepayment_month : option Z) (month : Z) (bal : Dec.t) (row : Loan.row) :
  ledger_row emi_ mr prepayment prepayment_month month bal = Ok row ->
  Loan.r_month row = month
  /\ Loan.r_emi row = reported_emi emi_ prepayment prepayment_month month
  /\ Loan.r_prepayment row = reported_prepayment prepayment prepayment_month month
  /\ Loan.q2 (principal_portion emi_ mr prepayment prepayment_month month bal)
     = Ok (Loan.r_principal row)
  /\ Loan.q2 (interest_portion mr bal) = Ok (Loan.r_interest row)
  /\ Loan.q2 (Dec.max (closing_balance emi_ mr prepayment prepayment_month month bal)
                Dec.zero)
     = Ok (Loan.r_balance row).
Proof.
  unfold ledger_row.
  destruct (Loan.q2 (principal_portion _ _ _ _ _ _)) as [p|]; [|discriminate].
  destruct (Loan.q2 (interest_portion _ _)) as [i|]; [|discriminate].
  destruct (Loan.q2 (Dec.max _ _)) as [b|]; [|discriminate].
  cbn [bind]. intro H. injection H as <-. cbn. repeat split; reflexivity.
Qed.




(** C1, as stated, fails.  A loan of 101 at 6% over one year with a
    prepayment of 50 in month 1 (EMI 8.69): the first row reports principal
    58.19 and interest 0.51 against an EMI of 58.69, and the balance 42.82
    where 101 - 58.19 is 42.81; the loan is paid off in month 7 with a
    reported balance of 0.00, and the principal column adds up to 109.69,
    a full EMI above the 101 lent. *)
Lemma ledger_identities_fail :
  exists d first last,
    Loan.calculate_loan (Dec.mk 1010 (-1)) (Dec.mk 60 (-1)) (Dec.of_Z 1) "reducing"
      (Some (Dec.mk 500 (-1))) (Some 1) true = Ok (Loan.Detailed d)
    /\ Loan.principal d = Dec.mk 1010 (-1)
    /\ nth_error (Loan.amortization_schedule d) 0 = Some first
    /\ Loan.r_emi first = Dec.mk 5869 (-2)
    /\ Loan.r_principal first = Dec.mk 5819 (-2)
    /\ Loan.r_interest first = Dec.mk 51 (-2)
    /\ Loan.r_balance first = Dec.mk 4282 (-2)
    /\ 5819 + 51 <> 5869
    /\ 10100 - 5819 <> 4282
    /\ List.length (Loan.amortization_schedule d) = 7%nat
    /\ nth_error (Loan.amortization_schedule d) 6 = Some last
    /\ Loan.r_balance last = Dec.mk 0 (-2)
    /\ all_in_cents Loan.r_principal (Loan.amortization_schedule d) = true
    /\ sum_cents Loan.r_principal (Loan.amortization_schedule d) = 10969
    /\ 10969 - 10100 = 869.
Proof.
  eexists _, _, _. split; [vm_compute; reflexivity|].
  repeat split; try (vm_compute; reflexivity); lia.
Qed.

(** C1, amended.  In the schedule of a reducing-balance loan, row [i]
    (month [i + 1]) is computed from the unrounded running balance that
    opens the month, which is positive: its interest is that balance times
    the monthly rate, its principal portion is the EMI minus that interest
    (plus the prepayment in the prepayment month), each rounded half-up to
    cents on its own; the running balance goes down by the unrounded
    principal portion, and the row reports it clamped at zero and rounded
    to cents; the reported EMI is the scheduled EMI (plus the prepayment in
    the prepayment month).  In a row without prepayment the three amounts
    are in cents and principal plus interest is within one cent of the
    EMI.  The schedule ends with the term, or with the first month whose
    closing balance is not positive. *)
Theorem ledger_rows_characterised :
  forall (amount rate duration : Dec.t) (loan_type : string)
         (prepayment : option Dec.t) (prepayment_month : option Z)
         (d : Loan.loan_detail),
    reducing loan_type ->
    Loan.calculate_loan amount rate duration loan_type prepayment prepayment_month true
    = Ok (Loan.Detailed d) ->
    exists mr,
      monthly_rate_of rate = Ok mr
      /\ let rows := Loan.amortization_schedule d in
         let opening i :=
           running_balance (Loan.emi d) mr prepayment prepayment_month i 1 amount in
         let interest i := Dec.mul (opening i) mr in
         let extra i := Loan.prepayment_in prepayment prepayment_month (1 + Z.of_nat i) in
         let portion i :=
           match extra i with
           | Some p => Dec.add (Dec.sub (Loan.emi d) (interest i)) p
           | None => Dec.sub (Loan.emi d) (interest i)
           end in
         (forall i row, nth_error rows i = Some row ->
            Dlt Dec.zero (opening i)
            /\ Loan.q2 (interest i) = Ok (Loan.r_interest row)
            /\ Loan.q2 (portion i) = Ok (Loan.r_principal row)
            /\ opening (S i) = Dec.sub (opening i) (portion i)
            /\ Loan.q2 (Dec.max (opening (S i)) Dec.zero) = Ok (Loan.r_balance row)
            /\ Loan.r_emi row = match extra i with
                                | Some p => Dec.add (Loan.emi d) p
                                | None => Loan.emi d
                                end
            /\ (extra i = None ->
                Dec.expo (Loan.r_principal row) = -2
                /\ Dec.expo (Loan.r_interest row) = -2
                /\ Dec.expo (Loan.r_emi row) = -2
                /\ -1 <= Dec.coef (Loan.r_principal row) + Dec.coef (Loan.r_interest row)
                         - Dec.coef (Loan.r_emi row) <= 1))
         /\ (List.length rows = Z.to_nat (months_of duration)
             \/ Dle (opening (List.length rows)) Dec.zero).
Proof.
  intros amount rate duration loan_type prepayment prepayment_month d Hr H.
  destruct (ledger_of_result _ _ _ _ _ _ _ Hr H) as (mr & Hmr & He & Hpos & L & R & P & F).
  exists mr. split; [exact Hmr|]. cbv zeta. split; [|exact F].
  intros i row Hi.
  destruct (ledger_row_fields _ _ _ _ _ _ _ (R i row Hi)) as (F1 & F2 & F3 & F4 & F5 & F6).
  unfold reported_emi in F2.
  unfold principal_portion, interest_portion in F4. unfold interest_portion in F5.
  assert (Hclose : running_balance (Loan.emi d) mr prepayment prepayment_month (S i) 1 amount
                   = Dec.sub (running_balance (Loan.emi d) mr prepayment prepayment_month i 1 amount)
                       (match Loan.prepayment_in prepayment prepayment_month (1 + Z.of_nat i) with
                        | Some p =>
                            Dec.add (Dec.sub (Loan.emi d)
                                       (Dec.mul (running_balance (Loan.emi d) mr prepayment
                                                   prepayment_month i 1 amount) mr)) p
                        | None =>
                            Dec.sub (Loan.emi d)
                              (Dec.mul (running_balance (Loan.emi d) mr prepayment
                                          prepayment_month i 1 amount) mr)
                        end)).
  { rewrite running_balance_last. reflexivity. }
  split.
  { destruct i as [|i]; [exact Hpos|]. apply P.
    pose proof (proj1 (nth_error_Some _ _) ltac:(rewrite Hi; discriminate)). lia. }
  split; [exact F5|]. split; [exact F4|]. split; [exact Hclose|].
  split.
  { rewrite running_balance_last. exact F6. }
  split; [exact F2|].
  intro Hnone. rewrite Hnone in F2, F4.
  split; [exact (quantize_expo _ _ _ _ F4)|].
  split; [exact (quantize_expo _ _ _ _ F5)|].
  split; [rewrite F2; exact He|].
  rewrite F2. exact (cents_sum_near _ _ _ _ He F5 F4).
Qed.

(** ** The zero-rate loan *)

Lemma to_Q_zero_iff (d : Dec.t) : (Dec.to_Q d == 0)%Q <-> Dec.coef d = 0.
Proof.
  unfold Dec.to_Q. destruct (Z.leb_spec 0 (Dec.expo d)) as [L|L].
  - pose proof (pow10_pos (Dec.expo d) L) as P.
    unfold Qeq, inject_Z. cbn [Qnum Qden]. split; intro H; nia.
  - unfold Qeq. cbn [Qnum Qden]. split; intro H; lia.
Qed.

Lemma mul_zero_l (a b : Dec.t) : Dec.coef a = 0 -> Dec.coef (Dec.mul a b) = 0.
Proof.
  intro Ha. unfold Dec.mul. rewrite fix_zero; cbn [Dec.coef]; rewrite Ha; ring.
Qed.

Lemma break_even_zero_rate_ok (principal annual_rate : Q) (months : Z) :
  (annual_rate == 0)%Q -> months <> 0 ->
  exists b, Loan.calculate_break_even principal annual_rate months = Ok b.
Proof.
  intros Hr Hm. unfold Loan.calculate_break_even.
  rewrite Float_div_ok by (intro H0; discriminate H0). cbn [bind].
  assert (Hz : Float.eqb (Qred (annual_rate / Float.of_Z (12 * 100))) 0 = true).
  { unfold Float.eqb. apply Qeq_bool_iff. rewrite Qred_correct, Hr.
    unfold Qdiv. apply Qmult_0_l. }
  rewrite Hz.
  rewrite Float_div_ok by (unfold Float.of_Z, Qeq; cbn; lia). cbn [bind].
  rewrite Float_div_ok by (intro H0; discriminate H0). cbn [bind].
  eexists; reflexivity.
Qed.

Lemma affordability_ok (emi principal : Q) :
  exists a, Loan.calculate_affordability_metrics emi principal = Ok a.
Proof.
  unfold Loan.calculate_affordability_metrics.
  rewrite Float_div_ok by (intro H0; discriminate H0). cbn [bind].
  eexists; reflexivity.
Qed.

Lemma month_breakdown_ok (r : Loan.row) (emi : Dec.t) :
  Dec.coef emi <> 0 -> exists b, Loan.month_breakdown (Some r) emi = Ok b.
Proof.
  intro H. unfold Loan.month_breakdown.
  rewrite !Float_div_ok by (rewrite to_Q_zero_iff; exact H). cbn [bind].
  eexists; reflexivity.
Qed.

Lemma months_le_480 (duration : Dec.t) :
  Dle duration (Dec.of_Z 40) -> months_of duration <= 480.
Proof.
  intro H. unfold months_of. apply to_int_le; [lia|].
  unfold Dec.mul. apply round_to_le; [exact prec_pos | reflexivity|].
  set (m := Z.min (Dec.expo duration) 0).
  apply (Dle_scale _ _ m) in H; [| lia | cbn; lia].
  apply (Dle_scale _ _ m); [cbn; lia | cbn; lia|].
  unfold Dec.align in *. cbn [Dec.coef Dec.expo Dec.of_Z] in *.
  rewrite Z.add_0_r. lia.
Qed.

Section ZeroRate.

Variables (emi_ monthly_rate : Dec.t) (prepayment_month : option Z).
Hypothesis rate_zero : Dec.coef monthly_rate = 0.
Hypothesis emi_cents : Dec.expo emi_ = -2.
Hypothesis emi_range : 0 <= Dec.coef emi_ <= 10 ^ 11.

Lemma zero_rate_row (month : Z) (bal : Dec.t) :
  Dlt Dec.zero bal -> Dle bal (Dec.mk 1 9) ->
  (exists r, ledger_row emi_ monthly_rate None prepayment_month month bal = Ok r)
  /\ Dle (closing_balance emi_ monthly_rate None prepayment_month month bal) (Dec.mk 1 9).
Proof.
  intros Hpos Hle.
  assert (Hip : Dec.coef (interest_portion monthly_rate bal) = 0)
    by (apply mul_zero_r; exact rate_zero).
  assert (Hpp : principal_portion emi_ monthly_rate None prepayment_month month bal
                = Dec.sub emi_ (interest_portion monthly_rate bal)) by reflexivity.
  set (ip := interest_portion monthly_rate bal) in *.
  set (pp := principal_portion emi_ monthly_rate None prepayment_month month bal) in *.
  assert (P11 : 10 ^ 11 = 100000000000) by reflexivity.
  assert (Hsum : forall m, m <= Dec.expo emi_ -> m <= Dec.expo (Dec.neg ip) ->
                   Dec.align emi_ m + Dec.align (Dec.neg ip) m
                   = Dec.coef emi_ * 10 ^ (-2 - m)).
  { intros m H1 H2. unfold Dec.align. cbn [Dec.neg Dec.coef Dec.expo].
    rewrite Hip, emi_cents. ring. }
  assert (Bpp : bounded 9 pp /\ 0 <= Dec.coef pp).
  { rewrite Hpp. split; [split|].
    - apply add_ge; [reflexivity|]. intros m H1 H2 H3. rewrite Hsum by assumption.
      rewrite emi_cents in H1.
      pose proof (pow10_pos (9 - m) ltac:(lia)). pose proof (pow10_pos (-2 - m) ltac:(lia)).
      nia.
    - apply add_le; [reflexivity|]. intros m H1 H2 H3. rewrite Hsum by assumption.
      rewrite emi_cents in H1.
      replace (9 - m) with (11 + (-2 - m)) by lia. rewrite pow10_split by lia.
      pose proof (pow10_pos (-2 - m) ltac:(lia)). nia.
    - apply add_nonneg; [lia|]. cbn [Dec.neg Dec.coef]. lia. }
  destruct Bpp as [Bpp Npp].
  assert (Bcl : bounded 9 (closing_balance emi_ monthly_rate None prepayment_month month bal)).
  { unfold closing_balance. fold pp. unfold Dec.sub.
    destruct Bpp as [Bpp1 Bpp2].
    split.
    - apply add_ge; [reflexivity|]. intros m H1 H2 H3. cbn [Dec.neg Dec.expo] in H2.
      rewrite neg_align.
      apply (Dle_scale _ _ m) in Bpp2; [| lia | cbn; lia].
      apply Dlt_zero_l in Hpos.
      destruct (align_sign bal m H1) as (_ & A & _).
      unfold Dec.align at 2 in Bpp2. cbn [Dec.coef Dec.expo] in Bpp2. lia.
    - apply add_le; [reflexivity|]. intros m H1 H2 H3. cbn [Dec.neg Dec.expo] in H2.
      rewrite neg_align.
      apply (Dle_scale _ _ m) in Hle; [| lia | cbn; lia].
      destruct (align_sign pp m H2) as (A & _).
      unfold Dec.align at 2 in Hle. cbn [Dec.coef Dec.expo] in Hle. lia. }
  split; [|exact (proj2 Bcl)].
  unfold ledger_row. fold pp ip.
  destruct (quantize_ok pp Dec.ROUND_HALF_UP (bounded_mono 9 25 pp ltac:(lia) Bpp)) as [p Hp].
  unfold Loan.q2. rewrite Hp. cbn [bind].
  rewrite (quantize_zero ip _ _ Hip). cbn [bind].
  assert (Bmax : bounded 25 (Dec.max (closing_balance emi_ monthly_rate None
                                        prepayment_month month bal) Dec.zero)).
  { unfold Dec.max. destruct (Dec.ltb _ _).
    - apply bounded_zero. reflexivity.
    - apply (bounded_mono 9 25); [lia | exact Bcl]. }
  destruct (quantize_ok _ Dec.ROUND_HALF_UP Bmax) as [b Hb].
  rewrite Hb. cbn [bind]. eexists; reflexivity.
Qed.

Lemma zero_rate_loop (n : nat) :
  forall (month : Z) (st : Loan.loop_state),
    Dlt Dec.zero (Loan.balance st) -> Dle (Loan.balance st) (Dec.mk 1 9) ->
    exists st', Loan.loop emi_ monthly_rate None prepayment_month n month st = Ok st'.
Proof.
  induction n as [|n IH]; intros month st Hpos Hle.
  - eexists; reflexivity.
  - cbn [Loan.loop]. rewrite loop_body_ledger.
    destruct (zero_rate_row month (Loan.balance st) Hpos Hle) as [[r Hr] Hcl].
    rewrite Hr. cbn [bind Loan.balance].
    destruct (Dec.leb _ Dec.zero) eqn:Hz; [eexists; reflexivity|].
    apply IH; cbn [Loan.balance]; [apply leb_false_Dlt; exact Hz | exact Hcl].
Qed.

End ZeroRate.

Lemma twelve_hundred : Dec.mul (Dec.of_Z 12) (Dec.of_Z 100) = Dec.mk 1200 0.
Proof. vm_compute. reflexivity. Qed.

Lemma amount_bounded (amount : Dec.t) :
  Dlt Dec.zero amount -> Dle amount (Dec.of_Z 100000000) -> bounded 8 amount.
Proof.
  intros Hpos Hle. apply Dlt_zero_l in Hpos.
  set (m := Z.min (Dec.expo amount) 0).
  apply (bounded_scale 8 amount m); [lia | lia|].
  apply (Dle_scale _ _ m) in Hle; [| lia | cbn; lia].
  destruct (align_sign amount m ltac:(lia)) as (_ & A & _).
  unfold Dec.align at 2 in Hle. cbn [Dec.coef Dec.expo Dec.of_Z] in Hle.
  replace (8 - m) with (8 + (0 - m)) by lia. rewrite pow10_split by lia.
  change (10 ^ 8) with 100000000.
  pose proof (pow10_pos (0 - m) ltac:(lia)). lia.
Qed.

(** C4, amended.  At rate zero, with at least one whole month
    ([int(duration * 12) >= 1]), no prepayment, and a quotient
    principal / months that does not round to 0.00, [calculate_loan]
    returns a result whose EMI is [principal / int(duration * 12)] rounded
    half-up to cents. *)
Theorem zero_rate_straight_line :
  forall (amount rate duration : Dec.t) (loan_type : string)
         (prepayment_month : option Z) (detailed : bool),
    valid_loan amount rate duration -> reducing loan_type ->
    Dec.eqb rate Dec.zero = true ->
    1 <= months_of duration ->
    (forall e, straight_line_emi amount (months_of duration) = Ok e -> Dec.coef e <> 0) ->
    exists res,
      Loan.calculate_loan amount rate duration loan_type None prepayment_month detailed
      = Ok res
      /\ straight_line_emi amount (months_of duration) = Ok (emi_of res).
Proof.
  intros amount rate duration loan_type pm detailed V Hr Hz Hm Hnz.
  pose proof V as (V1 & V2 & V3 & V4 & V5 & V6).
  rewrite eqb_zero in Hz. apply Z.eqb_eq in Hz.
  pose proof (proj1 (Dlt_zero_l amount) V1) as Hapos.
  pose proof (months_le_480 duration V6) as H480.
  rewrite (calculate_loan_valid _ _ _ _ _ _ _ V Hr).
  unfold Loan.calculate_reducing_balance_loan. fold (months_of duration).
  rewrite twelve_hundred.
  rewrite (div_zero_num rate (Dec.mk 1200 0)) by (cbn; lia || exact Hz). cbn [bind].
  set (mr := Dec.mk 0 (Dec.expo rate - Dec.expo (Dec.mk 1200 0))).
  assert (Hmr : Dec.coef mr = 0) by reflexivity.
  (* the EMI *)
  unfold Loan.raw_emi. rewrite eqb_zero, Hmr. cbn [Z.eqb].
  destruct (div_bounded amount (Dec.of_Z (months_of duration)) ltac:(cbn; lia))
    as (e0 & He0 & Hb0 & _).
  specialize (Hb0 ltac:(lia)).
  pose proof (adjusted_le 8 amount ltac:(lia) (amount_bounded amount V1 V4)) as Hadj.
  pose proof (adjusted_of_Z (months_of duration)) as Hadj'.
  apply (bounded_mono _ 9) in Hb0; [|lia].
  assert (Hn0 : 0 <= Dec.coef e0).
  { apply (div_nonneg amount (Dec.of_Z (months_of duration))); [lia | cbn; lia | exact He0]. }
  destruct (quantize_ok e0 Dec.ROUND_HALF_UP (bounded_mono 9 25 e0 ltac:(lia) Hb0)) as [e He].
  assert (Hsl : straight_line_emi amount (months_of duration) = Ok e).
  { unfold straight_line_emi. rewrite He0. exact He. }
  rewrite He0. cbn [bind]. unfold Loan.q2 at 1. rewrite He. cbn [bind].
  pose proof (Hnz e Hsl) as Henz.
  pose proof (quantize_expo _ _ _ _ He) as Hexp.
  pose proof (quantize_nonneg _ _ _ _ He Hn0) as Hepos.
  assert (Hele : Dec.coef e <= 10 ^ 11).
  { apply (quantize_le _ _ _ _ _ He). eapply Dle_trans; [exact (proj2 Hb0)|].
    apply (Dle_scale _ _ (-2)); [cbn; lia | cbn; lia|]. vm_compute. discriminate. }
  (* the schedule *)
  destruct (zero_rate_loop e mr pm Hmr Hexp (conj Hepos Hele)
              (Z.to_nat (months_of duration)) 1
              (Loan.mk_state [] amount Dec.zero Dec.zero))
    as [st Hst].
  { exact V1. }
  { cbn [Loan.balance]. eapply Dle_trans; [exact (proj2 (amount_bounded amount V1 V4))|].
    vm_compute. reflexivity. }
  rewrite Hst. cbn [bind]. cbv zeta.
  destruct (loop_ledger _ _ _ _ _ _ _ _ Hst) as (rows & E & L & NE & _).
  cbn [Loan.schedule app] in E.
  destruct (loop_interest _ _ _ _ _ _ _ _ Hst ltac:(lia)) as [_ Hti].
  specialize (Hti Hmr eq_refl).
  (* the analytics *)
  destruct (break_even_zero_rate_ok (Dec.to_Q amount) (Dec.to_Q rate) (months_of duration))
    as [be Hbe]; [apply to_Q_zero_iff; exact Hz | lia|].
  rewrite Hbe. cbn [bind].
  destruct (affordability_ok (Dec.to_Q e) (Dec.to_Q amount)) as [af Haf].
  rewrite Haf. cbn [bind].
  unfold Loan.q2 at 1. rewrite (quantize_zero _ _ _ Hti). cbn [bind].
  assert (Hlen : 0 <= Z.of_nat (List.length (Loan.schedule st)) <= 480).
  { rewrite E. lia. }
  assert (Btp : bounded 25 (Dec.mul e (Dec.of_Z (Z.of_nat (List.length (Loan.schedule st)))))).
  { apply (bounded_mono 14 25); [lia|]. unfold Dec.mul. apply bounded_fix.
    apply (bounded_scale _ _ (-2)); [cbn; lia | lia|].
    unfold Dec.align. cbn [Dec.coef Dec.expo Dec.of_Z].
    rewrite Hexp. change (-2 + 0 - -2) with 0. change (14 - -2) with 16.
    rewrite Z.pow_0_r, Z.mul_1_r.
    assert (10 ^ 11 * 480 <= 10 ^ 16) by (vm_compute; discriminate). nia. }
  destruct (quantize_ok _ Dec.ROUND_HALF_UP Btp) as [tp Htp].
  unfold Loan.q2 at 1. rewrite Htp. cbn [bind].
  unfold Loan.ratio_percent.
  rewrite (div_zero_num (Loan.total_interest_paid st) amount) by (lia || exact Hti).
  cbn [bind].
  rewrite quantize_zero by (apply mul_zero_l; reflexivity). cbn [bind].
  assert (Hhd : exists r, hd_error (Loan.schedule st) = Some r).
  { rewrite E. destruct rows as [|r rows']; [exfalso; apply NE; [lia | reflexivity]|].
    exists r; reflexivity. }
  assert (Hlast : exists r, hd_error (rev (Loan.schedule st)) = Some r).
  { rewrite E. destruct (rev rows) as [|r rr] eqn:Er.
    - exfalso. apply (f_equal (@List.length _)) in Er. rewrite length_rev in Er.
      destruct rows; [apply NE; [lia | reflexivity] | discriminate Er].
    - exists r; reflexivity. }
  destruct Hhd as [r1 Hr1]. destruct Hlast as [r2 Hr2].
  rewrite Hr1, Hr2.
  destruct (month_breakdown_ok r1 e Henz) as [b1 Hb1].
  destruct (month_breakdown_ok r2 e Henz) as [b2 Hb2].
  rewrite Hb1, Hb2. cbn [bind].
  destruct detailed; cbn [negb]; eexists; (split; [reflexivity | exact Hsl]).
Qed.

Lemma zero_rate_straight_line_witness :
  exists res,
    Loan.calculate_loan (Dec.mk 12000 (-1)) (Dec.mk 0 (-1)) (Dec.of_Z 1) "reducing"
      None None false = Ok res
    /\ emi_of res = Dec.mk 10000 (-2).
Proof.
  destruct (zero_rate_straight_line (Dec.mk 12000 (-1)) (Dec.mk 0 (-1)) (Dec.of_Z 1)
              "reducing" None false) as (res & Hres & Hemi).
  - repeat split; vm_compute; reflexivity.
  - vm_compute. discriminate.
  - vm_compute. reflexivity.
  - vm_compute. discriminate.
  - intros e He. vm_compute in He. injection He as <-. cbn. lia.
  - exists res. split; [exact Hres|].
    vm_compute in Hemi. injection Hemi as Hemi. symmetry. exact Hemi.
Defined.

(** C4, as stated, fails.  For 3060 at rate 0 over 2.55 years the EMI is
    3060 / 30 = 102.00, the division by the whole number of months
    [int(2.55 * 12) = 30], not 3060 / (2.55 * 12) = 100.00; over 0.05
    years there is no whole month and the division raises; for 0.05 over one
    year the EMI rounds to 0.00 and the percentages of the first month
    divide by it; and a prepayment of 1e27 makes a principal portion that
    cannot be rounded to cents within the precision of the context. *)
Lemma zero_rate_emi_uses_whole_months :
  (exists ti tp pr,
      Loan.calculate_loan (Dec.mk 30600 (-1)) (Dec.mk 0 (-1)) (Dec.mk 255 (-2)) "reducing"
        None None false
      = Ok (Loan.Simple (Dec.mk 10200 (-2)) ti tp pr))
  /\ (e0 <- Dec.div (Dec.mk 30600 (-1)) (Dec.mul (Dec.mk 255 (-2)) (Dec.of_Z 12)) ;;
      Loan.q2 e0) = Ok (Dec.mk 10000 (-2))
  /\ Loan.calculate_loan (Dec.mk 30600 (-1)) (Dec.mk 0 (-1)) (Dec.mk 5 (-2)) "reducing"
       None None false
     = Raise DecimalDivisionByZero
  /\ Loan.calculate_loan (Dec.mk 5 (-2)) (Dec.mk 0 (-1)) (Dec.of_Z 1) "reducing"
       None None false
     = Raise ZeroDivisionError
  /\ Loan.calculate_loan (Dec.mk 12000 (-1)) (Dec.mk 0 (-1)) (Dec.of_Z 1) "reducing"
       (Some (Dec.mk 1 27)) (Some 1) false
     = Raise DecimalInvalidOperation.
Proof.
  split; [eexists _, _, _; vm_compute; reflexivity|].
  repeat split; vm_compute; reflexivity.
Qed.

(** C8, as stated, fails: for 100 over one year the total interest is 27.87
    at 47.99% (EMI 10.65) and 27.85 at 48% (EMI 10.66). *)
Lemma total_interest_not_monotone :
  exists e1 e2 tp1 tp2 pr,
    Loan.calculate_loan (Dec.mk 1000 (-1)) (Dec.mk 4799 (-2)) (Dec.of_Z 1) "reducing"
      None None false
    = Ok (Loan.Simple e1 (Dec.mk 2787 (-2)) tp1 pr)
    /\ Loan.calculate_loan (Dec.mk 1000 (-1)) (Dec.mk 480 (-1)) (Dec.of_Z 1) "reducing"
         None None false
       = Ok (Loan.Simple e2 (Dec.mk 2785 (-2)) tp2 pr)
    /\ Dle (Dec.mk 4799 (-2)) (Dec.mk 480 (-1))
    /\ Dlt (Dec.mk 2785 (-2)) (Dec.mk 2787 (-2)).
Proof.
  eexists _, _, _, _, _.
  split; [vm_compute; reflexivity|].
  split; [vm_compute; reflexivity|].
  split; vm_compute; reflexivity.
Qed.

Lemma total_interest_sign (amount rate duration : Dec.t) (loan_type : string)
    (prepayment : option Dec.t) (prepayment_month : option Z) (detailed : bool)
    (res : Loan.loan_result) :
  reducing loan_type ->
  Loan.calculate_loan amount rate duration loan_type prepayment prepayment_month detailed
  = Ok res ->
  Dec.expo (total_interest_of res) = -2
  /\ 0 <= Dec.coef (total_interest_of res)
  /\ (Dec.eqb rate Dec.zero = true -> Dec.coef (total_interest_of res) = 0).
Proof.
  intros Hr H.
  destruct (calculate_loan_detailed_inv _ _ _ _ _ _ _ _ Hr H)
    as ((V1 & V2 & _) & d & Hd & _ & Hti & _).
  rewrite Hti.
  destruct (reducing_balance_inv _ _ _ _ _ _ Hd)
    as (mr & e0 & st & Hmr & _ & _ & Hloop & _ & Hq & _).
  unfold monthly_rate_of in Hmr. rewrite twelve_hundred in Hmr.
  apply Dle_zero_l in V2. apply Dlt_zero_l in V1.
  assert (Hmr0 : 0 <= Dec.coef mr).
  { apply (div_nonneg rate (Dec.mk 1200 0)); [exact V2 | cbn; lia | exact Hmr]. }
  destruct (loop_interest _ _ _ _ _ _ _ _ Hloop Hmr0) as [I1 I2].
  cbn [Loan.balance Loan.total_interest_paid Dec.zero Dec.coef] in I1, I2.
  split; [exact (quantize_expo _ _ _ _ Hq)|].
  split.
  - apply (quantize_nonneg _ _ _ _ Hq). apply I1; [exact V1 | lia].
  - intro Hz. rewrite eqb_zero in Hz. apply Z.eqb_eq in Hz.
    rewrite (div_zero_num rate (Dec.mk 1200 0)) in Hmr by (cbn; lia || exact Hz).
    injection Hmr as <-. specialize (I2 eq_refl eq_refl).
    unfold Loan.q2 in Hq. rewrite (quantize_zero _ _ _ I2) in Hq.
    injection Hq as <-. reflexivity.
Qed.

(** C8, amended.  The total interest is zero at rate 0 and never negative:
    raising the rate from 0 to any rate never lowers it. *)
Theorem total_interest_from_zero_rate :
  forall (amount duration : Dec.t) (loan_type : string) (rate0 rate : Dec.t)
         (detailed0 detailed : bool) (res0 res : Loan.loan_result),
    reducing loan_type -> Dec.eqb rate0 Dec.zero = true ->
    Loan.calculate_loan amount rate0 duration loan_type None None detailed0 = Ok res0 ->
    Loan.calculate_loan amount rate duration loan_type None None detailed = Ok res ->
    Dec.coef (total_interest_of res0) = 0
    /\ Dle (total_interest_of res0) (total_interest_of res).
Proof.
  intros amount duration loan_type rate0 rate detailed0 detailed res0 res Hr Hz H0 H.
  destruct (total_interest_sign _ _ _ _ _ _ _ _ Hr H0) as (E0 & _ & Z0).
  destruct (total_interest_sign _ _ _ _ _ _ _ _ Hr H) as (E & N & _).
  specialize (Z0 Hz). split; [exact Z0|].
  apply (Dle_scale _ _ (-2)); [lia | lia|].
  unfold Dec.align. rewrite Z0, E. change (-2 - -2) with 0.
  rewrite Z.pow_0_r. lia.
Qed.

Lemma total_interest_from_zero_rate_witness :
  exists res0 res,
    Loan.calculate_loan (Dec.mk 12000 (-1)) (Dec.mk 0 (-1)) (Dec.of_Z 1) "reducing"
      None None false = Ok res0
    /\ Loan.calculate_loan (Dec.mk 12000 (-1)) (Dec.mk 100 (-1)) (Dec.of_Z 1) "reducing"
         None None false = Ok res
    /\ Dle (total_interest_of res0) (total_interest_of res).
Proof.
  destruct (Loan.calculate_loan (Dec.mk 12000 (-1)) (Dec.mk 0 (-1)) (Dec.of_Z 1)
              "reducing" None None false) as [res0|] eqn:E0;
    [|vm_compute in E0; discriminate E0].
  destruct (Loan.calculate_loan (Dec.mk 12000 (-1)) (Dec.mk 100 (-1)) (Dec.of_Z 1)
              "reducing" None None false) as [res|] eqn:E;
    [|vm_compute in E; discriminate E].
  exists res0, res. split; [reflexivity|]. split; [reflexivity|].
  apply (total_interest_from_zero_rate (Dec.mk 12000 (-1)) (Dec.of_Z 1) "reducing"
           (Dec.mk 0 (-1)) (Dec.mk 100 (-1)) false false res0 res);
    [vm_compute; discriminate | reflexivity | exact E0 | exact E].
Defined.

Lemma ledger_rows_characterised_witness :
  exists d mr,
    Loan.calculate_loan (Dec.mk 1010 (-1)) (Dec.mk 60 (-1)) (Dec.of_Z 1) "reducing"
      None None true = Ok (Loan.Detailed d)
    /\ monthly_rate_of (Dec.mk 60 (-1)) = Ok mr
    /\ forall i row, nth_error (Loan.amortization_schedule d) i = Some row ->
         -1 <= Dec.coef (Loan.r_principal row) + Dec.coef (Loan.r_interest row)
               - Dec.coef (Loan.r_emi row) <= 1.
Proof.
  destruct (Loan.calculate_loan (Dec.mk 1010 (-1)) (Dec.mk 60 (-1)) (Dec.of_Z 1)
              "reducing" None None true)
    as [[e ti tp pr|d]|e] eqn:E;
    try (vm_compute in E; discriminate E).
  destruct (ledger_rows_characterised (Dec.mk 1010 (-1)) (Dec.mk 60 (-1)) (Dec.of_Z 1)
              "reducing" None None d)
    as (mr & Hmr & Hrows & _);
    [vm_compute; discriminate | exact E |].
  exists d, mr. split; [reflexivity|]. split; [exact Hmr|].
  intros i row Hrow.
  destruct (Hrows i row Hrow) as (_ & _ & _ & _ & _ & _ & Hc).
  apply Hc. reflexivity.
Defined.

(** ** Attendance below the target *)

Lemma Float_to_int_floor (x : Q) : (0 <= x)%Q -> Float.to_int x = Qfloor x.
Proof.
  intro H. unfold Float.to_int, Qfloor. destruct x as [n d]. cbn [Qnum Qden].
  unfold Qle in H. cbn in H. apply Z.quot_div_nonneg; lia.
Qed.

(** Below the target (and with a target under 100) the answer is the floor
    of the quotient plus one: the ceiling when the quotient is not whole,
    one more than it when it is. *)
Lemma classes_needed_below_target (attended total : Z) (target : Q) :
  0 <= attended <= total -> 0 < total ->
  (0 <= target)%Q -> (target < 100)%Q ->
  (inject_Z attended / inject_Z total * 100 < target)%Q ->
  exists s,
    Attendance.calculate_attendance attended total target None false
    = Ok (Attendance.Simple s)
    /\ Attendance.classes_needed s
       = Qfloor ((target * inject_Z total - inject_Z (100 * attended)) / (100 - target)) + 1.
Proof.
  intros Ha Ht Ht0 Ht100 Hlow.
  unfold Attendance.calculate_attendance.
  destruct (Z.ltb_spec attended 0); [lia|].
  destruct (Z.leb_spec total 0); [lia|].
  destruct (Z.ltb_spec total attended); [lia|].
  rewrite (proj2 (Float_ltb_false target 0)) by exact Ht0.
  rewrite (proj2 (Float_ltb_false 100 target)) by lra.
  cbn [orb].
  assert (Htq : (0 < inject_Z total)%Q).
  { unfold Qlt, inject_Z. cbn. lia. }
  rewrite Float_div_ok by (unfold Float.of_Z; intro HH; rewrite HH in Htq; exact (Qlt_irrefl _ Htq)).
  cbn [bind].
  assert (Hcur : (Float.mul (Qred (Float.of_Z attended / Float.of_Z total)) 100
                 == inject_Z attended / inject_Z total * 100)%Q).
  { unfold Float.mul, Float.of_Z. rewrite !Qred_correct. reflexivity. }
  rewrite (proj2 (Float_ltb_true _ target)) by (rewrite Hcur; exact Hlow).
  assert (Hden : (0 < 100 - target)%Q) by lra.
  assert (Hnum : (0 < target * inject_Z total - inject_Z (100 * attended))%Q).
  { assert (Hmul : (inject_Z attended / inject_Z total * 100 * inject_Z total
                    < target * inject_Z total)%Q).
    { apply Qmult_lt_compat_r; assumption. }
    assert (Hsimp : (inject_Z attended / inject_Z total * 100 * inject_Z total
                     == inject_Z (100 * attended))%Q).
    { rewrite inject_Z_mult. field. intro HH. rewrite HH in Htq. exact (Qlt_irrefl _ Htq). }
    rewrite Hsimp in Hmul. lra. }
  rewrite Float_div_ok
    by (unfold Float.sub; rewrite Qred_correct; intro HH; rewrite HH in Hden;
        exact (Qlt_irrefl _ Hden)).
  cbn [bind].
  rewrite (proj2 (Float_ltb_false target _)) by (rewrite Hcur; lra).
  cbn [bind negb].
  eexists. split; [reflexivity|]. cbn [Attendance.classes_needed].
  set (x := Qred _).
  assert (Hx : (x == (target * inject_Z total - inject_Z (100 * attended)) / (100 - target))%Q).
  { unfold x, Float.sub, Float.mul, Float.of_Z. rewrite !Qred_correct. reflexivity. }
  assert (Hx0 : (0 <= x)%Q).
  { rewrite Hx. apply Qlt_le_weak. apply Qlt_shift_div_l; [exact Hden|]. lra. }
  rewrite (Float_to_int_floor x Hx0).
  rewrite (Qfloor_comp _ _ Hx).
  pose proof (Qfloor_resp_le _ _ Hx0) as Hf. rewrite Hx in Hf.
  change (Qfloor 0) with 0 in Hf. lia.
Qed.

(** * Further properties of the calculators *)

(** ** What the loan calculator can raise *)














Lemma raw_emi_months (principal mr e0 : Dec.t) (months : Z) :
  Loan.raw_emi principal mr months = Ok e0 -> months <> 0.
Proof.
  intros H ->. unfold Loan.raw_emi in H.
  destruct (Dec.eqb mr Dec.zero).
  - unfold Dec.div in H. cbn [Dec.of_Z Dec.coef Z.eqb] in H.
    destruct (Dec.coef principal =? 0); discriminate H.
  - cbn [Dec.pow] in H.
    change (Dec.sub (Dec.of_Z 1) (Dec.of_Z 1)) with (Dec.mk 0 0) in H.
    unfold Dec.div in H. cbn [Dec.coef Z.eqb] in H.
    destruct (Dec.coef _ =? 0); discriminate H.
Qed.

Lemma to_int_nonneg (d : Dec.t) : 0 <= Dec.coef d -> 0 <= Dec.to_int d.
Proof.
  intro H. unfold Dec.to_int. destruct (0 <=? Dec.expo d) eqn:E.
  - apply Z.leb_le in E. pose proof (pow10_pos (Dec.expo d) E). nia.
  - apply Z.leb_gt in E. apply Z.quot_pos; [exact H|].
    pose proof (pow10_pos (- Dec.expo d) ltac:(lia)). lia.
Qed.

Lemma months_nonneg (duration : Dec.t) : Dlt Dec.zero duration -> 0 <= months_of duration.
Proof.
  intro H. apply Dlt_zero_l in H. unfold months_of. apply to_int_nonneg.
  apply mul_nonneg; [lia | cbn; lia].
Qed.

Lemma hd_error_app {A : Type} (l : list A) (x : A) :
  exists y, hd_error (l ++ [x]) = Some y.
Proof. destruct l as [|a l]; cbn; eauto. Qed.




Lemma valid_loan_tests (amount rate duration : Dec.t) :
  valid_loan amount rate duration ->
  Dec.leb amount Dec.zero = false /\ Dec.ltb rate Dec.zero = false
  /\ Dec.leb duration Dec.zero = false
  /\ Dec.ltb (Dec.of_Z 100000000) amount = false
  /\ Dec.ltb (Dec.of_Z 50) rate = false /\ Dec.ltb (Dec.of_Z 40) duration = false.
Proof.
  intros (V1 & V2 & V3 & V4 & V5 & V6).
  repeat split; first [apply leb_false_Dlt | apply ltb_false_Dle]; assumption.
Qed.



(** ** A term shorter than one month *)

(** The quotient of two positive decimals is positive: the division keeps
    [prec + 1] digits of it. *)
Lemma div_pos (a b r : Dec.t) :
  0 < Dec.coef a -> 0 < Dec.coef b -> Dec.div a b = Ok r -> 0 < Dec.coef r.
Proof.
  intros Ha Hb H. unfold Dec.div in H.
  destruct (Z.eqb_spec (Dec.coef b) 0); [lia|].
  destruct (Z.eqb_spec (Dec.coef a) 0); [lia|].
  injection H as <-. apply fix_pos. cbn [Dec.coef].
  rewrite (Z.sgn_pos (Dec.coef a)), (Z.sgn_pos (Dec.coef b)) by lia.
  rewrite !Z.abs_eq by lia.
  set (na := Dec.ndigits (Dec.coef a)). set (nb := Dec.ndigits (Dec.coef b)).
  destruct (ndigits_spec (Dec.coef a) ltac:(lia)) as (A1 & A2 & A3).
  destruct (ndigits_spec (Dec.coef b) ltac:(lia)) as (B1 & B2 & B3).
  specialize (A3 ltac:(lia)). specialize (B3 ltac:(lia)).
  fold na in A1, A2, A3. fold nb in B1, B2, B3.
  set (shift := nb - na + Dec.prec + 1).
  assert (Hq : 1 <= (if 0 <=? shift then Dec.coef a * 10 ^ shift else Dec.coef a)
                    / (if 0 <=? shift then Dec.coef b
                       else Dec.coef b * 10 ^ (- shift))).
  { destruct (Z.leb_spec 0 shift) as [S|S].
    - apply Z.div_le_lower_bound; [lia|].
      assert (10 ^ nb <= 10 ^ (na - 1) * 10 ^ shift).
      { rewrite <- pow10_split by lia. apply pow10_le. unfold shift, Dec.prec. lia. }
      pose proof (pow10_pos shift S). nia.
    - pose proof (pow10_pos (- shift) ltac:(lia)) as P.
      apply Z.div_le_lower_bound; [nia|].
      assert (10 ^ nb * 10 ^ (- shift) <= 10 ^ (na - 1)).
      { rewrite <- pow10_split by lia. apply pow10_le. unfold shift, Dec.prec in *. lia. }
      nia. }
  match goal with
  | |- 0 < 1 * 1 * (if ?c then _ else _) => destruct c
  end; lia.
Qed.

Lemma add_pos (a b : Dec.t) :
  0 < Dec.coef a -> 0 <= Dec.coef b -> 0 < Dec.coef (Dec.add a b).
Proof.
  intros Ha Hb. unfold Dec.add. cbv zeta. apply fix_pos. cbn [Dec.coef].
  set (e := Z.min (Dec.expo a) (Dec.expo b)).
  destruct (align_sign a e ltac:(lia)) as (_ & A & _).
  destruct (align_sign b e ltac:(lia)) as (B & _ & _).
  apply A in Ha. apply B in Hb. lia.
Qed.

Lemma mul_pos (a b : Dec.t) :
  0 < Dec.coef a -> 0 < Dec.coef b -> 0 < Dec.coef (Dec.mul a b).
Proof. intros Ha Hb. unfold Dec.mul. apply fix_pos. cbn. nia. Qed.

Lemma div_by_zero (a : Dec.t) (b : Dec.t) :
  Dec.coef a <> 0 -> Dec.coef b = 0 -> Dec.div a b = Raise DecimalDivisionByZero.
Proof.
  intros Ha Hb. unfold Dec.div. rewrite Hb. cbn [Z.eqb].
  destruct (Z.eqb_spec (Dec.coef a) 0); [contradiction | reflexivity].
Qed.

Lemma raw_emi_no_months (principal mr : Dec.t) :
  0 < Dec.coef principal -> 0 <= Dec.coef mr ->
  Loan.raw_emi principal mr 0 = Raise DecimalDivisionByZero.
Proof.
  intros Hp Hr. unfold Loan.raw_emi. rewrite eqb_zero.
  destruct (Z.eqb_spec (Dec.coef mr) 0) as [Z0|NZ].
  - apply div_by_zero; [lia | reflexivity].
  - cbn [Dec.pow].
    change (Dec.sub (Dec.of_Z 1) (Dec.of_Z 1)) with (Dec.mk 0 0).
    apply div_by_zero; [|reflexivity].
    enough (0 < Dec.coef (Dec.mul (Dec.mul principal mr) (Dec.of_Z 1))) by lia.
    apply mul_pos; [apply mul_pos; lia | cbn; lia].
Qed.

(** X2. A valid loan whose term has no whole month ([int(years * 12) = 0]) ends
    in a decimal division by zero, whatever the loan type, the prepayment
    and the format asked for. *)
Theorem loan_without_whole_month_raises :
  forall (amount rate duration : Dec.t) (loan_type : string)
         (prepayment : option Dec.t) (prepayment_month : option Z) (detailed : bool),
    valid_loan amount rate duration ->
    months_of duration = 0 ->
    Loan.calculate_loan amount rate duration loan_type prepayment prepayment_month
      detailed = Raise DecimalDivisionByZero.
Proof.
  intros amount rate duration loan_type pp pm detailed V Hm.
  destruct (valid_loan_tests _ _ _ V) as (T1 & T2 & T3 & T4 & T5 & T6).
  destruct V as (V1 & V2 & V3 & _).
  apply Dlt_zero_l in V1, V3. apply Dle_zero_l in V2.
  unfold Loan.calculate_loan. rewrite T1, T2, T3, T4, T5, T6.
  destruct (String.eqb (lower loan_type) "flat").
  - unfold Loan.calculate_flat_rate_loan. fold (months_of duration). rewrite Hm.
    cbv zeta.
    destruct (div_bounded rate (Dec.of_Z 100) ltac:(cbn; lia)) as (pct & E & _).
    rewrite E. cbn [bind].
    pose proof (div_nonneg rate (Dec.of_Z 100) pct V2 ltac:(cbn; lia) E) as Hpct.
    rewrite div_by_zero; [reflexivity | | reflexivity].
    enough (0 < Dec.coef (Dec.add amount (Dec.mul (Dec.mul amount pct) duration))) by lia.
    apply add_pos; [exact V1|]. apply mul_nonneg; [apply mul_nonneg|]; lia.
  - unfold Loan.calculate_reducing_balance_loan. fold (months_of duration). rewrite Hm.
    destruct (div_bounded rate (Dec.mul (Dec.of_Z 12) (Dec.of_Z 100))
                ltac:(rewrite twelve_hundred; cbn; lia)) as (mr & E & _).
    rewrite E. cbn [bind].
    assert (Hmr : 0 <= Dec.coef mr).
    { apply (div_nonneg rate (Dec.mul (Dec.of_Z 12) (Dec.of_Z 100)) mr V2
               ltac:(rewrite twelve_hundred; cbn; lia) E). }
    cbv zeta. rewrite (raw_emi_no_months amount mr V1 Hmr). reflexivity.
Qed.

Lemma loan_without_whole_month_raises_witness :
  months_of (Dec.mk 8 (-2)) = 0
  /\ Loan.calculate_loan (Dec.mk 50000 (-1)) (Dec.mk 90 (-1)) (Dec.mk 8 (-2)) "Flat"
       None None true = Raise DecimalDivisionByZero.
Proof.
  split; [reflexivity|].
  apply loan_without_whole_month_raises; [|reflexivity].
  repeat split; vm_compute; reflexivity.
Defined.

(** ** The shape of the reducing-balance schedule *)

Lemma reducing_balance_totals (principal annual_rate years : Dec.t)
    (prepayment : option Dec.t) (prepayment_month : option Z) (d : Loan.loan_detail) :
  Loan.calculate_reducing_balance_loan principal annual_rate years
    prepayment prepayment_month = Ok d ->
  Loan.q2 (Dec.mul (Loan.emi d)
             (Dec.of_Z (Z.of_nat (List.length (Loan.amortization_schedule d)))))
  = Ok (Loan.total_payment d)
  /\ Loan.monthly_payment d = Loan.emi d.
Proof.
  intro H. unfold Loan.calculate_reducing_balance_loan in H. cbv zeta in H.
  repeat match type of H with
         | bind ?x _ = Ok _ =>
             let E := fresh "E" in
             destruct x eqn:E; cbn [bind] in H; [|discriminate H]
         end.
  injection H as <-. cbn. split; [assumption | reflexivity].
Qed.

Lemma max_zero_nonneg (d : Dec.t) : 0 <= Dec.coef (Dec.max d Dec.zero).
Proof.
  unfold Dec.max. destruct (Dec.ltb d Dec.zero) eqn:E; [cbn; lia|].
  apply ltb_false_Dle, Dle_zero_l in E. exact E.
Qed.

Lemma max_zero_paid (d : Dec.t) : Dle d Dec.zero -> Dec.coef (Dec.max d Dec.zero) = 0.
Proof.
  intro H. unfold Dec.max. destruct (Dec.ltb d Dec.zero) eqn:E; [reflexivity|].
  apply ltb_false_Dle, Dle_zero_l in E. apply Dle_zero_r in H. lia.
Qed.

(** X3. Every schedule of the reducing-balance method has at least one row and
    at most one row per month of the term; the rows are numbered from 1;
    every figure of a row is in cents and no balance is negative; a schedule
    that stops before the term ends on a balance of 0.00; and the total
    payment is the EMI times the number of rows, in cents (a prepayment is
    not part of it). *)
Theorem reducing_schedule_shape :
  forall (amount rate duration : Dec.t) (loan_type : string)
         (prepayment : option Dec.t) (prepayment_month : option Z)
         (d : Loan.loan_detail),
    reducing loan_type ->
    Loan.calculate_loan amount rate duration loan_type prepayment prepayment_month true
    = Ok (Loan.Detailed d) ->
    let rows := Loan.amortization_schedule d in
    Loan.duration_months d = months_of duration
    /\ Loan.actual_months_to_payoff d = Z.of_nat (List.length rows)
    /\ 1 <= Loan.actual_months_to_payoff d <= Loan.duration_months d
    /\ (forall i row, nth_error rows i = Some row ->
          Loan.r_month row = 1 + Z.of_nat i
          /\ Dec.expo (Loan.r_principal row) = -2
          /\ Dec.expo (Loan.r_interest row) = -2
          /\ Dec.expo (Loan.r_balance row) = -2
          /\ 0 <= Dec.coef (Loan.r_balance row))
    /\ (Loan.actual_months_to_payoff d < Loan.duration_months d ->
        forall row, nth_error rows (List.length rows - 1) = Some row ->
                    Loan.r_balance row = Dec.mk 0 (-2))
    /\ Loan.q2 (Dec.mul (Loan.emi d) (Dec.of_Z (Loan.actual_months_to_payoff d)))
       = Ok (Loan.total_payment d).
Proof.
  intros amount rate duration loan_type pp pm d Hr H. cbv zeta.
  destruct (calculate_loan_detailed_inv _ _ _ _ _ _ _ _ Hr H) as (V & d' & Hd & _ & _ & Hdet).
  specialize (Hdet eq_refl). injection Hdet as <-.
  destruct (reducing_balance_totals _ _ _ _ _ _ Hd) as (Htp & _).
  destruct (reducing_balance_inv _ _ _ _ _ _ Hd)
    as (mr & e0 & st & Hmr & He0 & Hemi & Hloop & Hs & _ & _ & Hdm & Ham).
  pose proof (raw_emi_months _ _ _ _ He0) as Hne.
  pose proof (months_nonneg duration (proj1 (proj2 (proj2 V)))) as Hm.
  destruct (loop_ledger _ _ _ _ _ _ _ _ Hloop) as (rows & E & L & NE & _ & R & _ & F).
  cbn [Loan.schedule Loan.balance app] in E, R, F.
  rewrite <- Hs in E, Ham. rewrite E in *.
  assert (Hrows : rows <> []) by (apply NE; lia).
  assert (Hlen : (1 <= List.length rows)%nat).
  { destruct rows; [congruence | cbn; lia]. }
  split; [exact Hdm|]. split; [exact Ham|].
  split; [rewrite Ham, Hdm; lia|].
  split.
  { intros i row Hi.
    destruct (ledger_row_fields _ _ _ _ _ _ _ (R i row Hi)) as (F1 & _ & _ & F4 & F5 & F6).
    split; [exact F1|].
    split; [exact (quantize_expo _ _ _ _ F4)|].
    split; [exact (quantize_expo _ _ _ _ F5)|].
    split; [exact (quantize_expo _ _ _ _ F6)|].
    apply (quantize_nonneg _ _ _ _ F6). apply max_zero_nonneg. }
  split.
  { intros Hearly row Hrow.
    destruct F as [F|F]; [rewrite Ham, Hdm in Hearly; lia|].
    destruct (ledger_row_fields _ _ _ _ _ _ _ (R _ row Hrow)) as (_ & _ & _ & _ & _ & F6).
    rewrite <- running_balance_last in F6.
    replace (S (List.length rows - 1)) with (List.length rows) in F6 by lia.
    unfold Loan.q2 in F6. rewrite quantize_zero in F6 by (apply max_zero_paid; exact F).
    injection F6 as <-. reflexivity. }
  rewrite Ham. exact Htp.
Qed.

Lemma reducing_schedule_shape_witness :
  exists d,
    Loan.calculate_loan (Dec.mk 1010 (-1)) (Dec.mk 60 (-1)) (Dec.of_Z 1) "reducing"
      (Some (Dec.mk 500 (-1))) (Some 1) true = Ok (Loan.Detailed d)
    /\ 1 <= Loan.actual_months_to_payoff d <= Loan.duration_months d.
Proof.
  destruct (Loan.calculate_loan (Dec.mk 1010 (-1)) (Dec.mk 60 (-1)) (Dec.of_Z 1)
              "reducing" (Some (Dec.mk 500 (-1))) (Some 1) true)
    as [[e ti tp pr|d]|e] eqn:E;
    try (vm_compute in E; discriminate E).
  exists d. split; [reflexivity|].
  apply (reducing_schedule_shape (Dec.mk 1010 (-1)) (Dec.mk 60 (-1)) (Dec.of_Z 1)
           "reducing" (Some (Dec.mk 500 (-1))) (Some 1) d);
    [vm_compute; discriminate | exact E].
Defined.

(** ** The flat-rate schedule *)

Lemma flat_schedule_rows (n : nat) :
  forall (month : Z) (principal ppm ipm emi : Dec.t) (rows : list Loan.row),
    Loan.flat_schedule n month principal ppm ipm emi = Ok rows ->
    List.length rows = n
    /\ forall i row, nth_error rows i = Some row ->
         Loan.r_month row = month + Z.of_nat i
         /\ Loan.r_emi row = emi
         /\ Loan.q2 ppm = Ok (Loan.r_principal row)
         /\ Loan.q2 ipm = Ok (Loan.r_interest row)
         /\ Loan.q2 (Dec.max (Dec.sub principal
                                (Dec.mul ppm (Dec.of_Z (month + Z.of_nat i))))
                       Dec.zero)
            = Ok (Loan.r_balance row)
         /\ Loan.r_prepayment row = Dec.zero.
Proof.
  induction n as [|n IH]; intros month principal ppm ipm emi rows H.
  - cbn in H. injection H as <-. split; [reflexivity|].
    intros i row Hi. destruct i; discriminate Hi.
  - cbn [Loan.flat_schedule] in H.
    destruct (Loan.q2 ppm) as [p|] eqn:Ep; [|discriminate H]. cbn [bind] in H.
    destruct (Loan.q2 ipm) as [ip|] eqn:Ei; [|discriminate H]. cbn [bind] in H.
    destruct (Loan.q2 (Dec.max _ _)) as [b|] eqn:Eb; [|discriminate H]. cbn [bind] in H.
    destruct (Loan.flat_schedule n _ _ _ _ _) as [rest|] eqn:Er; [|discriminate H].
    cbn [bind] in H. injection H as <-.
    destruct (IH _ _ _ _ _ _ Er) as (L & R).
    split; [cbn; lia|].
    intros i row Hi. destruct i as [|i].
    + cbn in Hi. injection Hi as <-. cbn [Loan.r_month Loan.r_emi Loan.r_principal
        Loan.r_interest Loan.r_balance Loan.r_prepayment].
      rewrite Z.add_0_r. repeat split; assumption.
    + cbn in Hi. specialize (R i row Hi).
      replace (month + Z.of_nat (S i)) with (month + 1 + Z.of_nat i) by lia.
      rewrite Ep, Ei in R. exact R.
Qed.

Lemma flat_rate_inv (principal annual_rate years : Dec.t) (d : Loan.loan_detail) :
  Loan.calculate_flat_rate_loan principal annual_rate years = Ok d ->
  exists ppm ipm,
    Dec.div principal (Dec.of_Z (months_of years)) = Ok ppm
    /\ Dec.div (Loan.total_interest d) (Dec.of_Z (months_of years)) = Ok ipm
    /\ Loan.flat_schedule (Z.to_nat (months_of years)) 1 principal ppm ipm (Loan.emi d)
       = Ok (Loan.amortization_schedule d)
    /\ Loan.duration_months d = months_of years
    /\ Loan.actual_months_to_payoff d = months_of years
    /\ Loan.break_even_analysis d = None
    /\ Loan.affordability_metrics d = None
    /\ Loan.first_month_breakdown d = None
    /\ Loan.last_month_breakdown d = None.
Proof.
  intro H. unfold Loan.calculate_flat_rate_loan in H.
  fold (months_of years) in H. cbv zeta in H.
  repeat match type of H with
         | bind ?x _ = Ok _ =>
             let E := fresh "E" in
             destruct x eqn:E; cbn [bind] in H; [|discriminate H]
         end.
  injection H as <-. cbn. eexists _, _. repeat split; eassumption.
Qed.

(** X4. A flat-rate schedule has exactly one row per month of the term,
    numbered from 1; every row reports the same EMI, the same principal
    portion ([principal / months] in cents) and the same interest portion,
    and no prepayment: the prepayment arguments are not looked at.  The
    break-even, affordability and first/last month entries are absent. *)
Theorem flat_schedule_shape :
  forall (amount rate duration : Dec.t) (loan_type : string)
         (prepayment : option Dec.t) (prepayment_month : option Z)
         (d : Loan.loan_detail),
    lower loan_type = "flat"%string ->
    Loan.calculate_loan amount rate duration loan_type prepayment prepayment_month true
    = Ok (Loan.Detailed d) ->
    let rows := Loan.amortization_schedule d in
    Loan.calculate_loan amount rate duration loan_type None None true
    = Ok (Loan.Detailed d)
    /\ Loan.duration_months d = months_of duration
    /\ Loan.actual_months_to_payoff d = months_of duration
    /\ Z.of_nat (List.length rows) = months_of duration
    /\ (exists p i,
          (ppm <- Dec.div amount (Dec.of_Z (months_of duration)) ;; Loan.q2 ppm) = Ok p
          /\ forall k row, nth_error rows k = Some row ->
               Loan.r_month row = 1 + Z.of_nat k
               /\ Loan.r_emi row = Loan.emi d
               /\ Loan.r_principal row = p
               /\ Loan.r_interest row = i
               /\ Loan.r_prepayment row = Dec.zero)
    /\ Loan.break_even_analysis d = None
    /\ Loan.affordability_metrics d = None
    /\ Loan.first_month_breakdown d = None
    /\ Loan.last_month_breakdown d = None.
Proof.
  intros amount rate duration loan_type pp pm d Hf H. cbv zeta.
  pose proof (calculate_loan_validated _ _ _ _ _ _ _ _ H) as V.
  pose proof (months_nonneg duration (proj1 (proj2 (proj2 V)))) as Hm.
  destruct (valid_loan_tests _ _ _ V) as (T1 & T2 & T3 & T4 & T5 & T6).
  split.
  { rewrite <- H. unfold Loan.calculate_loan. rewrite Hf. reflexivity. }
  unfold Loan.calculate_loan in H. rewrite T1, T2, T3, T4, T5, T6, Hf in H.
  cbn [String.eqb Ascii.eqb Bool.eqb] in H.
  destruct (Loan.calculate_flat_rate_loan amount rate duration) as [d'|] eqn:Hd;
    [|discriminate H].
  cbn [bind negb] in H. injection H as <-.
  destruct (flat_rate_inv _ _ _ _ Hd)
    as (ppm & ipm & Eppm & Eipm & Esch & Hdm & Ham & N1 & N2 & N3 & N4).
  destruct (flat_schedule_rows _ _ _ _ _ _ _ Esch) as (L & R).
  split; [exact Hdm|]. split; [exact Ham|].
  split; [rewrite L; lia|].
  split; [|repeat split; assumption].
  destruct (Loan.amortization_schedule d') as [|r0 rest] eqn:Erows.
  - (* no row: months = 0, and the division had failed *)
    exfalso. cbn in L. assert (months_of duration = 0) by lia.
    rewrite H in Eppm. unfold Dec.div in Eppm. cbn [Dec.of_Z Dec.coef Z.eqb] in Eppm.
    destruct (Dec.coef amount =? 0); discriminate Eppm.
  - destruct (R 0%nat r0 eq_refl) as (_ & _ & P0 & I0 & _).
    exists (Loan.r_principal r0), (Loan.r_interest r0).
    split; [rewrite Eppm; cbn [bind]; exact P0|].
    intros k row Hk. destruct (R k row Hk) as (M & Em & P & I & _ & Pp).
    split; [exact M|]. split; [exact Em|].
    split; [congruence|]. split; [congruence | exact Pp].
Qed.

Lemma flat_schedule_shape_witness :
  exists d,
    Loan.calculate_loan (Dec.mk 12000 (-1)) (Dec.mk 100 (-1)) (Dec.of_Z 1) "FLAT"
      (Some (Dec.mk 500 (-1))) (Some 3) true = Ok (Loan.Detailed d)
    /\ Z.of_nat (List.length (Loan.amortization_schedule d)) = 12.
Proof.
  destruct (Loan.calculate_loan (Dec.mk 12000 (-1)) (Dec.mk 100 (-1)) (Dec.of_Z 1)
              "FLAT" (Some (Dec.mk 500 (-1))) (Some 3) true)
    as [[e ti tp pr|d]|e] eqn:E;
    try (vm_compute in E; discriminate E).
  exists d. split; [reflexivity|].
  destruct (flat_schedule_shape (Dec.mk 12000 (-1)) (Dec.mk 100 (-1)) (Dec.of_Z 1)
              "FLAT" (Some (Dec.mk 500 (-1))) (Some 3) d eq_refl E)
    as (_ & _ & _ & L & _).
  rewrite L. reflexivity.
Defined.

(** ** Prepayments that never apply *)

Lemma loop_body_without_prepayment (emi_ mr : Dec.t) (pp : option Dec.t)
    (pm : option Z) (month : Z) (st : Loan.loop_state) :
  Loan.prepayment_in pp pm month = None ->
  Loan.loop_body emi_ mr pp pm month st = Loan.loop_body emi_ mr None None month st.
Proof. intro H. unfold Loan.loop_body. rewrite H. reflexivity. Qed.

Lemma loop_without_prepayment (emi_ mr : Dec.t) (pp : option Dec.t) (pm : option Z)
    (n : nat) :
  forall (month : Z) (st : Loan.loop_state),
    (forall k, month <= k < month + Z.of_nat n -> Loan.prepayment_in pp pm k = None) ->
    Loan.loop emi_ mr pp pm n month st = Loan.loop emi_ mr None None n month st.
Proof.
  induction n as [|n IH]; intros month st H; [reflexivity|].
  cbn [Loan.loop].
  rewrite (loop_body_without_prepayment emi_ mr pp pm month st) by (apply H; lia).
  destruct (Loan.loop_body emi_ mr None None month st) as [st'|e]; [|reflexivity].
  cbn [bind]. destruct (Dec.leb (Loan.balance st') Dec.zero); [reflexivity|].
  apply IH. intros k Hk. apply H. lia.
Qed.

(** X5. A prepayment that is missing, has no month, is zero, or is scheduled
    for month 0, a negative month or a month after the term has no effect
    at all: the call returns what it returns without prepayment
    arguments. *)
Theorem prepayment_out_of_schedule_ignored :
  forall (amount rate duration : Dec.t) (loan_type : string)
         (prepayment : option Dec.t) (prepayment_month : option Z) (detailed : bool),
    (prepayment = None \/ prepayment_month = None
     \/ (exists p, prepayment = Some p /\ Dec.coef p = 0)
     \/ (exists m, prepayment_month = Some m /\ (m <= 0 \/ months_of duration < m))) ->
    Loan.calculate_loan amount rate duration loan_type prepayment prepayment_month
      detailed
    = Loan.calculate_loan amount rate duration loan_type None None detailed.
Proof.
  intros amount rate duration loan_type pp pm detailed Hcase.
  assert (Hnone : forall k, 1 <= k < 1 + Z.of_nat (Z.to_nat (months_of duration)) ->
                            Loan.prepayment_in pp pm k = None).
  { intros k Hk. unfold Loan.prepayment_in.
    destruct Hcase as [->|[->|[(p & -> & Hp)|(m & -> & Hm)]]].
    - reflexivity.
    - destruct pp; reflexivity.
    - destruct pm as [m|]; [|reflexivity].
      rewrite eqb_zero, Hp. reflexivity.
    - destruct pp as [p|]; [|reflexivity].
      destruct (Z.eqb_spec m 0) as [->|Hm0];
        [rewrite andb_false_r; reflexivity|].
      destruct (Z.eqb_spec k m) as [->|Hkm]; [|rewrite andb_false_r; reflexivity].
      exfalso. lia. }
  unfold Loan.calculate_loan.
  repeat match goal with
         | |- (if ?c then _ else _) = (if ?c then _ else _) => destruct c; [reflexivity|]
         end.
  destruct (String.eqb (lower loan_type) "flat"); [reflexivity|].
  unfold Loan.calculate_reducing_balance_loan. fold (months_of duration).
  destruct (Dec.div rate _) as [mr|]; [|reflexivity]. cbn [bind]. cbv zeta.
  destruct (Loan.raw_emi amount mr (months_of duration)) as [e0|]; [|reflexivity].
  cbn [bind].
  destruct (Loan.q2 e0) as [emi|]; [|reflexivity]. cbn [bind].
  rewrite (loop_without_prepayment emi mr pp pm _ 1 _ Hnone). reflexivity.
Qed.

Lemma prepayment_out_of_schedule_ignored_witness :
  Loan.calculate_loan (Dec.mk 12000 (-1)) (Dec.mk 90 (-1)) (Dec.of_Z 1) "reducing"
    (Some (Dec.mk 5000 (-1))) (Some 13) false
  = Loan.calculate_loan (Dec.mk 12000 (-1)) (Dec.mk 90 (-1)) (Dec.of_Z 1) "reducing"
      None None false.
Proof.
  apply prepayment_out_of_schedule_ignored.
  right. right. right. exists 13. split; [reflexivity|]. right. vm_compute. reflexivity.
Defined.

(** ** GPA: which course lists are accepted, and the range of the GPA *)

Lemma grade_points_range (scale g : string) (p : Q) :
  GPA.lookup g (GPA.get_grade_points scale) = Some p ->
  (0 <= p)%Q /\ (p <= max_gpa scale)%Q.
Proof.
  unfold GPA.get_grade_points, max_gpa.
  destruct (String.eqb scale "5.0"); cbn [GPA.lookup]; intro H;
    repeat match type of H with
           | (if ?c then _ else _) = _ =>
               destruct c;
               [injection H as <-; split; unfold Qle; cbn; lia|]
           end;
    discriminate H.
Qed.

Lemma max_gpa_pos (scale : string) : (0 < max_gpa scale)%Q.
Proof. unfold max_gpa. destruct (String.eqb scale "5.0"); reflexivity. Qed.

(** The loop over valid courses: it ends, the points stay between 0 and the
    top of the scale times the credits, and the credits grow. *)
Lemma courses_loop_valid (scale : string) (courses : list GPA.course) :
  forall a,
    Forall (valid_course scale) courses ->
    (0 <= GPA.total_points a)%Q ->
    (GPA.total_points a <= max_gpa scale * GPA.total_credits a)%Q ->
    exists a',
      GPA.courses_loop (GPA.get_grade_points scale) courses a = Ok a'
      /\ (0 <= GPA.total_points a')%Q
      /\ (GPA.total_points a' <= max_gpa scale * GPA.total_credits a')%Q
      /\ (GPA.total_credits a <= GPA.total_credits a')%Q
      /\ (courses <> [] -> (GPA.total_credits a < GPA.total_credits a')%Q).
Proof.
  induction courses as [|c rest IH]; intros a Hv H0 Hmax.
  - exists a. repeat split; try assumption; try apply Qle_refl. congruence.
  - inversion Hv as [|? ? Hc Hrest]; subst.
    destruct Hc as (g & x & Eg & Ec & Hx & Hl).
    cbn [GPA.courses_loop]. rewrite Eg, Ec. cbn [bind]. cbv zeta.
    rewrite (proj2 (Float_leb_false x 0)) by exact Hx.
    destruct (GPA.lookup (strip (upper g)) (GPA.get_grade_points scale)) as [gp|] eqn:El;
      [|congruence].
    destruct (grade_points_range _ _ _ El) as [G0 Gm].
    match goal with
    | |- context [GPA.courses_loop _ rest ?acc] => set (a1 := acc)
    end.
    assert (P1 : (GPA.total_points a1 == GPA.total_points a + gp * x)%Q).
    { unfold a1. cbn [GPA.total_points]. unfold Float.add, Float.mul.
      rewrite !Qred_correct. reflexivity. }
    assert (C1 : (GPA.total_credits a1 == GPA.total_credits a + x)%Q).
    { unfold a1. cbn [GPA.total_credits]. unfold Float.add.
      rewrite !Qred_correct. reflexivity. }
    pose proof (max_gpa_pos scale) as Mp.
    destruct (IH a1 Hrest) as (a' & E & I0 & Im & Ic & _).
    + rewrite P1. nra.
    + rewrite P1, C1. nra.
    + exists a'. split; [exact E|]. split; [exact I0|]. split; [exact Im|].
      rewrite C1 in Ic. split; [lra|]. intros _. lra.
Qed.

(** ** GPA: the previous GPA and credits *)

(** The checks of the previous GPA and credits, format by format. *)
Lemma gpa_previous_cases :
  forall (float_of_string : string -> option Q) (courses : list GPA.course)
         (scale : string) (pg pc : Q) (detailed : bool),
    courses <> [] -> Forall (valid_course scale) courses ->
    let call := GPA.calculate_gpa float_of_string courses scale (Some pg) (Some pc)
                  detailed in
    ((pc < 0)%Q -> exists msg, call = Raise (GPACalculationError msg))
    /\ ((0 <= pc)%Q -> (0 <= pg)%Q -> float_of_string scale = None ->
        exists msg, call = Raise (ValueError msg))
    /\ (forall top, (0 <= pc)%Q -> float_of_string scale = Some top ->
                    (pg < 0)%Q \/ (top < pg)%Q ->
                    exists msg, call = Raise (GPACalculationError msg))
    /\ (forall top, (0 <= pc)%Q -> float_of_string scale = Some top ->
                    (0 <= pg)%Q -> (pg <= top)%Q ->
                    exists res res0,
                      call = Ok res
                      /\ GPA.calculate_gpa float_of_string courses scale None None
                           detailed = Ok res0
                      /\ gpa_value res = gpa_value res0).
Proof.
  intros f courses scale pg pc detailed Hne Hv. cbv zeta.
  unfold GPA.calculate_gpa. destruct courses as [|c rest]; [congruence|].
  destruct (courses_loop_valid scale (c :: rest) (GPA.mk_acc 0 0 []) Hv)
    as (a & -> & I0 & Im & _ & Ic).
  { apply Qle_refl. }
  { cbn [GPA.total_points GPA.total_credits]. pose proof (max_gpa_pos scale). lra. }
  cbn [bind]. specialize (Ic ltac:(discriminate)). cbn [GPA.total_credits] in Ic.
  rewrite (proj2 (Float_ltb_true 0 (GPA.total_credits a))) by exact Ic.
  rewrite Float_div_ok by (intro E0; rewrite E0 in Ic; exact (Qlt_irrefl _ Ic)).
  cbn [bind].
  split; [|split; [|split]].
  - intro Hpc. rewrite (proj2 (Float_ltb_true pc 0)) by exact Hpc. cbn [bind]. eauto.
  - intros Hpc Hpg Hf. rewrite (proj2 (Float_ltb_false pc 0)) by exact Hpc.
    rewrite Hf. cbn [bind]. eauto.
  - intros top Hpc Hf Hout. rewrite (proj2 (Float_ltb_false pc 0)) by exact Hpc.
    rewrite Hf. cbn [bind].
    replace (Float.ltb pg 0 || Float.ltb top pg) with true; [cbn [bind]; eauto|].
    symmetry. apply orb_true_iff.
    destruct Hout as [L|L]; [left | right]; apply Float_ltb_true; exact L.
  - intros top Hpc Hf Hpg Hle. rewrite (proj2 (Float_ltb_false pc 0)) by exact Hpc.
    rewrite Hf. cbn [bind].
    rewrite (proj2 (Float_ltb_false pg 0)) by exact Hpg.
    rewrite (proj2 (Float_ltb_false top pg)) by exact Hle.
    cbn [orb]. cbv zeta.
    assert (Hcc : (0 < Float.add pc (GPA.total_credits a))%Q).
    { unfold Float.add. rewrite Qred_correct. lra. }
    rewrite (proj2 (Float_ltb_true 0 _)) by exact Hcc.
    rewrite Float_div_ok by (intro E0; rewrite E0 in Hcc; exact (Qlt_irrefl _ Hcc)).
    cbn [bind].
    destruct detailed; cbn [negb]; eexists _, _; repeat split; reflexivity.
Qed.

(** X16. With valid courses, a previous GPA and previous credits: negative
    credits are rejected; then the scale is converted with [float()], and a
    scale that is not a number ends the call with a [ValueError]; a previous
    GPA outside [0, float(scale)] is rejected (all three in either format);
    otherwise the simple format returns, and the semester GPA of a result
    is the one computed without previous data. *)
Theorem gpa_previous_data :
  forall (float_of_string : string -> option Q) (courses : list GPA.course)
         (scale : string) (pg pc : Q),
    courses <> [] -> Forall (valid_course scale) courses ->
    let call := GPA.calculate_gpa float_of_string courses scale (Some pg) (Some pc) in
    ((pc < 0)%Q ->
     forall detailed, exists msg, call detailed = Raise (GPACalculationError msg))
    /\ ((0 <= pc)%Q -> (0 <= pg)%Q -> float_of_string scale = None ->
        forall detailed, exists msg, call detailed = Raise (ValueError msg))
    /\ (forall top, (0 <= pc)%Q -> float_of_string scale = Some top ->
                    (pg < 0)%Q \/ (top < pg)%Q ->
                    forall detailed,
                    exists msg, call detailed = Raise (GPACalculationError msg))
    /\ (forall top, (0 <= pc)%Q -> float_of_string scale = Some top ->
                    (0 <= pg)%Q -> (pg <= top)%Q ->
                    (exists res, call false = Ok res)
                    /\ forall detailed res res0,
                         call detailed = Ok res ->
                         GPA.calculate_gpa float_of_string courses scale None None
                           detailed = Ok res0 ->
                         gpa_value res = gpa_value res0).
Proof.
  intros f courses scale pg pc Hne Hv. cbv zeta.
  split; [|split; [|split]].
  - intros Hpc detailed.
    exact (proj1 (gpa_previous_cases f courses scale pg pc detailed Hne Hv) Hpc).
  - intros Hpc Hpg Hf detailed.
    exact (proj1 (proj2 (gpa_previous_cases f courses scale pg pc detailed Hne Hv))
             Hpc Hpg Hf).
  - intros top Hpc Hf Hout detailed.
    exact (proj1 (proj2 (proj2 (gpa_previous_cases f courses scale pg pc detailed Hne Hv)))
             top Hpc Hf Hout).
  - intros top Hpc Hf Hpg Hle. split.
    + destruct (proj2 (proj2 (proj2 (gpa_previous_cases f courses scale pg pc false
                                       Hne Hv))) top Hpc Hf Hpg Hle)
        as (res & _ & E & _).
      exists res. exact E.
    + intros detailed res res0 E E0.
      destruct (proj2 (proj2 (proj2 (gpa_previous_cases f courses scale pg pc detailed
                                       Hne Hv))) top Hpc Hf Hpg Hle)
        as (r & r0 & A & A0 & P).
      assert (r = res) by congruence. assert (r0 = res0) by congruence.
      subst r r0. exact P.
Qed.

Lemma gpa_previous_data_witness :
  exists msg,
    GPA.calculate_gpa (fun _ => None)
      [GPA.mk_course None (Some "A"%string) (Some (GPA.CNum 3))] "four" (Some 3.5%Q)
      (Some 30%Q) false
    = Raise (ValueError msg).
Proof.
  destruct (gpa_previous_data (fun _ => None)
              [GPA.mk_course None (Some "A"%string) (Some (GPA.CNum 3))] "four" 3.5 30)
    as (_ & H & _).
  - discriminate.
  - constructor; [|constructor].
    exists "A"%string, 3%Q. repeat split; try reflexivity. vm_compute. discriminate.
  - cbv zeta in H. apply H; [unfold Qle; cbn; lia | unfold Qle; cbn; lia | reflexivity].
Defined.

(** * The calculators on binary64 floats *)

(** ** Binary64: rounding to nearest is monotone *)

Lemma round_half_even_bounds (n d : Z) :
  0 < d ->
  2 * Dec.round_half_even n d * d - d <= 2 * n <= 2 * Dec.round_half_even n d * d + d.
Proof.
  intro Hd. unfold Dec.round_half_even. cbv zeta.
  pose proof (Z.div_mod n d ltac:(lia)) as E.
  pose proof (Z.mod_pos_bound n d Hd) as B.
  destruct (Z.ltb_spec (2 * (n mod d)) d); [nia|].
  destruct (Z.ltb_spec d (2 * (n mod d))); [nia|].
  destruct (Z.even (n / d)); nia.
Qed.

Lemma round_half_even_mono (n1 n2 d : Z) :
  0 < d -> n1 <= n2 -> Dec.round_half_even n1 d <= Dec.round_half_even n2 d.
Proof.
  intros Hd Hn.
  destruct (Z.eq_dec n1 n2) as [->|Hne]; [lia|].
  pose proof (round_half_even_bounds n1 d Hd) as B1.
  pose proof (round_half_even_bounds n2 d Hd) as B2.
  destruct (Z.le_gt_cases (Dec.round_half_even n1 d) (Dec.round_half_even n2 d))
    as [L|G]; [exact L|].
  exfalso. nia.
Qed.

Lemma round_half_even_exact (c d : Z) : 0 < d -> Dec.round_half_even (c * d) d = c.
Proof.
  intro H. unfold Dec.round_half_even.
  rewrite Z.div_mul, Z.mod_mul by lia.
  destruct (Z.ltb_spec (2 * 0) d); [reflexivity | lia].
Qed.

Lemma units_pos : 0 < F64.units.
Proof. reflexivity. Qed.

Lemma quotient_le (a b c d : Z) :
  0 < b -> 0 < d -> a * d <= c * b -> a / b <= c / d.
Proof.
  intros Hb Hd H. apply Z.div_le_lower_bound; [exact Hd|].
  pose proof (Z.mul_div_le a b Hb) as L.
  assert (b * (d * (a / b)) <= b * c) by nia.
  apply Zmult_le_reg_r with b; [lia|]. lia.
Qed.

Lemma nearest_nonneg (n d : Z) : 0 < n -> 0 < d -> 0 <= F64.nearest n d.
Proof.
  intros Hn Hd. unfold F64.nearest. cbv zeta.
  pose proof units_pos as U.
  set (p := Z.max _ 0).
  assert (Pp : 0 < 2 ^ p) by (apply Z.pow_pos_nonneg; lia).
  apply Z.mul_nonneg_nonneg; [|lia].
  apply round_half_even_ge; [nia | nia].
Qed.

Lemma nearest_mono (n1 d1 n2 d2 : Z) :
  0 < n1 -> 0 < d1 -> 0 < n2 -> 0 < d2 ->
  n1 * d2 <= n2 * d1 ->
  F64.nearest n1 d1 <= F64.nearest n2 d2.
Proof.
  intros Hn1 Hd1 Hn2 Hd2 H. unfold F64.nearest. cbv zeta.
  pose proof units_pos as U.
  set (N1 := n1 * F64.units). set (N2 := n2 * F64.units).
  assert (HN : N1 * d2 <= N2 * d1) by (unfold N1, N2; nia).
  assert (PN1 : 0 < N1) by (unfold N1; nia).
  assert (PN2 : 0 < N2) by (unfold N2; nia).
  pose proof (quotient_le N1 d1 N2 d2 Hd1 Hd2 HN) as HA.
  set (A1 := N1 / d1) in *. set (A2 := N2 / d2) in *.
  assert (A1pos : 0 <= A1) by (apply Z.div_pos; lia).
  pose proof (Z.log2_le_mono A1 A2 HA) as He.
  set (e1 := Z.log2 A1) in *. set (e2 := Z.log2 A2) in *.
  set (p1 := Z.max (e1 - 52) 0). set (p2 := Z.max (e2 - 52) 0).
  assert (Hp : p1 <= p2) by (unfold p1, p2; lia).
  assert (P1 : 0 < 2 ^ p1) by (apply Z.pow_pos_nonneg; unfold p1; lia).
  assert (P2 : 0 < 2 ^ p2) by (apply Z.pow_pos_nonneg; unfold p2; lia).
  destruct (Z.eq_dec p1 p2) as [E|NE].
  - rewrite <- E. apply Z.mul_le_mono_nonneg_r; [lia|].
    rewrite <- (round_half_even_scale d2 N1 (d1 * 2 ^ p1)) by nia.
    rewrite <- (round_half_even_scale d1 N2 (d2 * 2 ^ p1)) by nia.
    replace (d2 * (d1 * 2 ^ p1)) with (d1 * (d2 * 2 ^ p1)) by ring.
    apply round_half_even_mono; [nia | nia].
  - assert (Hlt : p1 < p2) by lia.
    assert (Ep2 : p2 = e2 - 52) by (unfold p2, p1 in *; lia).
    assert (He12 : e1 + 1 <= e2) by (unfold p1, p2 in *; lia).
    assert (He2 : 53 <= e2) by (unfold p1, p2 in *; lia).
    assert (A2pos : 0 < A2).
    { destruct (Z.lt_ge_cases 0 A2) as [L|G]; [exact L|].
      unfold e2 in He2. rewrite Z.log2_nonpos in He2 by exact G. lia. }
    pose proof (Z.log2_spec A2 A2pos) as S2. fold e2 in S2.
    apply Z.le_trans with (2 ^ e2).
    + (* the lower value stays below 2^e2 *)
      assert (B1 : A1 + 1 <= 2 ^ (e1 + 1)).
      { destruct (Z.eq_dec A1 0) as [Z0|NZ].
        - rewrite Z0. assert (0 <= e1) by apply Z.log2_nonneg.
          pose proof (Z.pow_pos_nonneg 2 (e1 + 1) ltac:(lia) ltac:(lia)). lia.
        - pose proof (Z.log2_spec A1 ltac:(lia)) as S1. fold e1 in S1.
          replace (Z.succ e1) with (e1 + 1) in S1 by lia. lia. }
      assert (B2 : 2 ^ (e1 + 1) <= 2 ^ e2) by (apply Z.pow_le_mono_r; lia).
      assert (HN1 : N1 < (A1 + 1) * d1).
      { unfold A1. pose proof (Z.mod_pos_bound N1 d1 Hd1).
        pose proof (Z.div_mod N1 d1 ltac:(lia)). nia. }
      assert (Esplit : 2 ^ e2 = 2 ^ (e2 - p1) * 2 ^ p1).
      { rewrite <- Z.pow_add_r by (unfold p1, p2 in *; lia). f_equal. lia. }
      rewrite Esplit. apply Z.mul_le_mono_nonneg_r; [lia|].
      apply round_half_even_le; [nia|].
      replace (2 ^ (e2 - p1) * (d1 * 2 ^ p1)) with (2 ^ e2 * d1) by (rewrite Esplit; ring).
      nia.
    + (* the upper value reaches 2^e2 *)
      assert (Esplit : 2 ^ e2 = 2 ^ 52 * 2 ^ p2).
      { rewrite <- Z.pow_add_r by lia. f_equal. lia. }
      rewrite Esplit at 1. apply Z.mul_le_mono_nonneg_r; [lia|].
      apply round_half_even_ge; [nia|].
      replace (2 ^ 52 * (d2 * 2 ^ p2)) with (2 ^ e2 * d2) by (rewrite Esplit; ring).
      assert (A2 * d2 <= N2).
      { unfold A2. pose proof (Z.mul_div_le N2 d2 Hd2). lia. }
      nia.
Qed.

Lemma leb_Fin (a b : Q) : F64.leb (F64.Fin a) (F64.Fin b) = true <-> (a <= b)%Q.
Proof. cbn. apply Qle_bool_iff. Qed.

Lemma ltb_Fin (a b : Q) : F64.ltb (F64.Fin a) (F64.Fin b) = true <-> (a < b)%Q.
Proof.
  cbn. rewrite negb_true_iff. split; intro H.
  - apply Qnot_le_lt. intro L. apply Qle_bool_iff in L. congruence.
  - destruct (Qle_bool b a) eqn:E; [|reflexivity].
    apply Qle_bool_iff in E. exfalso. exact (Qlt_not_le _ _ H E).
Qed.

Lemma ltb_Fin_false (a b : Q) : F64.ltb (F64.Fin a) (F64.Fin b) = false <-> (b <= a)%Q.
Proof.
  cbn. rewrite negb_false_iff. apply Qle_bool_iff.
Qed.

Lemma leb_Fin_false (a b : Q) : F64.leb (F64.Fin a) (F64.Fin b) = false <-> (b < a)%Q.
Proof.
  cbn. split; intro H.
  - apply Qnot_le_lt. intro L. apply Qle_bool_iff in L. congruence.
  - destruct (Qle_bool a b) eqn:E; [|reflexivity].
    apply Qle_bool_iff in E. exfalso. exact (Qlt_not_le _ _ H E).
Qed.

Lemma leb_trans (a b c : F64.t) :
  F64.leb a b = true -> F64.leb b c = true -> F64.leb a c = true.
Proof.
  destruct a as [x| | |], b as [y| | |], c as [z| | |]; cbn; try congruence.
  rewrite !Qle_bool_iff. apply Qle_trans.
Qed.

Lemma leb_opp (a b : F64.t) : F64.leb (F64.opp a) (F64.opp b) = F64.leb b a.
Proof.
  destruct a as [x| | |], b as [y| | |]; cbn; try reflexivity.
  destruct (Qle_bool y x) eqn:E.
  - apply Qle_bool_iff. apply Qle_bool_iff in E. apply Qopp_le_compat. exact E.
  - destruct (Qle_bool (- x) (- y)) eqn:E'; [|reflexivity].
    apply Qle_bool_iff in E'. apply Qopp_le_compat in E'.
    rewrite !Qopp_involutive in E'. apply Qle_bool_iff in E'. congruence.
Qed.

Lemma of_units_value (k : Z) :
  k < F64.top -> exists q, F64.of_units k = F64.Fin q /\ (q == k # Z.to_pos F64.units)%Q.
Proof.
  intro H. unfold F64.of_units. destruct (Z.leb_spec F64.top k); [lia|].
  eexists. split; [reflexivity | apply Qred_correct].
Qed.

Lemma of_units_nonneg (k : Z) :
  0 <= k -> F64.leb (F64.Fin 0) (F64.of_units k) = true.
Proof.
  intro H. unfold F64.of_units. destruct (F64.top <=? k); [reflexivity|].
  apply leb_Fin. rewrite Qred_correct. unfold Qle. cbn. lia.
Qed.

Lemma of_units_mono (k1 k2 : Z) :
  k1 <= k2 -> F64.leb (F64.of_units k1) (F64.of_units k2) = true.
Proof.
  intro H. unfold F64.of_units.
  destruct (Z.leb_spec F64.top k1), (Z.leb_spec F64.top k2); try reflexivity; [lia|].
  apply leb_Fin. rewrite !Qred_correct. unfold Qle. cbn [Qnum Qden].
  apply Z.mul_le_mono_nonneg_r; [lia | exact H].
Qed.

Lemma round64_nonneg (q : Q) : (0 <= q)%Q -> F64.leb (F64.Fin 0) (F64.round64 q) = true.
Proof.
  intro H. unfold F64.round64. destruct q as [n d]. cbn [Qnum Qden].
  destruct n as [|n|n].
  - reflexivity.
  - apply of_units_nonneg. apply nearest_nonneg; lia.
  - unfold Qle in H. cbn in H. lia.
Qed.

Lemma round64_nonpos (q : Q) : (q <= 0)%Q -> F64.leb (F64.round64 q) (F64.Fin 0) = true.
Proof.
  intro H. unfold F64.round64. destruct q as [n d]. cbn [Qnum Qden].
  destruct n as [|n|n].
  - reflexivity.
  - unfold Qle in H. cbn in H. lia.
  - change (F64.Fin 0) with (F64.opp (F64.Fin 0)). rewrite leb_opp.
    apply of_units_nonneg. apply nearest_nonneg; lia.
Qed.

(** Rounding to nearest keeps the order. *)
Lemma round64_mono (q1 q2 : Q) :
  (q1 <= q2)%Q -> F64.leb (F64.round64 q1) (F64.round64 q2) = true.
Proof.
  intro H.
  destruct (Qlt_le_dec q1 0) as [N1|P1].
  - destruct (Qlt_le_dec q2 0) as [N2|P2].
    + (* both negative *)
      unfold F64.round64. destruct q1 as [n1 d1], q2 as [n2 d2].
      unfold Qlt in N1, N2. unfold Qle in H. cbn [Qnum Qden] in *.
      destruct n1 as [|n1|n1]; try lia. destruct n2 as [|n2|n2]; try lia.
      rewrite leb_opp. apply of_units_mono. apply nearest_mono; lia.
    + apply leb_trans with (F64.Fin 0);
        [apply round64_nonpos; apply Qlt_le_weak; exact N1 | apply round64_nonneg; exact P2].
  - assert (P2 : (0 <= q2)%Q) by (apply Qle_trans with q1; assumption).
    unfold F64.round64. destruct q1 as [n1 d1], q2 as [n2 d2].
    unfold Qle in P1, P2, H. cbn [Qnum Qden] in *.
    destruct n1 as [|n1|n1]; try lia.
    + destruct n2 as [|n2|n2]; try lia; [reflexivity|].
      apply of_units_nonneg. apply nearest_nonneg; lia.
    + destruct n2 as [|n2|n2]; try lia.
      apply of_units_mono. apply nearest_mono; lia.
Qed.

(** ** Binary64: the values rounding produces *)

Lemma nearest_Qeq (n1 d1 n2 d2 : Z) :
  0 < n1 -> 0 < d1 -> 0 < n2 -> 0 < d2 ->
  n1 * d2 = n2 * d1 -> F64.nearest n1 d1 = F64.nearest n2 d2.
Proof.
  intros. apply Z.le_antisymm; apply nearest_mono; lia.
Qed.

(** Equal rationals round to the same float. *)
Lemma round64_Qeq (q1 q2 : Q) : (q1 == q2)%Q -> F64.round64 q1 = F64.round64 q2.
Proof.
  intro H. unfold F64.round64. destruct q1 as [n1 d1], q2 as [n2 d2].
  unfold Qeq in H. cbn [Qnum Qden] in *.
  destruct n1 as [|n1|n1], n2 as [|n2|n2]; try lia; try reflexivity.
  - f_equal. apply nearest_Qeq; lia.
  - do 2 f_equal. apply nearest_Qeq; lia.
Qed.

(** The finite values rounding produces are reduced fractions. *)
Lemma of_units_canon (k : Z) (q : Q) : F64.of_units k = F64.Fin q -> Qred q = q.
Proof.
  unfold F64.of_units. destruct (F64.top <=? k); [discriminate|].
  intro H. assert (E : q = Qred (k # Z.to_pos F64.units)) by congruence.
  rewrite E. apply Qred_complete, Qred_correct.
Qed.

Lemma round64_canon (x q : Q) : F64.round64 x = F64.Fin q -> Qred q = q.
Proof.
  unfold F64.round64. destruct (Qnum x).
  - intro H. injection H as <-. reflexivity.
  - apply of_units_canon.
  - destruct (F64.of_units _) eqn:E; cbn; try discriminate.
    intro H. injection H as <-. rewrite Qred_opp.
    rewrite (of_units_canon _ _ E). reflexivity.
Qed.

Lemma canon_eq (a b : Q) : Qred a = a -> Qred b = b -> (a == b)%Q -> a = b.
Proof. intros Ha Hb H. rewrite <- Ha, <- Hb. apply Qred_complete. exact H. Qed.

(** Two roundings that are each below the other are the same float. *)
Lemma round64_antisym (a b : Q) :
  F64.leb (F64.round64 a) (F64.round64 b) = true ->
  F64.leb (F64.round64 b) (F64.round64 a) = true ->
  F64.round64 a = F64.round64 b.
Proof.
  destruct (F64.round64 a) as [x| | |] eqn:Ea, (F64.round64 b) as [y| | |] eqn:Eb;
    cbn; try congruence.
  intros H1 H2. apply Qle_bool_iff in H1, H2. f_equal.
  apply canon_eq; [exact (round64_canon _ _ Ea) | exact (round64_canon _ _ Eb)|].
  apply Qle_antisym; assumption.
Qed.

(** ** Binary64: rounding a float gives it back *)

Lemma log2_bound (a e : Z) : 0 < e -> a < 2 ^ e -> Z.log2 a < e.
Proof.
  intros He H. destruct (Z.le_gt_cases a 0) as [L|G].
  - rewrite Z.log2_nonpos by exact L. exact He.
  - apply Z.log2_lt_pow2; assumption.
Qed.

(** The rounded value has at most 53 significant bits. *)
Lemma nearest_form (n d : Z) :
  0 < n -> 0 < d ->
  exists m p, F64.nearest n d = m * 2 ^ p /\ 0 <= p /\ 0 <= m <= 2 ^ 53
              /\ (0 < p -> 2 ^ 52 <= m).
Proof.
  intros Hn Hd. unfold F64.nearest. cbv zeta.
  pose proof units_pos as U.
  set (N := n * F64.units). assert (PN : 0 < N) by (unfold N; nia).
  set (A := N / d). assert (PA : 0 <= A) by (apply Z.div_pos; lia).
  set (e := Z.log2 A). assert (Pe : 0 <= e) by apply Z.log2_nonneg.
  set (p := Z.max (e - 52) 0).
  assert (Pp : 0 < 2 ^ p) by (apply Z.pow_pos_nonneg; unfold p; lia).
  exists (Dec.round_half_even N (d * 2 ^ p)), p.
  split; [reflexivity|]. split; [unfold p; lia|].
  assert (HA : A * d <= N < (A + 1) * d).
  { unfold A. pose proof (Z.div_mod N d ltac:(lia)).
    pose proof (Z.mod_pos_bound N d Hd). nia. }
  assert (Up : A + 1 <= 2 ^ (e + 1)).
  { destruct (Z.eq_dec A 0) as [Z0|NZ].
    - rewrite Z0. pose proof (Z.pow_pos_nonneg 2 (e + 1) ltac:(lia) ltac:(lia)). lia.
    - pose proof (Z.log2_spec A ltac:(lia)) as S. fold e in S.
      replace (Z.succ e) with (e + 1) in S by lia. lia. }
  split; [split|].
  - apply round_half_even_ge; [nia | nia].
  - apply round_half_even_le; [nia|].
    assert (2 ^ (e + 1) <= 2 ^ 53 * 2 ^ p).
    { rewrite <- Z.pow_add_r by (unfold p; lia). apply Z.pow_le_mono_r; unfold p; lia. }
    nia.
  - intro Hp. assert (Ep : p = e - 52) by (unfold p in *; lia).
    assert (A0 : 0 < A).
    { destruct (Z.lt_ge_cases 0 A) as [L|G]; [exact L|].
      unfold e in Ep. rewrite Z.log2_nonpos in Ep by exact G. lia. }
    pose proof (Z.log2_spec A A0) as S. fold e in S.
    apply round_half_even_ge; [nia|].
    assert (2 ^ e = 2 ^ 52 * 2 ^ p).
    { rewrite <- Z.pow_add_r by lia. f_equal. lia. }
    nia.
Qed.

(** A value of that form is its own rounding. *)
Lemma nearest_fixed (m p : Z) :
  0 <= p -> 0 < m <= 2 ^ 53 -> (0 < p -> 2 ^ 52 <= m) ->
  F64.nearest (m * 2 ^ p) F64.units = m * 2 ^ p.
Proof.
  intros Hp Hm Hlow. unfold F64.nearest. cbv zeta.
  pose proof units_pos as U.
  assert (Pp : 0 < 2 ^ p) by (apply Z.pow_pos_nonneg; lia).
  rewrite Z.div_mul by lia.
  set (K := m * 2 ^ p). assert (PK : 0 < K) by (unfold K; nia).
  set (e := Z.log2 K). set (p' := Z.max (e - 52) 0).
  assert (Pp' : 0 < 2 ^ p') by (apply Z.pow_pos_nonneg; unfold p'; lia).
  pose proof (Z.log2_spec K PK) as S. fold e in S.
  replace (Z.succ e) with (e + 1) in S by lia.
  (* 2^p' divides K *)
  assert (Hdiv : exists c, K = c * 2 ^ p').
  { destruct (Z.eq_dec p' 0) as [E0|NE].
    - exists K. rewrite E0. cbn. lia.
    - assert (Ep' : p' = e - 52) by (unfold p' in *; lia).
      destruct (Z.eq_dec m (2 ^ 53)) as [Em|Nm].
      + (* K = 2^(53+p) *)
        assert (EK : K = 2 ^ (53 + p)) by (unfold K; rewrite Em, Z.pow_add_r by lia; ring).
        assert (e = 53 + p).
        { unfold e. rewrite EK. apply Z.log2_pow2. lia. }
        exists (2 ^ 52). rewrite EK, <- Z.pow_add_r by lia. f_equal. lia.
      + assert (K < 2 ^ (53 + p)).
        { rewrite Z.pow_add_r by lia. unfold K. nia. }
        assert (e < 53 + p) by (apply log2_bound; [lia | assumption]).
        exists (m * 2 ^ (p - p')). unfold K.
        rewrite <- Z.mul_assoc, <- Z.pow_add_r by lia. do 2 f_equal. lia. }
  destruct Hdiv as [c Hc]. rewrite Hc.
  replace (c * 2 ^ p' * F64.units) with (c * (F64.units * 2 ^ p')) by ring.
  rewrite round_half_even_exact by nia. reflexivity.
Qed.

Lemma nearest_idempotent (n d : Z) :
  0 < n -> 0 < d -> 0 < F64.nearest n d ->
  F64.nearest (F64.nearest n d) F64.units = F64.nearest n d.
Proof.
  intros Hn Hd Hk.
  destruct (nearest_form n d Hn Hd) as (m & p & E & Hp & Hm & Hlow).
  rewrite E in *. apply nearest_fixed; try assumption.
  assert (0 < 2 ^ p) by (apply Z.pow_pos_nonneg; lia). nia.
Qed.

Lemma round64_of_units (k : Z) :
  0 < k -> k < F64.top -> F64.nearest k F64.units = k ->
  F64.round64 (Qred (k # Z.to_pos F64.units)) = F64.of_units k.
Proof.
  intros Hk Ht Hfix.
  rewrite (round64_Qeq _ (k # Z.to_pos F64.units)) by apply Qred_correct.
  unfold F64.round64. cbn [Qnum Qden]. destruct k as [|k|k]; try lia.
  change (Zpos (Z.to_pos F64.units)) with F64.units. rewrite Hfix. reflexivity.
Qed.

(** What rounding returns is a float. *)
Lemma round64_is_float (x q : Q) : F64.round64 x = F64.Fin q -> is_float q.
Proof.
  intro H. unfold is_float.
  assert (main : forall n d : positive, forall r,
             F64.of_units (F64.nearest (Zpos n) (Zpos d)) = F64.Fin r ->
             F64.round64 r = F64.Fin r).
  { intros n d r E.
    pose proof (nearest_nonneg (Zpos n) (Zpos d) ltac:(lia) ltac:(lia)) as P.
    set (k := F64.nearest (Zpos n) (Zpos d)) in *.
    unfold F64.of_units in E. destruct (Z.leb_spec F64.top k) as [|Lt]; [discriminate|].
    assert (Er : r = Qred (k # Z.to_pos F64.units)) by congruence. rewrite Er. clear E Er.
    destruct (Z.eq_dec k 0) as [Z0|NZ].
    - rewrite Z0. reflexivity.
    - rewrite round64_of_units; [| lia | exact Lt | apply nearest_idempotent; lia].
      unfold F64.of_units. destruct (Z.leb_spec F64.top k); [lia | reflexivity]. }
  unfold F64.round64 in H. destruct x as [n d]. cbn [Qnum Qden] in H.
  destruct n as [|n|n].
  - injection H as <-. exists 0%Q. split; reflexivity.
  - exists q. split; [exact (main n d q H) | reflexivity].
  - destruct (F64.of_units _) as [r| | |] eqn:E; cbn in H; try discriminate.
    injection H as <-. pose proof (main n d r E) as Hr.
    exists (- r)%Q. split; [|reflexivity].
    unfold F64.round64 in *. destruct r as [rn rd]. cbn [Qnum Qden Qopp] in *.
    destruct rn as [|rn|rn]; cbn [Z.opp].
    + injection Hr as <-. reflexivity.
    + rewrite Hr. reflexivity.
    + exfalso.
      pose proof (nearest_nonneg (Zpos n) (Zpos d) ltac:(lia) ltac:(lia)) as P.
      pose proof (of_units_nonneg _ P) as L. rewrite E in L.
      apply leb_Fin in L. unfold Qle in L. cbn in L. lia.
Qed.

Lemma is_float_round64 (f : Q) : is_float f -> exists q, F64.round64 f = F64.Fin q /\ (q == f)%Q.
Proof. exact (fun H => H). Qed.

(** ** Binary64: bounds that survive rounding *)

(** Between two floats rounding returns a finite value between them. *)
Lemma round64_between (lo hi q : Q) :
  is_float lo -> is_float hi -> (lo <= q)%Q -> (q <= hi)%Q ->
  exists r, F64.round64 q = F64.Fin r /\ (lo <= r)%Q /\ (r <= hi)%Q.
Proof.
  intros (l & El & Hl) (h & Eh & Hh) L H.
  pose proof (round64_mono lo q L) as M1. pose proof (round64_mono q hi H) as M2.
  rewrite El in M1. rewrite Eh in M2.
  destruct (F64.round64 q) as [r| | |]; cbn in M1, M2; try discriminate.
  exists r. apply Qle_bool_iff in M1, M2. split; [reflexivity|].
  split; [rewrite <- Hl | rewrite <- Hh]; assumption.
Qed.

(** Up to 53 bits times a power of two: a float, as long as it is in range. *)
Lemma nearest_fixed_shift (s : nat) :
  forall c : Z, 0 < c <= 2 ^ 53 ->
    F64.nearest (c * 2 ^ Z.of_nat s) F64.units = c * 2 ^ Z.of_nat s.
Proof.
  induction s as [|s IH]; intros c Hc.
  - apply nearest_fixed; lia.
  - destruct (Z.le_gt_cases (2 ^ 52) c) as [L|G].
    + apply nearest_fixed; lia.
    + replace (c * 2 ^ Z.of_nat (S s)) with (2 * c * 2 ^ Z.of_nat s).
      * apply IH. lia.
      * rewrite Nat2Z.inj_succ, Z.pow_succ_r by lia. ring.
Qed.

Lemma is_float_dyadic (c s : Z) :
  Z.abs c <= 2 ^ 53 -> 0 <= s -> Z.abs c * 2 ^ s < F64.top ->
  is_float (c * 2 ^ s # Z.to_pos F64.units).
Proof.
  intros Hc Hs Ht. pose proof units_pos as U.
  assert (Ps : 0 < 2 ^ s) by (apply Z.pow_pos_nonneg; lia).
  assert (fixed : forall k : Z, 0 < k <= 2 ^ 53 ->
            F64.nearest (k * 2 ^ s) F64.units = k * 2 ^ s).
  { intros k Hk. rewrite <- (Z2Nat.id s Hs). apply nearest_fixed_shift. exact Hk. }
  unfold is_float, F64.round64. cbn [Qnum Qden].
  change (Zpos (Z.to_pos F64.units)) with F64.units.
  destruct (c * 2 ^ s) as [|k|k] eqn:E.
  - exists 0%Q. split; [reflexivity|]. reflexivity.
  - assert (Pc : 0 < c) by nia.
    rewrite <- E, (fixed c) by lia. rewrite E.
    unfold F64.of_units. destruct (Z.leb_spec F64.top (Zpos k)); [lia|].
    eexists. split; [reflexivity | apply Qred_correct].
  - assert (Pc : c < 0) by nia.
    assert (Ek : Zpos k = (- c) * 2 ^ s) by lia.
    rewrite Ek, (fixed (- c)) by lia. rewrite <- Ek.
    unfold F64.of_units. destruct (Z.leb_spec F64.top (Zpos k)); [lia|].
    cbn [F64.opp]. eexists. split; [reflexivity|].
    rewrite Qred_correct. reflexivity.
Qed.

(** The [int]s up to [2^53] are floats. *)
Lemma is_float_Z (n : Z) : Z.abs n <= 2 ^ 53 -> is_float (inject_Z n).
Proof.
  intro H.
  destruct (is_float_dyadic n 1074 H ltac:(lia)) as (q & E & Hq).
  { apply Z.lt_le_trans with (2 ^ 54 * 2 ^ 1074); [|vm_compute; discriminate].
    apply Z.mul_lt_mono_pos_r; [reflexivity | lia]. }
  exists q. split.
  - rewrite <- E. apply round64_Qeq. unfold Qeq. cbn [Qnum Qden inject_Z].
    change (Zpos (Z.to_pos F64.units)) with (2 ^ 1074). lia.
  - rewrite Hq. unfold Qeq. cbn [Qnum Qden inject_Z].
    change (Zpos (Z.to_pos F64.units)) with (2 ^ 1074). lia.
Qed.

Lemma Qred_inject_Z (n : Z) : Qred (inject_Z n) = inject_Z n.
Proof.
  unfold Qred, inject_Z.
  pose proof (Z.ggcd_gcd n 1) as G. pose proof (Z.ggcd_correct_divisors n 1) as D.
  destruct (Z.ggcd n 1) as (g, (a, b)). cbn [fst snd] in *.
  rewrite Z.gcd_1_r in G. subst g. destruct D as [Da Db].
  rewrite Z.mul_1_l in Da, Db. rewrite <- Da, <- Db. reflexivity.
Qed.

Lemma round64_Z (n : Z) :
  Z.abs n <= 2 ^ 53 -> F64.round64 (inject_Z n) = F64.Fin (inject_Z n).
Proof.
  intro H. destruct (is_float_Z n H) as (q & E & Hq). rewrite E. f_equal.
  apply canon_eq; [exact (round64_canon _ _ E) | apply Qred_inject_Z | exact Hq].
Qed.

Lemma div_Fin (a b : Q) :
  ~ (b == 0)%Q -> F64.div (F64.Fin a) (F64.Fin b) = Ok (F64.round64 (a / b)).
Proof.
  intro H. unfold F64.div, F64.is_zero.
  destruct (Qeq_bool b 0) eqn:E; [|reflexivity].
  apply Qeq_bool_iff in E. contradiction.
Qed.

Lemma div_raises (a b : F64.t) (e : exn) :
  F64.div a b = Raise e -> e = ZeroDivisionError.
Proof.
  unfold F64.div. destruct (F64.is_zero b); congruence.
Qed.

(** [round(x, n)] keeps the order. *)
Lemma py_round_mono (a b : Q) (n : nat) :
  (a <= b)%Q ->
  F64.leb (F64.py_round (F64.Fin a) n) (F64.py_round (F64.Fin b) n) = true.
Proof.
  intro H. unfold F64.py_round. cbv zeta. apply round64_mono.
  set (s := 10 ^ Z.of_nat n).
  assert (Ps : 0 < s) by (apply Z.pow_pos_nonneg; lia).
  unfold Qle. cbn [Qnum Qden]. apply Z.mul_le_mono_nonneg_r; [lia|].
  rewrite <- (round_half_even_scale (Zpos (Qden b)) (Qnum a * s) (Zpos (Qden a))) by lia.
  rewrite <- (round_half_even_scale (Zpos (Qden a)) (Qnum b * s) (Zpos (Qden b))) by lia.
  rewrite (Z.mul_comm (Zpos (Qden a)) (Zpos (Qden b))).
  apply round_half_even_mono; [lia|]. unfold Qle in H. nia.
Qed.

Lemma py_round_Qeq (a b : Q) (n : nat) :
  (a == b)%Q -> F64.py_round (F64.Fin a) n = F64.py_round (F64.Fin b) n.
Proof.
  intro H. unfold F64.py_round. cbv zeta.
  rewrite (round_half_even_Qeq a b (10 ^ Z.of_nat n) H). reflexivity.
Qed.

(** Between two [int]s [round(x, n)] is finite and between them. *)
Lemma py_round_between (lo hi : Z) (q : Q) (n : nat) :
  Z.abs lo <= 2 ^ 53 -> Z.abs hi <= 2 ^ 53 ->
  (inject_Z lo <= q)%Q -> (q <= inject_Z hi)%Q ->
  exists r, F64.py_round (F64.Fin q) n = F64.Fin r
            /\ (inject_Z lo <= r)%Q /\ (r <= inject_Z hi)%Q.
Proof.
  intros Hlo Hhi L H. unfold F64.py_round. cbv zeta.
  set (s := 10 ^ Z.of_nat n).
  assert (Ps : 0 < s) by (apply Z.pow_pos_nonneg; lia).
  apply round64_between; [apply is_float_Z; exact Hlo | apply is_float_Z; exact Hhi | |].
  - unfold Qle in *. cbn [Qnum Qden inject_Z] in *. rewrite Z2Pos.id by exact Ps.
    rewrite Z.mul_1_r.
    apply round_half_even_ge; [lia | nia].
  - unfold Qle in *. cbn [Qnum Qden inject_Z] in *. rewrite Z2Pos.id by exact Ps.
    rewrite Z.mul_1_r.
    apply round_half_even_le; [lia | nia].
Qed.

Lemma is_float_max : is_float max_float.
Proof. eexists. split; [vm_compute; reflexivity | reflexivity]. Qed.

Lemma is_float_min : is_float (- max_float).
Proof. eexists. split; [vm_compute; reflexivity | reflexivity]. Qed.

(** The power that rounds to nearest is one the assumption allows. *)
Lemma pow_nearest_faithful : pow_faithful pow_nearest.
Proof.
  intros x n _ Hn Hy. apply Qabs_Qle_condition in Hy. destruct Hy as [Lo Hi].
  destruct (round64_between _ _ _ is_float_min is_float_max Lo Hi) as (r & E & _).
  exists r. unfold pow_nearest. rewrite E. split; [reflexivity|].
  split; intros f (q & Ef & Hq) Hle.
  - pose proof (round64_mono _ _ Hle) as M. rewrite Ef, E in M.
    apply leb_Fin in M. rewrite <- Hq. exact M.
  - pose proof (round64_mono _ _ Hle) as M. rewrite Ef, E in M.
    apply leb_Fin in M. rewrite <- Hq. exact M.
Qed.

(** ** BMI on binary64 floats *)

Lemma lit_18_5 : F64.lit 18.5 = F64.Fin (37 # 2).
Proof. vm_compute. reflexivity. Qed.

(** The thresholds of [get_bmi_category], for an adult or no age. *)
Lemma get_bmi_category64_adult (b : Q) (age : option Z) :
  BMI.is_minor age = false ->
  let c := BMI.category (BMI64.get_bmi_category (F64.Fin b) age) in
  ((b < 16)%Q -> c = "Severe Underweight"%string)
  /\ ((16 <= b)%Q -> (b < 17)%Q -> c = "Moderate Underweight"%string)
  /\ ((17 <= b)%Q -> (b < 18.5)%Q -> c = "Mild Underweight"%string)
  /\ ((18.5 <= b)%Q -> (b < 25)%Q -> c = "Normal Weight"%string)
  /\ ((25 <= b)%Q -> (b < 30)%Q -> c = "Overweight"%string)
  /\ ((30 <= b)%Q -> (b < 35)%Q -> c = "Obese Class I"%string)
  /\ ((35 <= b)%Q -> (b < 40)%Q -> c = "Obese Class II"%string)
  /\ ((40 <= b)%Q -> c = "Obese Class III"%string).
Proof.
  intros Hm c. subst c. unfold BMI64.get_bmi_category. rewrite Hm, lit_18_5.
  destruct (F64.ltb (F64.Fin b) (F64.Fin 16)) eqn:E16;
    [apply ltb_Fin in E16 | apply ltb_Fin_false in E16].
  { cbn [BMI.category]. repeat split; intros; try reflexivity; exfalso; lra. }
  rewrite (proj2 (leb_Fin 16 b) E16). cbn [andb].
  destruct (F64.ltb (F64.Fin b) (F64.Fin 17)) eqn:E17;
    [apply ltb_Fin in E17 | apply ltb_Fin_false in E17].
  { cbn [BMI.category]. repeat split; intros; try reflexivity; exfalso; lra. }
  rewrite (proj2 (leb_Fin 17 b) E17). cbn [andb].
  destruct (F64.ltb (F64.Fin b) (F64.Fin (37 # 2))) eqn:E18;
    [apply ltb_Fin in E18 | apply ltb_Fin_false in E18].
  { cbn [BMI.category]. repeat split; intros; try reflexivity; exfalso; lra. }
  rewrite (proj2 (leb_Fin (37 # 2) b) E18). cbn [andb].
  destruct (F64.ltb (F64.Fin b) (F64.Fin 25)) eqn:E25;
    [apply ltb_Fin in E25 | apply ltb_Fin_false in E25].
  { cbn [BMI.category]. repeat split; intros; try reflexivity; exfalso; lra. }
  rewrite (proj2 (leb_Fin 25 b) E25). cbn [andb].
  destruct (F64.ltb (F64.Fin b) (F64.Fin 30)) eqn:E30;
    [apply ltb_Fin in E30 | apply ltb_Fin_false in E30].
  { cbn [BMI.category]. repeat split; intros; try reflexivity; exfalso; lra. }
  rewrite (proj2 (leb_Fin 30 b) E30). cbn [andb].
  destruct (F64.ltb (F64.Fin b) (F64.Fin 35)) eqn:E35;
    [apply ltb_Fin in E35 | apply ltb_Fin_false in E35].
  { cbn [BMI.category]. repeat split; intros; try reflexivity; exfalso; lra. }
  rewrite (proj2 (leb_Fin 35 b) E35). cbn [andb].
  destruct (F64.ltb (F64.Fin b) (F64.Fin 40)) eqn:E40;
    [apply ltb_Fin in E40 | apply ltb_Fin_false in E40].
  { cbn [BMI.category]. repeat split; intros; try reflexivity; exfalso; lra. }
  cbn [BMI.category]. repeat split; intros; try reflexivity; exfalso; lra.
Qed.

(** A metric call whose sizes are in range gets through the validation. *)
Lemma calculate_bmi64_metric (fpow : F64.t -> Z -> result F64.t)
    (height weight : Q) (age : option Z) (gender : option string)
    (unit_system : string) (waist hip : option F64.t) (detailed : bool)
    (height_m square quotient : F64.t) :
  lower unit_system = "metric"%string ->
  (50 <= height)%Q -> (height <= 300)%Q -> (20 <= weight)%Q -> (weight <= 500)%Q ->
  match age with Some a => 1 <= a <= 120 | None => True end ->
  match gender with
  | Some g => lower g = "male"%string \/ lower g = "female"%string
  | None => True
  end ->
  F64.div (F64.Fin height) (F64.Fin 100) = Ok height_m ->
  fpow height_m 2 = Ok square ->
  F64.div (F64.Fin weight) square = Ok quotient ->
  let bmi := F64.py_round quotient 2 in
  let info := BMI64.get_bmi_category bmi age in
  BMI64.calculate_bmi fpow (F64.Fin height) (F64.Fin weight) age gender unit_system
    waist hip detailed
  = if negb detailed then Ok (BMI64.Simple bmi (BMI.category info) (BMI.color info))
    else
      bmi_prime <- F64.div bmi (F64.Fin 25) ;;
      Ok (BMI64.Detailed bmi (F64.py_round bmi_prime 2) (BMI.category info)
            (BMI.description info) (BMI.health_risk info) (BMI.color info)).
Proof.
  intros Hu H50 H300 H20 H500 Hage Hgender Ehm Esq Eq bmi info.
  unfold BMI64.calculate_bmi.
  rewrite (proj2 (leb_Fin_false height 0)) by lra.
  rewrite (proj2 (leb_Fin_false weight 0)) by lra.
  replace (match age with Some a => (a <=? 0) || (120 <? a) | None => false end)
    with false.
  2:{ destruct age as [a|]; [|reflexivity]. symmetry. apply orb_false_iff.
      split; [apply Z.leb_gt | apply Z.ltb_ge]; lia. }
  replace (match gender with
           | Some g => negb (BMI.in_list (lower g) ["male"%string; "female"%string])
           | None => false end) with false.
  2:{ destruct gender as [g|]; [|reflexivity].
      destruct Hgender as [-> | ->]; reflexivity. }
  rewrite Hu. cbn [BMI.in_list existsb String.eqb Ascii.eqb Bool.eqb orb negb].
  cbv zeta.
  rewrite (proj2 (ltb_Fin_false height 50)) by lra.
  rewrite (proj2 (ltb_Fin_false 300 height)) by lra.
  rewrite (proj2 (ltb_Fin_false weight 20)) by lra.
  rewrite (proj2 (ltb_Fin_false 500 weight)) by lra.
  cbn [orb]. rewrite Ehm. cbn [bind]. rewrite Esq. cbn [bind]. rewrite Eq. cbn [bind].
  fold bmi. fold info.
  destruct detailed; cbn [negb].
  - reflexivity.
  - unfold F64.div at 1. change (F64.is_zero (F64.Fin 25)) with false.
    reflexivity.
Qed.

Lemma is_float_small (n d : Z) :
  F64.round64 (n # Z.to_pos d) = F64.Fin (Qred (n # Z.to_pos d)) ->
  is_float (n # Z.to_pos d).
Proof. intro H. eexists. split; [exact H | apply Qred_correct]. Qed.

(** The height in metres and its square, for a height of 50 to 300 cm. *)
Lemma height_square (fpow : F64.t -> Z -> result F64.t) (height : Q) :
  pow_faithful fpow -> (50 <= height)%Q -> (height <= 300)%Q ->
  exists hm sq,
    F64.div (F64.Fin height) (F64.Fin 100) = Ok (F64.Fin hm)
    /\ fpow (F64.Fin hm) 2 = Ok (F64.Fin sq)
    /\ (1 # 2 <= hm)%Q /\ (hm <= 3)%Q /\ (1 # 4 <= sq)%Q /\ (sq <= 9)%Q
    /\ (forall f, is_float f -> (f <= hm ^ 2)%Q -> (f <= sq)%Q)
    /\ (forall f, is_float f -> (hm ^ 2 <= f)%Q -> (sq <= f)%Q).
Proof.
  intros Hpow H50 H300.
  rewrite div_Fin by (intro E; discriminate E).
  assert (F12 : is_float (1 # 2)) by (eexists; split; [vm_compute; reflexivity | reflexivity]).
  assert (F3 : is_float 3) by (apply (is_float_Z 3); vm_compute; discriminate).
  assert (F14 : is_float (1 # 4)) by (eexists; split; [vm_compute; reflexivity | reflexivity]).
  assert (F9 : is_float 9) by (apply (is_float_Z 9); vm_compute; discriminate).
  destruct (round64_between (1 # 2) 3 (height / 100) F12 F3) as (hm & Ehm & L & U).
  { apply Qle_shift_div_l; lra. }
  { apply Qle_shift_div_r; lra. }
  assert (Hsq : (1 # 4 <= hm ^ 2)%Q /\ (hm ^ 2 <= 9)%Q).
  { change (hm ^ 2)%Q with (hm * hm)%Q. split; nra. }
  destruct (Hpow hm 2 (round64_is_float _ _ Ehm) ltac:(lia)) as (sq & Esq & Lo & Hi).
  { apply Qabs_Qle_condition. split.
    - apply Qle_trans with (1 # 4); [vm_compute; discriminate | apply Hsq].
    - apply Qle_trans with 9%Q; [apply Hsq | vm_compute; discriminate]. }
  exists hm, sq. rewrite Ehm. split; [reflexivity|]. split; [exact Esq|].
  split; [exact L|]. split; [exact U|].
  split; [apply (Lo _ F14), Hsq|]. split; [apply (Hi _ F9), Hsq|].
  split; assumption.
Qed.

(** C7. With the quotient computed on floats: a metric input in range,
    without age or gender, gets in simple mode the BMI
    [round(weight / (height / 100) ** 2, 2)], each operation rounded to
    binary64, and the category of the lower-inclusive thresholds 16, 17,
    18.5, 25, 30, 35, 40 for that BMI; a BMI of exactly 18.5 is "Normal
    Weight"; height 170 and weight 70 give 24.22, "Normal Weight". *)
Theorem bmi_simple_metric_result :
  forall (fpow : F64.t -> Z -> result F64.t),
    pow_faithful fpow ->
    (forall (height weight : Q) (unit_system : string) (waist hip : option F64.t),
        lower unit_system = "metric"%string ->
        (50 <= height)%Q -> (height <= 300)%Q ->
        (20 <= weight)%Q -> (weight <= 500)%Q ->
        exists height_m square quotient bmi category color,
          F64.div (F64.Fin height) (F64.Fin 100) = Ok height_m
          /\ fpow height_m 2 = Ok square
          /\ F64.div (F64.Fin weight) square = Ok quotient
          /\ F64.py_round quotient 2 = F64.Fin bmi
          /\ BMI64.calculate_bmi fpow (F64.Fin height) (F64.Fin weight) None None
               unit_system waist hip false
             = Ok (BMI64.Simple (F64.Fin bmi) category color)
          /\ ((bmi < 16)%Q -> category = "Severe Underweight"%string)
          /\ ((16 <= bmi)%Q -> (bmi < 17)%Q -> category = "Moderate Underweight"%string)
          /\ ((17 <= bmi)%Q -> (bmi < 18.5)%Q -> category = "Mild Underweight"%string)
          /\ ((18.5 <= bmi)%Q -> (bmi < 25)%Q -> category = "Normal Weight"%string)
          /\ ((25 <= bmi)%Q -> (bmi < 30)%Q -> category = "Overweight"%string)
          /\ ((30 <= bmi)%Q -> (bmi < 35)%Q -> category = "Obese Class I"%string)
          /\ ((35 <= bmi)%Q -> (bmi < 40)%Q -> category = "Obese Class II"%string)
          /\ ((40 <= bmi)%Q -> category = "Obese Class III"%string)
          /\ ((bmi == 18.5)%Q -> category = "Normal Weight"%string))
    /\ BMI64.calculate_bmi fpow (F64.Fin 170) (F64.Fin 70) None None "metric" None None
         false
       = Ok (BMI64.Simple (F64.lit 24.22) "Normal Weight" "#2ecc71").
Proof.
  intros fpow Hpow. split.
  - intros height weight u waist hip Hu H50 H300 H20 H500.
    destruct (height_square fpow height Hpow H50 H300)
      as (hm & sq & Ehm & Esq & _ & _ & Lsq & Usq & _).
    assert (F2 : is_float 2) by (apply (is_float_Z 2); vm_compute; discriminate).
    assert (F2000 : is_float 2000) by (apply (is_float_Z 2000); vm_compute; discriminate).
    assert (Psq : (0 < sq)%Q) by lra.
    destruct (round64_between 2 2000 (weight / sq) F2 F2000) as (q & Eq & Lq & Uq).
    { apply Qle_shift_div_l; [exact Psq | nra]. }
    { apply Qle_shift_div_r; [exact Psq | nra]. }
    destruct (py_round_between 2 2000 q 2 ltac:(vm_compute; discriminate)
                ltac:(vm_compute; discriminate) Lq Uq) as (b & Eb & _).
    assert (Ediv : F64.div (F64.Fin weight) (F64.Fin sq) = Ok (F64.Fin q)).
    { rewrite div_Fin by lra. rewrite Eq. reflexivity. }
    pose proof (calculate_bmi64_metric fpow height weight None None u waist hip false
                  _ _ _ Hu H50 H300 H20 H500 I I Ehm Esq Ediv) as R.
    cbv zeta in R. cbn [negb] in R. rewrite Eb in R.
    exists (F64.Fin hm), (F64.Fin sq), (F64.Fin q), b. eexists _, _.
    split; [exact Ehm|]. split; [exact Esq|]. split; [exact Ediv|].
    split; [exact Eb|]. split; [exact R|].
    pose proof (get_bmi_category64_adult b None eq_refl) as C. cbv zeta in C.
    destruct C as (C1 & C2 & C3 & C4 & C5 & C6 & C7 & C8).
    repeat split; try assumption.
    intro Heq. apply C4; rewrite Heq; [apply Qle_refl | reflexivity].
  - destruct (height_square fpow 170 Hpow ltac:(lra) ltac:(lra))
      as (hm & sq & Ehm & Esq & _ & _ & _ & _ & Lo & Hi).
    assert (Vhm : F64.div (F64.Fin 170) (F64.Fin 100) = Ok (F64.Fin (7656119366529843 # 4503599627370496)))
      by (vm_compute; reflexivity).
    assert (hm = 7656119366529843 # 4503599627370496) by congruence. subst hm.
    set (lo := (6507701461550365 # 2251799813685248)%Q).
    set (hi := (6507701461550367 # 2251799813685248)%Q).
    assert (Flo : is_float lo) by (eexists; split; [vm_compute; reflexivity | reflexivity]).
    assert (Fhi : is_float hi) by (eexists; split; [vm_compute; reflexivity | reflexivity]).
    assert (Blo : (lo <= sq)%Q) by (apply (Lo _ Flo); vm_compute; discriminate).
    assert (Bhi : (sq <= hi)%Q) by (apply (Hi _ Fhi); vm_compute; discriminate).
    assert (Plo : (0 < lo)%Q) by reflexivity.
    assert (Psq : (0 < sq)%Q) by (apply Qlt_le_trans with lo; assumption).
    assert (Ediv : F64.div (F64.Fin 70) (F64.Fin sq) = Ok (F64.round64 (70 / sq)))
      by (apply div_Fin; lra).
    pose proof (calculate_bmi64_metric fpow 170 70 None None "metric" None None false
                  _ _ _ eq_refl ltac:(lra) ltac:(lra) ltac:(lra) ltac:(lra) I I
                  Ehm Esq Ediv) as R.
    cbv zeta in R. cbn [negb] in R. rewrite R. clear R.
    (* the quotient lies between the quotients by the two neighbours *)
    assert (Q1 : (70 / hi <= 70 / sq)%Q).
    { apply Qle_shift_div_l; [exact Psq|].
      assert (0 < hi)%Q by reflexivity.
      setoid_replace (70 / hi * sq)%Q with (70 * (sq / hi))%Q by (field; lra).
      assert (sq / hi <= 1)%Q by (apply Qle_shift_div_r; lra). nra. }
    assert (Q2 : (70 / sq <= 70 / lo)%Q).
    { apply Qle_shift_div_r; [exact Psq|].
      setoid_replace (70 / lo * sq)%Q with (70 * (sq / lo))%Q by (field; lra).
      assert (1 <= sq / lo)%Q by (apply Qle_shift_div_l; lra). nra. }
    pose proof (round64_mono _ _ Q1) as M1. pose proof (round64_mono _ _ Q2) as M2.
    remember (F64.round64 (70 / hi)) as x1 eqn:E1. vm_compute in E1.
    remember (F64.round64 (70 / lo)) as x2 eqn:E2. vm_compute in E2.
    subst x1 x2.
    destruct (F64.round64 (70 / sq)) as [q| | |] eqn:Eq;
      try (cbn in M1; discriminate M1); try (cbn in M2; discriminate M2).
    apply leb_Fin in M1, M2.
    pose proof (py_round_mono _ q 2 M1) as P1. pose proof (py_round_mono q _ 2 M2) as P2.
    assert (V : F64.py_round (F64.Fin q) 2 = F64.lit 24.22).
    { unfold F64.lit. unfold F64.py_round at 1. cbv zeta.
      apply round64_antisym.
      - eapply leb_trans; [exact P2|]. vm_compute. reflexivity.
      - eapply leb_trans; [|exact P1]. vm_compute. reflexivity. }
    rewrite V. vm_compute. reflexivity.
Qed.

Lemma bmi_simple_metric_result_witness :
  (exists category color,
     BMI64.calculate_bmi pow_nearest (F64.Fin 180) (F64.Fin 81) None None "Metric" None
       None false
     = Ok (BMI64.Simple (F64.Fin 25) category color)
     /\ category = "Overweight"%string)
  /\ BMI64.calculate_bmi pow_nearest (F64.Fin 170) (F64.Fin 70) None None "metric" None
       None false
     = Ok (BMI64.Simple (F64.lit 24.22) "Normal Weight" "#2ecc71").
Proof.
  destruct (bmi_simple_metric_result pow_nearest pow_nearest_faithful) as [H E].
  split; [|exact E].
  destruct (H 180%Q 81%Q "Metric"%string None None eq_refl
              ltac:(vm_compute; discriminate) ltac:(vm_compute; discriminate)
              ltac:(vm_compute; discriminate) ltac:(vm_compute; discriminate))
    as (hm & sq & q & bmi & category & color & _ & _ & _ & _ & R & _).
  assert (V : BMI64.calculate_bmi pow_nearest (F64.Fin 180) (F64.Fin 81) None None
                "Metric" None None false
              = Ok (BMI64.Simple (F64.Fin 25) "Overweight" "#f39c12"))
    by (vm_compute; reflexivity).
  exists category, color.
  rewrite V in R.
  assert (Eb : 25%Q = bmi) by (injection R; trivial).
  assert (Ec : "Overweight"%string = category) by (injection R; trivial).
  assert (Eo : "#f39c12"%string = color) by (injection R; trivial).
  subst bmi category color.
  split; [exact V | reflexivity].
Defined.
(** The quotient is rounded to binary64 before [round] sees it: for 24.9921875
    kg at 125 cm (both floats) the exact quotient is 15.995, which rounds to
    16.00, but its float is below 15.995 and the BMI returned is 15.99,
    "Severe Underweight". *)
Lemma bmi_not_the_rounded_quotient :
  is_float 125 /\ is_float 24.9921875
  /\ (Float.round (24.9921875 / (125 / 100) ^ 2) 2 == 16)%Q
  /\ exists bmi,
       F64.lit 15.99 = F64.Fin bmi /\ (bmi < 16)%Q
       /\ forall fpow, pow_faithful fpow ->
            BMI64.calculate_bmi fpow (F64.Fin 125) (F64.Fin 24.9921875) None None
              "metric" None None false
            = Ok (BMI64.Simple (F64.Fin bmi) "Severe Underweight" "#3498db").
Proof.
  split; [eexists; split; [vm_compute; reflexivity | reflexivity]|].
  split; [eexists; split; [vm_compute; reflexivity | reflexivity]|].
  split; [vm_compute; reflexivity|].
  eexists. split; [vm_compute; reflexivity|]. split; [vm_compute; reflexivity|].
  intros fpow Hpow.
  destruct (height_square fpow 125 Hpow ltac:(lra) ltac:(lra))
    as (hm & sq & Ehm & Esq & _ & _ & _ & _ & Lo & Hi).
  assert (Vhm : F64.div (F64.Fin 125) (F64.Fin 100) = Ok (F64.Fin (5 # 4)))
    by (vm_compute; reflexivity).
  assert (hm = 5 # 4) by congruence. subst hm.
  assert (F : is_float (25 # 16)) by (eexists; split; [vm_compute; reflexivity | reflexivity]).
  assert (Vsq : (sq == 25 # 16)%Q).
  { apply Qle_antisym; [apply (Hi _ F) | apply (Lo _ F)]; vm_compute; discriminate. }
  assert (Ediv : F64.div (F64.Fin 24.9921875) (F64.Fin sq)
                 = Ok (F64.round64 (24.9921875 / (25 # 16)))).
  { rewrite div_Fin by (rewrite Vsq; discriminate).
    f_equal. apply round64_Qeq. rewrite Vsq. reflexivity. }
  pose proof (calculate_bmi64_metric fpow 125 24.9921875 None None "metric" None None false
                _ _ _ eq_refl ltac:(lra) ltac:(lra) ltac:(lra) ltac:(lra) I I
                Ehm Esq Ediv) as R.
  cbv zeta in R. cbn [negb] in R. rewrite R. vm_compute. reflexivity.
Qed.
